(** * Discrete-sequence transform engine: batch operators, streaming state
      machine, convolution / correlation and sliding-window correlation.

    A shallow embedding of [src/2/sequence.c] with the two drivers of
    [src/2/cli.c], of [src/3/src/seq.c] and [src/3/src/ops.c] with the
    streaming mode of [src/3/src/cli.c], and of the sequence type of
    [src/1/main.c].

    - [double] is IEEE-754 binary64, embedded as Rocq's primitive [float]
      (same format, round-to-nearest-even), so the arithmetic of the model
      computes the very results of the C code.
    - [size_t] is an unsigned 64-bit integer and [long] a signed 64-bit
      integer (LP64); both are embedded as [Z] with the wrap-around written
      out.
    - A pointer is an [option]: [None] is [NULL].  An array is a [list float].
    - A computation lives in the [C] monad ([option]): [None] means that the
      C code performs an access outside an allocated array or through a null
      data pointer (undefined behaviour).
    - Whether the allocator has memory left is a boolean oracle, an explicit
      argument of every function that allocates; [calloc] also fails when
      the byte count does not fit [size_t]. *)

From Stdlib Require Import ZArith List Lia Bool Floats.
Import ListNotations.

(* ------------------------------------------------------------------ *)
(** ** Machine integers *)

Module Size.
(** [size_t]: unsigned, 64 bits. *)
Definition modulus : Z := 2 ^ 64.
Definition max : Z := modulus - 1.
Definition wrap (z : Z) : Z := z mod modulus.
Definition add (a b : Z) : Z := wrap (a + b).
Definition sub (a b : Z) : Z := wrap (a - b).
Definition mul (a b : Z) : Z := wrap (a * b).
Definition incr (a : Z) : Z := add a 1.
Definition decr (a : Z) : Z := sub a 1.
(** [(double)n] for a [size_t] below [2^63]. *)
Definition to_double (n : Z) : float := PrimFloat.of_uint63 (Uint63.of_Z n).
End Size.

Module Long.
(** [long]: signed, 64 bits, two's complement. *)
Definition half : Z := 2 ^ 63.
Definition wrap (z : Z) : Z := (z + half) mod Size.modulus - half.
(** [(long)n] for a [size_t] [n]. *)
Definition of_size (n : Z) : Z := wrap n.
(** [(size_t)l] for a [long] [l]. *)
Definition to_size (l : Z) : Z := Size.wrap l.
Definition add (a b : Z) : Z := wrap (a + b).
Definition sub (a b : Z) : Z := wrap (a - b).
Definition neg (a : Z) : Z := wrap (- a).
End Long.

(* ------------------------------------------------------------------ *)
(** ** The [C] monad and arrays *)

Definition C (A : Type) : Type := option A.
Definition ret {A} (a : A) : C A := Some a.
Definition undefined {A} : C A := None.
Definition bind {A B} (c : C A) (k : A -> C B) : C B :=
  match c with
  | Some a => k a
  | None => None
  end.

Declare Scope c_scope.
Delimit Scope c_scope with C.
Notation "x <- c ;; k" := (bind c (fun x => k))
  (at level 61, c at next level, right associativity) : c_scope.
Notation "' pat <- c ;; k" := (bind c (fun x => match x with pat => k end))
  (at level 61, pat pattern, c at next level, right associativity) : c_scope.
Open Scope c_scope.
Open Scope Z_scope.

(** [for (i = lo; <n more iterations>; ++i) body]: the state is threaded
    through [n] iterations at the indices [lo], [lo+1], ... *)
Fixpoint for_range {S} (n : nat) (i : Z) (body : Z -> S -> C S) (s : S) : C S :=
  match n with
  | O => ret s
  | Datatypes.S n' => s' <- body i s ;; for_range n' (i + 1) body s'
  end.

(** [for (i = lo; i < hi; ++i) body]. *)
Definition for_lt {S} (lo hi : Z) (body : Z -> S -> C S) (s : S) : C S :=
  for_range (Z.to_nat (hi - lo)) lo body s.

(** [for (i = lo; i <= hi; ++i) body], for [hi] below [SIZE_MAX]. *)
Definition for_le {S} (lo hi : Z) (body : Z -> S -> C S) (s : S) : C S :=
  for_range (Z.to_nat (hi + 1 - lo)) lo body s.

Definition array : Type := list float.

(** [a[i]] as an rvalue. *)
Definition in_bounds (a : array) (i : Z) : bool :=
  (0 <=? i) && (i <? Z.of_nat (List.length a)).

Definition arr_get (a : array) (i : Z) : C float :=
  if in_bounds a i then nth_error a (Z.to_nat i) else undefined.

Fixpoint list_set {A} (l : list A) (n : nat) (v : A) : option (list A) :=
  match l, n with
  | [], _ => None
  | _ :: t, O => Some (v :: t)
  | h :: t, Datatypes.S n' =>
      match list_set t n' v with
      | Some t' => Some (h :: t')
      | None => None
      end
  end.

(** [a[i] = v]. *)
Definition arr_set (a : array) (i : Z) (v : float) : C array :=
  if in_bounds a i then list_set a (Z.to_nat i) v else undefined.

(** The same through a data pointer that may be [NULL]. *)
Definition ptr_get (p : option array) (i : Z) : C float :=
  match p with
  | Some a => arr_get a i
  | None => undefined
  end.

Definition ptr_set (p : option array) (i : Z) (v : float) : C (option array) :=
  match p with
  | Some a => a' <- arr_set a i v ;; ret (Some a')
  | None => undefined
  end.

(** A block of [n] doubles, all zero. *)
Definition zeros (n : Z) : array := repeat 0%float (Z.to_nat n).

(** [calloc(n, sizeof(double))]: [NULL] when the allocator is out of memory
    ([mem_ok = false]) or when [n * sizeof(double)] does not fit [size_t],
    otherwise a zeroed block of [n] doubles. *)
Definition calloc_doubles (mem_ok : bool) (n : Z) : option array :=
  if mem_ok && (n <=? Size.max / 8) then Some (zeros n) else None.

(** C truth value of an [int]. *)
Definition truthy (z : Z) : bool := negb (z =? 0).

(* ------------------------------------------------------------------ *)
(** ** [src/2/sequence.c] *)

Module Sequence.

Inductive seq_err_t : Set :=
| SEQ_OK
| SEQ_ERR_ARG
| SEQ_ERR_NOMEM
| SEQ_ERR_STATE
| SEQ_ERR_UNSUPPORTED.

Inductive seq_op_type : Set :=
| SEQ_OP_PAD_FRONT
| SEQ_OP_PAD_BACK
| SEQ_OP_DELAY
| SEQ_OP_ADVANCE
| SEQ_OP_REVERSE
| SEQ_OP_UPSAMPLE
| SEQ_OP_DOWNSAMPLE
| SEQ_OP_DIFF
| SEQ_OP_CUMSUM.

Record seq_t : Type := mk_seq {
  data : option array;
  length : Z
}.

Record seq_stream_t : Type := mk_stream {
  active : Z;
  op : seq_op_type;
  param_main : Z;
  param_aux : Z;
  fill : float;
  buf : option array;
  buf_size : Z;
  buf_head : Z;
  counter : Z;
  remaining : Z;
  last : float;
  has_last : Z;
  acc : float
}.

(** [seq_alloc]; [mem_ok] tells whether the allocator has memory left. *)
Definition seq_alloc (mem_ok : bool) (seq : option seq_t) (len : Z)
  : seq_err_t * option seq_t :=
  match seq with
  | None => (SEQ_ERR_ARG, None)
  | Some _ =>
      if len =? 0 then (SEQ_OK, Some (mk_seq None 0))
      else
        match calloc_doubles mem_ok len with
        | Some blk => (SEQ_OK, Some (mk_seq (Some blk) len))
        | None => (SEQ_ERR_NOMEM, Some (mk_seq None 0))
        end
  end.

Definition seq_free (seq : option seq_t) : option seq_t :=
  match seq with
  | None => None
  | Some _ => Some (mk_seq None 0)
  end.

Definition seq_prepare_output (mem_ok : bool) (dst : option seq_t) (len : Z)
  : seq_err_t * option seq_t :=
  match dst with
  | None => (SEQ_ERR_ARG, None)
  | Some d =>
      match data d with
      | Some _ =>
          if negb (length d =? len)
          then seq_alloc mem_ok (seq_free dst) len
          else (SEQ_OK, dst)
      | None => seq_alloc mem_ok (seq_free dst) len
      end
  end.

(** [memcpy(dst, src, bytes)] between two blocks of doubles that do not
    overlap: the first [bytes / 8] doubles of [src] replace those of [dst];
    both blocks must hold that many. *)
Definition memcpy_doubles (dst src : option array) (bytes : Z)
  : C (option array) :=
  match dst, src with
  | Some d, Some s =>
      let n := bytes / 8 in
      if (n <=? Z.of_nat (List.length s)) && (n <=? Z.of_nat (List.length d))
      then ret (Some (firstn (Z.to_nat n) s ++ skipn (Z.to_nat n) d))
      else undefined
  | _, _ => undefined
  end.

(** [seq_copy]. *)
Definition seq_copy (mem_ok : bool) (src dst : option seq_t)
  : C (seq_err_t * option seq_t) :=
  match src, dst with
  | Some s, Some d =>
      if length s =? 0 then ret (SEQ_OK, seq_free dst)
      else
        let r :=
          match data d with
          | Some _ =>
              if negb (length d =? length s)
              then seq_alloc mem_ok (seq_free dst) (length s)
              else (SEQ_OK, dst)
          | None => seq_alloc mem_ok (seq_free dst) (length s)
          end in
        match r with
        | (SEQ_OK, Some d') =>
            match data s, data d' with
            | Some _, Some _ =>
                p <- memcpy_doubles (data d') (data s)
                       (Size.mul (length s) 8) ;;
                ret (SEQ_OK, Some (mk_seq p (length d')))
            | _, _ => ret (SEQ_ERR_ARG, Some d')
            end
        | (_, d') => ret (SEQ_ERR_NOMEM, d')
        end
  | _, _ => ret (SEQ_ERR_ARG, dst)
  end.

(** The body shared by the batch operators once the arguments are known
    to be non-null: prepare [dst] for [out_len] samples and, on success,
    run [fill_data] on its data pointer. *)
Definition with_output (mem_ok : bool) (dst : option seq_t) (out_len : Z)
    (fill_data : option array -> C (option array))
  : C (seq_err_t * option seq_t) :=
  match seq_prepare_output mem_ok dst out_len with
  | (SEQ_OK, Some d) =>
      p <- fill_data (data d) ;;
      ret (SEQ_OK, Some (mk_seq p (length d)))
  | (err, d) => ret (err, d)
  end.

Definition seq_pad_front (mem_ok : bool) (src : option seq_t) (nzeros : Z)
    (dst : option seq_t) : C (seq_err_t * option seq_t) :=
  match src, dst with
  | Some s, Some _ =>
      let out_len := Size.add (length s) nzeros in
      with_output mem_ok dst out_len (fun p =>
        '(i, p) <- for_lt 0 nzeros
                     (fun _ '(i, p) =>
                        p' <- ptr_set p i 0%float ;; ret (Size.incr i, p'))
                     (0, p) ;;
        '(_, p) <- for_lt 0 (length s)
                     (fun j '(i, p) =>
                        v <- ptr_get (data s) j ;;
                        p' <- ptr_set p i v ;; ret (Size.incr i, p'))
                     (i, p) ;;
        ret p)
  | _, _ => ret (SEQ_ERR_ARG, dst)
  end.

Definition seq_delay (mem_ok : bool) (src : option seq_t) (delay : Z)
    (fillv : float) (dst : option seq_t) : C (seq_err_t * option seq_t) :=
  match src, dst with
  | Some s, Some _ =>
      with_output mem_ok dst (length s) (fun p =>
        for_lt 0 (length s)
          (fun i p =>
             if i <? delay then ptr_set p i fillv
             else v <- ptr_get (data s) (Size.sub i delay) ;; ptr_set p i v)
          p)
  | _, _ => ret (SEQ_ERR_ARG, dst)
  end.

Definition seq_upsample (mem_ok : bool) (src : option seq_t) (factor : Z)
    (dst : option seq_t) : C (seq_err_t * option seq_t) :=
  match src, dst with
  | Some s, Some _ =>
      if factor =? 0 then ret (SEQ_ERR_ARG, dst)
      else
        let out_len := Size.mul (length s) factor in
        with_output mem_ok dst out_len (fun p =>
          p <- for_lt 0 out_len (fun n p => ptr_set p n 0%float) p ;;
          for_lt 0 (length s)
            (fun i p =>
               v <- ptr_get (data s) i ;; ptr_set p (Size.mul i factor) v)
            p)
  | _, _ => ret (SEQ_ERR_ARG, dst)
  end.

Definition seq_downsample (mem_ok : bool) (src : option seq_t) (factor : Z)
    (dst : option seq_t) : C (seq_err_t * option seq_t) :=
  match src, dst with
  | Some s, Some _ =>
      if factor =? 0 then ret (SEQ_ERR_ARG, dst)
      else
        let out_len := length s / factor in
        with_output mem_ok dst out_len (fun p =>
          for_lt 0 out_len
            (fun i p =>
               v <- ptr_get (data s) (Size.mul i factor) ;; ptr_set p i v)
            p)
  | _, _ => ret (SEQ_ERR_ARG, dst)
  end.

Definition seq_diff (mem_ok : bool) (src : option seq_t) (dst : option seq_t)
  : C (seq_err_t * option seq_t) :=
  match src, dst with
  | Some s, Some _ =>
      with_output mem_ok dst (length s) (fun p =>
        if length s =? 0 then ret p
        else
          x0 <- ptr_get (data s) 0 ;;
          p <- ptr_set p 0 x0 ;;
          for_lt 1 (length s)
            (fun i p =>
               xi <- ptr_get (data s) i ;;
               xp <- ptr_get (data s) (Size.sub i 1) ;;
               ptr_set p i (xi - xp)%float)
            p)
  | _, _ => ret (SEQ_ERR_ARG, dst)
  end.

Definition seq_cumsum (mem_ok : bool) (src : option seq_t) (dst : option seq_t)
  : C (seq_err_t * option seq_t) :=
  match src, dst with
  | Some s, Some _ =>
      with_output mem_ok dst (length s) (fun p =>
        '(_, p) <- for_lt 0 (length s)
                     (fun i '(a, p) =>
                        xi <- ptr_get (data s) i ;;
                        let a' := (a + xi)%float in
                        p' <- ptr_set p i a' ;; ret (a', p'))
                     (0%float, p) ;;
        ret p)
  | _, _ => ret (SEQ_ERR_ARG, dst)
  end.

Definition seq_pad_back (mem_ok : bool) (src : option seq_t) (nzeros : Z)
    (dst : option seq_t) : C (seq_err_t * option seq_t) :=
  match src, dst with
  | Some s, Some _ =>
      let out_len := Size.add (length s) nzeros in
      with_output mem_ok dst out_len (fun p =>
        p <- for_lt 0 (length s)
               (fun i p => v <- ptr_get (data s) i ;; ptr_set p i v) p ;;
        for_lt (length s) out_len (fun i p => ptr_set p i 0%float) p)
  | _, _ => ret (SEQ_ERR_ARG, dst)
  end.

Definition seq_advance (mem_ok : bool) (src : option seq_t) (advance : Z)
    (fillv : float) (dst : option seq_t) : C (seq_err_t * option seq_t) :=
  match src, dst with
  | Some s, Some _ =>
      with_output mem_ok dst (length s) (fun p =>
        for_lt 0 (length s)
          (fun i p =>
             let idx := Size.add i advance in
             if idx <? length s
             then v <- ptr_get (data s) idx ;; ptr_set p i v
             else ptr_set p i fillv)
          p)
  | _, _ => ret (SEQ_ERR_ARG, dst)
  end.

(** [seq_reverse].  The loop leaves through [break] when [j] reaches 0,
    which is its last iteration ([j = length - 1 - i] throughout). *)
Definition seq_reverse (mem_ok : bool) (src : option seq_t) (dst : option seq_t)
  : C (seq_err_t * option seq_t) :=
  match src, dst with
  | Some s, Some _ =>
      with_output mem_ok dst (length s) (fun p =>
        if length s =? 0 then ret p
        else
          '(_, p) <- for_lt 0 (length s)
                       (fun i '(j, p) =>
                          v <- ptr_get (data s) j ;;
                          p' <- ptr_set p i v ;;
                          ret (if j =? 0 then j else Size.decr j, p'))
                       (Size.sub (length s) 1, p) ;;
          ret p)
  | _, _ => ret (SEQ_ERR_ARG, dst)
  end.

(** [seq_online_capable]: 1 or 0.  The [default] branches of the two
    switches are unreachable for a value of the enumeration. *)
Definition seq_online_capable (o : seq_op_type) (infinite_input : Z) : Z :=
  if truthy infinite_input then
    match o with
    | SEQ_OP_PAD_FRONT | SEQ_OP_DELAY | SEQ_OP_UPSAMPLE
    | SEQ_OP_DOWNSAMPLE | SEQ_OP_DIFF | SEQ_OP_CUMSUM => 1
    | SEQ_OP_PAD_BACK | SEQ_OP_ADVANCE | SEQ_OP_REVERSE => 0
    end
  else
    match o with
    | SEQ_OP_PAD_FRONT | SEQ_OP_PAD_BACK | SEQ_OP_DELAY | SEQ_OP_ADVANCE
    | SEQ_OP_REVERSE | SEQ_OP_UPSAMPLE | SEQ_OP_DOWNSAMPLE | SEQ_OP_DIFF
    | SEQ_OP_CUMSUM => 1
    end.

(** The value [seq_stream_reset] leaves in a non-null state. *)
Definition reset_state : seq_stream_t :=
  {| active := 0; op := SEQ_OP_PAD_FRONT; param_main := 0; param_aux := 0;
     fill := 0%float; buf := None; buf_size := 0; buf_head := 0;
     counter := 0; remaining := 0; last := 0%float; has_last := 0;
     acc := 0%float |}.

Definition seq_stream_reset (st : option seq_stream_t) : option seq_stream_t :=
  match st with
  | None => None
  | Some _ => Some reset_state
  end.

Definition set_active (v : Z) (s : seq_stream_t) : seq_stream_t :=
  mk_stream v (op s) (param_main s) (param_aux s) (fill s) (buf s)
    (buf_size s) (buf_head s) (counter s) (remaining s) (last s)
    (has_last s) (acc s).
Definition set_op (v : seq_op_type) (s : seq_stream_t) : seq_stream_t :=
  mk_stream (active s) v (param_main s) (param_aux s) (fill s) (buf s)
    (buf_size s) (buf_head s) (counter s) (remaining s) (last s)
    (has_last s) (acc s).
Definition set_param_main (v : Z) (s : seq_stream_t) : seq_stream_t :=
  mk_stream (active s) (op s) v (param_aux s) (fill s) (buf s)
    (buf_size s) (buf_head s) (counter s) (remaining s) (last s)
    (has_last s) (acc s).
Definition set_fill (v : float) (s : seq_stream_t) : seq_stream_t :=
  mk_stream (active s) (op s) (param_main s) (param_aux s) v (buf s)
    (buf_size s) (buf_head s) (counter s) (remaining s) (last s)
    (has_last s) (acc s).
Definition set_buf (v : option array) (s : seq_stream_t) : seq_stream_t :=
  mk_stream (active s) (op s) (param_main s) (param_aux s) (fill s) v
    (buf_size s) (buf_head s) (counter s) (remaining s) (last s)
    (has_last s) (acc s).
Definition set_buf_size (v : Z) (s : seq_stream_t) : seq_stream_t :=
  mk_stream (active s) (op s) (param_main s) (param_aux s) (fill s) (buf s)
    v (buf_head s) (counter s) (remaining s) (last s)
    (has_last s) (acc s).
Definition set_buf_head (v : Z) (s : seq_stream_t) : seq_stream_t :=
  mk_stream (active s) (op s) (param_main s) (param_aux s) (fill s) (buf s)
    (buf_size s) v (counter s) (remaining s) (last s)
    (has_last s) (acc s).
Definition set_counter (v : Z) (s : seq_stream_t) : seq_stream_t :=
  mk_stream (active s) (op s) (param_main s) (param_aux s) (fill s) (buf s)
    (buf_size s) (buf_head s) v (remaining s) (last s)
    (has_last s) (acc s).
Definition set_remaining (v : Z) (s : seq_stream_t) : seq_stream_t :=
  mk_stream (active s) (op s) (param_main s) (param_aux s) (fill s) (buf s)
    (buf_size s) (buf_head s) (counter s) v (last s)
    (has_last s) (acc s).
Definition set_last (v : float) (s : seq_stream_t) : seq_stream_t :=
  mk_stream (active s) (op s) (param_main s) (param_aux s) (fill s) (buf s)
    (buf_size s) (buf_head s) (counter s) (remaining s) v
    (has_last s) (acc s).
Definition set_has_last (v : Z) (s : seq_stream_t) : seq_stream_t :=
  mk_stream (active s) (op s) (param_main s) (param_aux s) (fill s) (buf s)
    (buf_size s) (buf_head s) (counter s) (remaining s) (last s)
    v (acc s).
Definition set_acc (v : float) (s : seq_stream_t) : seq_stream_t :=
  mk_stream (active s) (op s) (param_main s) (param_aux s) (fill s) (buf s)
    (buf_size s) (buf_head s) (counter s) (remaining s) (last s)
    (has_last s) v.

(** [malloc(n * sizeof(double))]: the byte count wraps, and the block
    holds as many doubles as fit in it.  Its content is unspecified; it is
    taken to be zeros, and [seq_stream_init] overwrites it before any
    read. *)
Definition malloc_doubles (mem_ok : bool) (n : Z) : option array :=
  if mem_ok then Some (zeros (Size.mul n 8 / 8)) else None.

(** [seq_stream_init].  The result is the return code and the state
    object after the call. *)
Definition seq_stream_init (mem_ok : bool) (st : option seq_stream_t)
    (o : seq_op_type) (pm : Z) (pa : Z) (fillv : float)
  : C (seq_err_t * option seq_stream_t) :=
  match seq_stream_reset st with
  | None => ret (SEQ_ERR_ARG, None)
  | Some s0 =>
      let s := set_fill fillv (set_op o s0) in
      match o with
      | SEQ_OP_PAD_FRONT =>
          ret (SEQ_OK,
               Some (set_active 1 (set_remaining pm (set_param_main pm s))))
      | SEQ_OP_DELAY =>
          let s := set_param_main pm s in
          if pm =? 0 then ret (SEQ_OK, Some (set_active 1 s))
          else
            match malloc_doubles mem_ok pm with
            | None => ret (SEQ_ERR_NOMEM, Some (set_buf None s))
            | Some blk =>
                let s := set_buf_head 0 (set_buf_size pm (set_buf (Some blk) s)) in
                b <- for_lt 0 (buf_size s)
                       (fun i b => ptr_set b i fillv) (buf s) ;;
                ret (SEQ_OK, Some (set_active 1 (set_buf b s)))
            end
      | SEQ_OP_UPSAMPLE =>
          if pm =? 0 then ret (SEQ_ERR_ARG, Some s)
          else ret (SEQ_OK,
                    Some (set_active 1 (set_remaining 0 (set_param_main pm s))))
      | SEQ_OP_DOWNSAMPLE =>
          if pm =? 0 then ret (SEQ_ERR_ARG, Some s)
          else ret (SEQ_OK,
                    Some (set_active 1 (set_counter 0 (set_param_main pm s))))
      | SEQ_OP_DIFF =>
          ret (SEQ_OK, Some (set_active 1 (set_has_last 0 s)))
      | SEQ_OP_CUMSUM =>
          ret (SEQ_OK, Some (set_active 1 (set_acc 0%float s)))
      | SEQ_OP_PAD_BACK | SEQ_OP_ADVANCE | SEQ_OP_REVERSE =>
          ret (SEQ_ERR_UNSUPPORTED, Some s)
      end
  end.

(** What a call of [seq_stream_step] leaves behind: the return code, the
    state object, and the cells [*y] and [*has_output] ([None] for a null
    pointer). *)
Record step_result : Type := mk_step {
  rc : seq_err_t;
  st_out : option seq_stream_t;
  y_out : option float;
  has_output_out : option Z
}.

(** [seq_stream_step st has_input x y has_output].  [y] and [has_output]
    are the pointed-to cells with their current content, [None] when the
    pointer is null. *)
Definition seq_stream_step (st : option seq_stream_t) (has_input : Z)
    (x : float) (y : option float) (has_output : option Z) : C step_result :=
  match st, has_output with
  | Some s, Some _ =>
      if negb (truthy (active s)) then
        ret (mk_step SEQ_ERR_STATE st y has_output)
      else
        let ho0 := Some 0 in
        match op s with
        | SEQ_OP_PAD_FRONT =>
            if 0 <? remaining s then
              if truthy has_input then ret (mk_step SEQ_ERR_STATE st y ho0)
              else
                let y' := match y with Some _ => Some 0%float | None => None end in
                ret (mk_step SEQ_OK
                       (Some (set_remaining (Size.decr (remaining s)) s))
                       y' (Some 1))
            else
              match truthy has_input, y with
              | true, Some _ => ret (mk_step SEQ_OK st (Some x) (Some 1))
              | _, _ => ret (mk_step SEQ_OK st y ho0)
              end
        | SEQ_OP_DELAY =>
            if negb (truthy has_input) then ret (mk_step SEQ_OK st y ho0)
            else
              match y with
              | None => ret (mk_step SEQ_ERR_ARG st y ho0)
              | Some _ =>
                  if param_main s =? 0 then
                    ret (mk_step SEQ_OK st (Some x) (Some 1))
                  else
                    v <- ptr_get (buf s) (buf_head s) ;;
                    b <- ptr_set (buf s) (buf_head s) x ;;
                    let h := Size.incr (buf_head s) in
                    let h := if buf_size s <=? h then 0 else h in
                    ret (mk_step SEQ_OK
                           (Some (set_buf_head h (set_buf b s)))
                           (Some v) (Some 1))
              end
        | SEQ_OP_UPSAMPLE =>
            if 0 <? remaining s then
              if truthy has_input then ret (mk_step SEQ_ERR_STATE st y ho0)
              else
                let y' := match y with Some _ => Some 0%float | None => None end in
                ret (mk_step SEQ_OK
                       (Some (set_remaining (Size.decr (remaining s)) s))
                       y' (Some 1))
            else if negb (truthy has_input) then ret (mk_step SEQ_OK st y ho0)
            else
              match y with
              | None => ret (mk_step SEQ_ERR_ARG st y ho0)
              | Some _ =>
                  let s' := if 1 <? param_main s
                            then set_remaining (Size.sub (param_main s) 1) s
                            else s in
                  ret (mk_step SEQ_OK (Some s') (Some x) (Some 1))
              end
        | SEQ_OP_DOWNSAMPLE =>
            if negb (truthy has_input) then ret (mk_step SEQ_OK st y ho0)
            else if param_main s =? 0 then ret (mk_step SEQ_ERR_STATE st y ho0)
            else
              let s' := set_counter (Size.incr (counter s)) s in
              if counter s mod param_main s =? 0 then
                match y with
                | None => ret (mk_step SEQ_ERR_ARG st y ho0)
                | Some _ => ret (mk_step SEQ_OK (Some s') (Some x) (Some 1))
                end
              else ret (mk_step SEQ_OK (Some s') y ho0)
        | SEQ_OP_DIFF =>
            if negb (truthy has_input) then ret (mk_step SEQ_OK st y ho0)
            else
              match y with
              | None => ret (mk_step SEQ_ERR_ARG st y ho0)
              | Some _ =>
                  if negb (truthy (has_last s)) then
                    ret (mk_step SEQ_OK
                           (Some (set_has_last 1 (set_last x s)))
                           (Some x) (Some 1))
                  else
                    ret (mk_step SEQ_OK (Some (set_last x s))
                           (Some (x - last s)%float) (Some 1))
              end
        | SEQ_OP_CUMSUM =>
            if negb (truthy has_input) then ret (mk_step SEQ_OK st y ho0)
            else
              match y with
              | None => ret (mk_step SEQ_ERR_ARG st y ho0)
              | Some _ =>
                  let a := (acc s + x)%float in
                  ret (mk_step SEQ_OK (Some (set_acc a s)) (Some a) (Some 1))
              end
        | SEQ_OP_PAD_BACK | SEQ_OP_ADVANCE | SEQ_OP_REVERSE =>
            ret (mk_step SEQ_ERR_UNSUPPORTED st y ho0)
        end
  | _, _ => ret (mk_step SEQ_ERR_ARG st y has_output)
  end.

(** [seq_stream_dispose]. *)
Definition seq_stream_dispose (st : option seq_stream_t) : option seq_stream_t :=
  match st with
  | None => None
  | Some s =>
      Some {| active := 0; op := op s; param_main := 0; param_aux := 0;
              fill := 0%float; buf := None; buf_size := 0; buf_head := 0;
              counter := 0; remaining := 0; last := 0%float; has_last := 0;
              acc := 0%float |}
  end.

(* ---------------------------------------------------------------- *)
(** *** The two drivers of [src/2/cli.c] *)

(** The [switch] of [cli_run_finite]: the batch operator of [o]. *)
Definition cli_apply_finite (mem_ok : bool) (o : seq_op_type) (pm : Z)
    (fillv : float) (src dst : option seq_t) : C (seq_err_t * option seq_t) :=
  match o with
  | SEQ_OP_PAD_FRONT => seq_pad_front mem_ok src pm dst
  | SEQ_OP_PAD_BACK => seq_pad_back mem_ok src pm dst
  | SEQ_OP_DELAY => seq_delay mem_ok src pm fillv dst
  | SEQ_OP_ADVANCE => seq_advance mem_ok src pm fillv dst
  | SEQ_OP_REVERSE => seq_reverse mem_ok src dst
  | SEQ_OP_UPSAMPLE => seq_upsample mem_ok src pm dst
  | SEQ_OP_DOWNSAMPLE => seq_downsample mem_ok src pm dst
  | SEQ_OP_DIFF => seq_diff mem_ok src dst
  | SEQ_OP_CUMSUM => seq_cumsum mem_ok src dst
  end.

(** The locals of [cli_run_stream] that a step touches, and what has been
    printed so far. *)
Record channel : Type := mk_channel {
  ch_state : option seq_stream_t;
  ch_y : float;
  ch_has_output : Z;
  ch_printed : list float
}.

(** [rc = seq_stream_step(&st, has_input, x, &y, &has_output)]. *)
Definition call_step (c : channel) (has_input : Z) (x : float)
  : C (seq_err_t * channel) :=
  r <- seq_stream_step (ch_state c) has_input x
         (Some (ch_y c)) (Some (ch_has_output c)) ;;
  ret (rc r,
       mk_channel (st_out r)
         (match y_out r with Some v => v | None => ch_y c end)
         (match has_output_out r with Some h => h | None => ch_has_output c end)
         (ch_printed c)).

(** [printf("%.10g ", y)]. *)
Definition print_y (c : channel) : channel :=
  mk_channel (ch_state c) (ch_y c) (ch_has_output c) (ch_printed c ++ [ch_y c]).

(** How a driver loop ends. *)
Inductive drive : Type :=
| Running (c : channel)       (* every step returned SEQ_OK *)
| Stopped (e : seq_err_t) (c : channel) (* a step returned the error [e] *)
| Starved.                    (* the flush loop outlived its fuel *)

(** The flush loop
    [while (1) { rc = step(&st, 0, 0.0, ...); if (rc != SEQ_OK) fail;
                 if (!has_output) break; print y; }],
    cut off after [fuel] steps. *)
Fixpoint flush_loop (fuel : nat) (c : channel) : C drive :=
  match fuel with
  | O => ret Starved
  | Datatypes.S fuel' =>
      '(e, c') <- call_step c 0 0%float ;;
      match e with
      | SEQ_OK =>
          if truthy (ch_has_output c') then flush_loop fuel' (print_y c')
          else ret (Running c')
      | _ => ret (Stopped e c')
      end
  end.

(** The token loop of [cli_run_stream]: one step with the sample, its
    output printed, then a flush loop. *)
Fixpoint token_loop (fuel : nat) (tokens : list float) (c : channel) : C drive :=
  match tokens with
  | [] => ret (Running c)
  | x :: rest =>
      '(e, c') <- call_step c 1 x ;;
      match e with
      | SEQ_OK =>
          let c' := if truthy (ch_has_output c') then print_y c' else c' in
          d <- flush_loop fuel c' ;;
          match d with
          | Running c'' => token_loop fuel rest c''
          | _ => ret d
          end
      | _ => ret (Stopped e c')
      end
  end.

(** [cli_run_stream] on the samples [tokens] (the input up to [END]):
    the exit status and the samples printed.  [None] of the inner option
    stands for a flush loop cut off by [fuel].  The local [st] is
    uninitialised; [seq_stream_init] overwrites every field of it. *)
Definition cli_run_stream (mem_ok : bool) (fuel : nat) (o : seq_op_type)
    (pm : Z) (fillv : float) (tokens : list float)
  : C (option (Z * list float)) :=
  if negb (truthy (seq_online_capable o 1)) then ret (Some (1, []))
  else
    '(e, st) <- seq_stream_init mem_ok (Some reset_state) o pm 0 fillv ;;
    match e with
    | SEQ_OK =>
        d <- flush_loop fuel (mk_channel st 0%float 0 []) ;;
        match d with
        | Running c =>
            d <- token_loop fuel tokens c ;;
            match d with
            | Running c' => ret (Some (0, ch_printed c'))
            | Stopped _ c' => ret (Some (1, ch_printed c'))
            | Starved => ret None
            end
        | Stopped _ c => ret (Some (1, ch_printed c))
        | Starved => ret None
        end
    | _ => ret (Some (1, []))
    end.

(** The protocol in the words of the specification: every sample is fed
    in turn with [has_input = 1], and only then the state is flushed until
    a step produces no output.  The result is the first error code met
    (or [SEQ_OK]) and the outputs collected. *)
Fixpoint feed_all (tokens : list float) (c : channel) : C drive :=
  match tokens with
  | [] => ret (Running c)
  | x :: rest =>
      '(e, c') <- call_step c 1 x ;;
      match e with
      | SEQ_OK =>
          feed_all rest (if truthy (ch_has_output c') then print_y c' else c')
      | _ => ret (Stopped e c')
      end
  end.

Definition feed_then_flush (mem_ok : bool) (fuel : nat) (o : seq_op_type)
    (pm : Z) (fillv : float) (tokens : list float)
  : C (option (seq_err_t * list float)) :=
  '(e, st) <- seq_stream_init mem_ok (Some reset_state) o pm 0 fillv ;;
  match e with
  | SEQ_OK =>
      d <- feed_all tokens (mk_channel st 0%float 0 []) ;;
      match d with
      | Running c =>
          d <- flush_loop fuel c ;;
          match d with
          | Running c' => ret (Some (SEQ_OK, ch_printed c'))
          | Stopped e' c' => ret (Some (e', ch_printed c'))
          | Starved => ret None
          end
      | Stopped e' c => ret (Some (e', ch_printed c))
      | Starved => ret None
      end
  | _ => ret (Some (e, []))
  end.

End Sequence.

(* ------------------------------------------------------------------ *)
(** ** [src/3/src/seq.c] and [src/3/src/ops.c] *)

Module SeqOps.

(** [seq_t] of [src/3/include/seq.h]. *)
Record seq_t : Type := mk_seq {
  data : option array;
  length : Z
}.

Record seq_window_t : Type := mk_window {
  buf : option array;
  capacity : Z;
  start : Z;
  count : Z
}.

(** [seq_init]: 0 on success, -1 otherwise. *)
Definition seq_init (mem_ok : bool) (s : option seq_t) (len : Z)
  : Z * option seq_t :=
  match s with
  | None => (-1, None)
  | Some _ =>
      if len =? 0 then (0, Some (mk_seq None 0))
      else
        match calloc_doubles mem_ok len with
        | Some blk => (0, Some (mk_seq (Some blk) len))
        | None => (-1, Some (mk_seq None 0))
        end
  end.

(** [seq_free] of [src/3/src/seq.c]. *)
Definition seq_free (s : option seq_t) : option seq_t :=
  match s with
  | None => None
  | Some _ => Some (mk_seq None 0)
  end.

Definition seq_window_init (mem_ok : bool) (w : option seq_window_t) (cap : Z)
  : Z * option seq_window_t :=
  match w with
  | None => (-1, None)
  | Some _ =>
      if cap =? 0 then (-1, Some (mk_window None 0 0 0))
      else
        match calloc_doubles mem_ok cap with
        | Some blk => (0, Some (mk_window (Some blk) cap 0 0))
        | None => (-1, Some (mk_window None 0 0 0))
        end
  end.

Definition seq_window_free (w : option seq_window_t) : option seq_window_t :=
  match w with
  | None => None
  | Some _ => Some (mk_window None 0 0 0)
  end.

(** [seq_window_push]: the window after the call. *)
Definition seq_window_push (w : option seq_window_t) (x : float)
  : C (option seq_window_t) :=
  match w with
  | None => ret None
  | Some s =>
      match buf s with
      | None => ret w
      | Some _ =>
          if capacity s =? 0 then ret w
          else
            let '(idx, s') :=
              if count s <? capacity s then
                (Size.add (start s) (count s) mod capacity s,
                 mk_window (buf s) (capacity s) (start s) (Size.incr (count s)))
              else
                (start s,
                 mk_window (buf s) (capacity s)
                   (Size.add (start s) 1 mod capacity s) (count s)) in
            b <- ptr_set (buf s') idx x ;;
            ret (Some (mk_window b (capacity s') (start s') (count s')))
      end
  end.

(** [seq_window_get]. *)
Definition seq_window_get (w : option seq_window_t) (i : Z) : C float :=
  match w with
  | None => ret 0%float
  | Some s =>
      match buf s with
      | None => ret 0%float
      | Some _ =>
          if capacity s =? 0 then ret 0%float
          else if count s <=? i then ret 0%float
          else
            let idx := Size.add (start s) i mod capacity s in
            ptr_get (buf s) idx
      end
  end.

(** The common tail of the sequence-combination operators: [out] has
    been initialised with return code [r]; on success [fill_data] runs on
    its data pointer. *)
Definition with_init (r : Z * option seq_t)
    (fill_data : option array -> C (option array)) : C (Z * option seq_t) :=
  match r with
  | (0, Some o) =>
      p <- fill_data (data o) ;;
      ret (0, Some (mk_seq p (length o)))
  | (_, o) => ret (-1, o)
  end.

(** [seq_add]: the return code and [out] after the call. *)
Definition seq_add (mem_ok : bool) (a b out : option seq_t)
  : C (Z * option seq_t) :=
  match a, b, out with
  | Some sa, Some sb, Some _ =>
      let n := if length sa <? length sb then length sa else length sb in
      if n =? 0 then with_init (seq_init mem_ok out 0) (fun p => ret p)
      else
        with_init (seq_init mem_ok out n) (fun p =>
          for_lt 0 n
            (fun i p =>
               ai <- ptr_get (data sa) i ;;
               bi <- ptr_get (data sb) i ;;
               ptr_set p i (ai + bi)%float)
            p)
  | _, _, _ => ret (-1, out)
  end.

(** [seq_mul]. *)
Definition seq_mul (mem_ok : bool) (a b out : option seq_t)
  : C (Z * option seq_t) :=
  match a, b, out with
  | Some sa, Some sb, Some _ =>
      let n := if length sa <? length sb then length sa else length sb in
      if n =? 0 then with_init (seq_init mem_ok out 0) (fun p => ret p)
      else
        with_init (seq_init mem_ok out n) (fun p =>
          for_lt 0 n
            (fun i p =>
               ai <- ptr_get (data sa) i ;;
               bi <- ptr_get (data sb) i ;;
               ptr_set p i (ai * bi)%float)
            p)
  | _, _, _ => ret (-1, out)
  end.

Definition seq_conv_linear (mem_ok : bool) (a b out : option seq_t)
  : C (Z * option seq_t) :=
  match a, b, out with
  | Some sa, Some sb, Some _ =>
      if (length sa =? 0) || (length sb =? 0) then
        with_init (seq_init mem_ok out 0) (fun p => ret p)
      else
        let la := length sa in
        let lb := length sb in
        let ly := Size.sub (Size.add la lb) 1 in
        with_init (seq_init mem_ok out ly) (fun p =>
          for_lt 0 ly
            (fun n p =>
               let k_min := if Size.sub lb 1 <=? n
                            then Size.sub n (Size.sub lb 1) else 0 in
               let k_max := if n <? Size.sub la 1 then n else Size.sub la 1 in
               s <- for_le k_min k_max
                      (fun k s =>
                         let j := Size.sub n k in
                         ak <- ptr_get (data sa) k ;;
                         bj <- ptr_get (data sb) j ;;
                         ret (s + ak * bj)%float)
                      0%float ;;
               ptr_set p n s)
            p)
  | _, _, _ => ret (-1, out)
  end.

Definition seq_conv_circular (mem_ok : bool) (a b out : option seq_t)
  : C (Z * option seq_t) :=
  match a, b, out with
  | Some sa, Some sb, Some _ =>
      if (length sa =? 0) || (length sb =? 0) then ret (-1, out)
      else if negb (length sa =? length sb) then ret (-1, out)
      else
        let nlen := length sa in
        with_init (seq_init mem_ok out nlen) (fun p =>
          for_lt 0 nlen
            (fun n p =>
               s <- for_lt 0 nlen
                      (fun k s =>
                         let j := Size.sub (Size.add n nlen) k mod nlen in
                         ak <- ptr_get (data sa) k ;;
                         bj <- ptr_get (data sb) j ;;
                         ret (s + ak * bj)%float)
                      0%float ;;
               ptr_set p n s)
            p)
  | _, _, _ => ret (-1, out)
  end.

Definition seq_corr_cross (mem_ok : bool) (a b out : option seq_t)
  : C (Z * option seq_t) :=
  match a, b, out with
  | Some sa, Some sb, Some _ =>
      if (length sa =? 0) || (length sb =? 0) then
        with_init (seq_init mem_ok out 0) (fun p => ret p)
      else
        let la := length sa in
        let lb := length sb in
        let lr := Size.sub (Size.add la lb) 1 in
        with_init (seq_init mem_ok out lr) (fun p =>
          for_lt 0 lr
            (fun n p =>
               let lag := Long.sub (Long.of_size n)
                            (Long.of_size (Size.sub lb 1)) in
               let k_start := if lag <? 0
                              then Long.to_size (Long.neg lag) else 0 in
               let k_end := Size.sub la 1 in
               let k_end :=
                 if Long.of_size (Size.sub lb 1) <? Long.add (Long.of_size k_end) lag
                 then
                   let k_end := Long.to_size
                                  (Long.sub (Long.of_size (Size.sub lb 1)) lag) in
                   if Long.of_size k_end <? 0 then 0 else k_end
                 else k_end in
               s <- (if k_start <=? k_end then
                       for_le k_start k_end
                         (fun k s =>
                            let idx_y := Long.to_size
                                           (Long.add (Long.of_size k) lag) in
                            ak <- ptr_get (data sa) k ;;
                            by_ <- ptr_get (data sb) idx_y ;;
                            ret (s + ak * by_)%float)
                         0%float
                     else ret 0%float) ;;
               ptr_set p n s)
            p)
  | _, _, _ => ret (-1, out)
  end.

(** [seq_corr_window_norm wa wb out]: the return code and the cell [*out]
    after the call ([out] is the cell with its current content, [None]
    for a null pointer). *)
Definition seq_corr_window_norm (wa wb : option seq_window_t)
    (out : option float) : C (Z * option float) :=
  match wa, wb, out with
  | Some a, Some b, Some _ =>
      match buf a, buf b with
      | Some _, Some _ =>
          if (capacity a =? 0) || (capacity b =? 0) then ret (-1, out)
          else
            let la := count a in
            let lb := count b in
            if (la =? 0) || (lb =? 0) then ret (-1, out)
            else
              let L := if la <? lb then la else lb in
              if L =? 0 then ret (-1, out)
              else
                let offset_a := if L <? la then Size.sub la L else 0 in
                let offset_b := if L <? lb then Size.sub lb L else 0 in
                '(sum_x, sum_y) <-
                  for_lt 0 L
                    (fun i '(sum_x, sum_y) =>
                       xa <- seq_window_get wa (Size.add offset_a i) ;;
                       yb <- seq_window_get wb (Size.add offset_b i) ;;
                       ret (sum_x + xa, sum_y + yb)%float)
                    (0, 0)%float ;;
                let mx := (sum_x / Size.to_double L)%float in
                let my := (sum_y / Size.to_double L)%float in
                '(num, sx2, sy2) <-
                  for_lt 0 L
                    (fun i '(num, sx2, sy2) =>
                       xa <- seq_window_get wa (Size.add offset_a i) ;;
                       yb <- seq_window_get wb (Size.add offset_b i) ;;
                       let dx := (xa - mx)%float in
                       let dy := (yb - my)%float in
                       ret (num + dx * dy, sx2 + dx * dx, sy2 + dy * dy)%float)
                    (0, 0, 0)%float ;;
                if (sx2 <=? 0)%float || (sy2 <=? 0)%float then ret (-1, out)
                else
                  let denom := PrimFloat.sqrt (sx2 * sy2) in
                  if (denom =? 0)%float then ret (-1, out)
                  else ret (0, Some (num / denom)%float)
      | _, _ => ret (-1, out)
      end
  | _, _, _ => ret (-1, out)
  end.

(* ---------------------------------------------------------------- *)
(** *** The streaming mode of [src/3/src/cli.c] *)

(** What [cli_mode_corr_window] prints for one pair of samples. *)
Inductive corr_line : Type :=
| Rho (r : float)  (* the coefficient *)
| Nan.             (* the text nan *)

(** The [while] loop of [cli_mode_corr_window] over the pairs read up to
    the end of the input: both windows take their sample, then the
    coefficient of the two windows is printed, or [nan] when
    [seq_corr_window_norm] fails. *)
Fixpoint corr_window_loop (pairs : list (float * float))
    (wa wb : option seq_window_t) (printed : list corr_line)
  : C (list corr_line) :=
  match pairs with
  | [] => ret printed
  | (ax, bx) :: rest =>
      wa <- seq_window_push wa ax ;;
      wb <- seq_window_push wb bx ;;
      '(rc, rho) <- seq_corr_window_norm wa wb (Some 0%float) ;;
      let line := if rc =? 0
                  then Rho (match rho with Some r => r | None => 0%float end)
                  else Nan in
      corr_window_loop rest wa wb (printed ++ [line])
  end.

(** [cli_mode_corr_window]: the exit status and the lines printed.
    [win_size] is the window size read from the input ([None] when none
    could be read), [pairs] the pairs of samples that follow it; [mem_a]
    and [mem_b] tell whether the two window buffers can be allocated.  The
    locals [wa] and [wb] are uninitialised; [seq_window_init] overwrites
    every field of them. *)
Definition cli_mode_corr_window (mem_a mem_b : bool) (win_size : option Z)
    (pairs : list (float * float)) : C (Z * list corr_line) :=
  match win_size with
  | None => ret (1, [])
  | Some n =>
      if n =? 0 then ret (1, [])
      else
        let '(ra, wa) := seq_window_init mem_a (Some (mk_window None 0 0 0)) n in
        if negb (ra =? 0) then ret (1, [])
        else
          let '(rb, wb) := seq_window_init mem_b (Some (mk_window None 0 0 0)) n in
          if negb (rb =? 0) then ret (1, [])
          else
            printed <- corr_window_loop pairs wa wb [] ;;
            ret (0, printed)
  end.

End SeqOps.

(* ------------------------------------------------------------------ *)
(** ** [src/1/main.c]: the sequence with a logical start index *)

Module IntC.
(** [int]: signed, 32 bits.  An overflow is undefined behaviour. *)
Definition min : Z := - 2 ^ 31.
Definition max : Z := 2 ^ 31 - 1.
Definition checked (z : Z) : C Z :=
  if (min <=? z) && (z <=? max) then ret z else undefined.
End IntC.

Module Signal.

Definition INITIAL_CAPACITY : Z := 8.

Record SignalSeq : Type := mk_signal {
  start : Z;
  length : Z;
  capacity : Z;
  allow_expand : Z;
  data : option array
}.

(** [malloc((size_t)n * sizeof(double))] for a positive [int] [n] (the
    byte count cannot wrap): [NULL] when the allocator is out of memory,
    otherwise a block of [n] doubles whose content is unspecified; its
    cells hold [junk 0], [junk 1], ... *)
Definition malloc_block (mem_ok : bool) (junk : nat -> float) (n : Z)
  : option array :=
  if mem_ok then Some (map junk (List.seq 0 (Z.to_nat n))) else None.

(** [realloc(p, (size_t)n * sizeof(double))]: [NULL] when the allocator is
    out of memory, otherwise a block of [n] doubles that starts with the
    content of the old block; the cells beyond it are unspecified. *)
Definition realloc_block (mem_ok : bool) (junk : nat -> float)
    (p : option array) (n : Z) : option array :=
  if mem_ok then
    let old := match p with Some l => l | None => [] end in
    Some (firstn (Z.to_nat n)
            (old ++ map junk (List.seq (List.length old)
                                (Z.to_nat n - List.length old))))
  else None.

(** [signal_seq_init]: the return code and the object after the call. *)
Definition signal_seq_init (mem_ok : bool) (junk : nat -> float)
    (seq : option SignalSeq) (start0 initial_length allow : Z)
  : Z * option SignalSeq :=
  match seq with
  | None => (-1, None)
  | Some _ =>
      if initial_length <? 0 then (-1, seq)
      else
        let cap := if truthy allow && (initial_length <? INITIAL_CAPACITY)
                   then INITIAL_CAPACITY else initial_length in
        let finish := fun buffer =>
          (0, Some (mk_signal start0 initial_length cap
                      (if truthy allow then 1 else 0) buffer)) in
        if 0 <? cap then
          match malloc_block mem_ok junk cap with
          | None => (-1, seq)
          | Some blk => finish (Some blk)
          end
        else finish None
  end.

Definition signal_seq_free (seq : option SignalSeq) : option SignalSeq :=
  match seq with
  | None => None
  | Some _ => Some (mk_signal 0 0 0 0 None)
  end.

(** [signal_seq_logical_to_physical]: the return code and the cell
    [*physical_index].  The message of the error branch evaluates
    [seq->start + seq->length - 1]. *)
Definition signal_seq_logical_to_physical (seq : option SignalSeq)
    (logical_index : Z) (physical_index : option Z) : C (Z * option Z) :=
  match seq, physical_index with
  | Some s, Some _ =>
      offset <- IntC.checked (logical_index - start s) ;;
      if (offset <? 0) || (length s <=? offset) then
        e <- IntC.checked (start s + length s) ;;
        _ <- IntC.checked (e - 1) ;;
        ret (-1, physical_index)
      else ret (0, Some offset)
  | _, _ => ret (-1, physical_index)
  end.

(** [signal_seq_set]: the return code and the object after the call. *)
Definition signal_seq_set (seq : option SignalSeq) (logical_index : Z)
    (value : float) : C (Z * option SignalSeq) :=
  '(rc, pos) <- signal_seq_logical_to_physical seq logical_index (Some 0) ;;
  if negb (rc =? 0) then ret (-1, seq)
  else
    match seq, pos with
    | Some s, Some p =>
        d <- ptr_set (data s) p value ;;
        ret (0, Some (mk_signal (start s) (length s) (capacity s)
                        (allow_expand s) d))
    | _, _ => undefined
    end.

(** [signal_seq_get]: the return code and the cell [*out_value]. *)
Definition signal_seq_get (seq : option SignalSeq) (logical_index : Z)
    (out_value : option float) : C (Z * option float) :=
  match out_value with
  | None => ret (-1, None)
  | Some _ =>
      '(rc, pos) <- signal_seq_logical_to_physical seq logical_index (Some 0) ;;
      if negb (rc =? 0) then ret (-1, out_value)
      else
        match seq, pos with
        | Some s, Some p => v <- ptr_get (data s) p ;; ret (0, Some v)
        | _, _ => undefined
        end
  end.

(** [signal_seq_append]: the return code and the object after the call. *)
Definition signal_seq_append (mem_ok : bool) (junk : nat -> float)
    (seq : option SignalSeq) (value : float) : C (Z * option SignalSeq) :=
  match seq with
  | None => ret (-1, None)
  | Some s =>
      if negb (truthy (allow_expand s)) && (capacity s <=? length s)
      then ret (-1, seq)
      else
        grown <-
          (if capacity s <=? length s then
             new_capacity <-
               (if 0 <? capacity s then IntC.checked (capacity s * 2)
                else ret INITIAL_CAPACITY) ;;
             match realloc_block mem_ok junk (data s) new_capacity with
             | None => ret None
             | Some blk =>
                 ret (Some (mk_signal (start s) (length s) new_capacity
                              (allow_expand s) (Some blk)))
             end
           else ret (Some s)) ;;
        match grown with
        | None => ret (-1, seq)
        | Some s1 =>
            d <- ptr_set (data s1) (length s1) value ;;
            len <- IntC.checked (length s1 + 1) ;;
            ret (0, Some (mk_signal (start s1) len (capacity s1)
                            (allow_expand s1) d))
        end
  end.

End Signal.

(* ------------------------------------------------------------------ *)
(** ** Specification-side definitions *)

Import Sequence.

(** The operators the specification lists as capable under the
    unbounded-input assumption. *)
Definition streaming_op (o : seq_op_type) : bool :=
  match o with
  | SEQ_OP_PAD_FRONT | SEQ_OP_DELAY | SEQ_OP_UPSAMPLE
  | SEQ_OP_DOWNSAMPLE | SEQ_OP_DIFF | SEQ_OP_CUMSUM => true
  | SEQ_OP_PAD_BACK | SEQ_OP_ADVANCE | SEQ_OP_REVERSE => false
  end.

(** A sliding window as [seq_window_init] and [seq_window_push] build it:
    the buffer, when there is one, holds exactly [capacity] doubles (a block
    [calloc] could serve), [count <= capacity] and [start < capacity]; a
    window without a buffer (failed initialisation or [seq_window_free]) is
    all zero. *)
Definition window_wf (w : SeqOps.seq_window_t) : Prop :=
  match SeqOps.buf w with
  | Some l =>
      Z.of_nat (List.length l) = SeqOps.capacity w /\
      0 < SeqOps.capacity w <= Size.max / 8 /\
      0 <= SeqOps.start w < SeqOps.capacity w
  | None => SeqOps.capacity w = 0 /\ SeqOps.start w = 0
  end /\
  0 <= SeqOps.count w <= SeqOps.capacity w.

(** The indices [lo], [lo+1], ..., [lo+n-1], in increasing order. *)
Fixpoint zrange (lo : Z) (n : nat) : list Z :=
  match n with
  | O => []
  | Datatypes.S n' => lo :: zrange (lo + 1) n'
  end.

(** The indices of an array of [n] elements. *)
Definition indices (n : Z) : list Z := zrange 0 (Z.to_nat n).

(** A sum of doubles as C accumulates it: from 0.0, left to right. *)
Definition fsum (l : list float) : float := fold_left PrimFloat.add l 0%float.

(** [l[i]] for an index known to be valid. *)
Definition sample (l : list float) (i : Z) : float := nth (Z.to_nat i) l 0%float.

Definition valid_index (l : list float) (i : Z) : bool :=
  (0 <=? i) && (i <? Z.of_nat (List.length l)).

(** A sequence object of [src/3] that owns [length] doubles (or none, with
    a null data pointer), the block being one an allocation can serve. *)
Definition seq3_wf (s : SeqOps.seq_t) : Prop :=
  match SeqOps.data s with
  | Some l => Z.of_nat (List.length l) = SeqOps.length s
  | None => SeqOps.length s = 0
  end /\
  0 <= SeqOps.length s <= Size.max / 8.

Definition seq3_samples (s : SeqOps.seq_t) : list float :=
  match SeqOps.data s with
  | Some l => l
  | None => []
  end.

(** Linear convolution in the words of the specification:
    [y[n] = sum_k a[k] * b[n-k]] over the [k] for which [k] is a valid index
    of [a] and [n-k] a valid index of [b], summed in increasing [k]. *)
Definition conv_linear_at (a b : list float) (n : Z) : float :=
  fsum (map (fun k => (sample a k * sample b (n - k))%float)
          (filter (fun k => valid_index a k && valid_index b (n - k))
             (indices (Z.of_nat (List.length a))))).

Definition conv_linear_spec (a b : list float) : list float :=
  map (conv_linear_at a b)
    (indices (Z.of_nat (List.length a) + Z.of_nat (List.length b) - 1)).

(** Circular convolution in the words of the specification:
    [y[n] = sum_{k=0}^{N-1} a[k] * b[(n-k) mod N]]. *)
Definition conv_circular_at (a b : list float) (n : Z) : float :=
  let N := Z.of_nat (List.length a) in
  fsum (map (fun k => (sample a k * sample b ((n - k) mod N))%float) (indices N)).

Definition conv_circular_spec (a b : list float) : list float :=
  map (conv_circular_at a b) (indices (Z.of_nat (List.length a))).

(** Cross-correlation in the words of the specification: for the output
    index [n], [lag = n - (len b - 1)] and [y[n] = sum_k a[k] * b[k+lag]]
    over the [k] for which both indices are valid, summed in increasing
    [k]. *)
Definition corr_cross_at (a b : list float) (n : Z) : float :=
  let lag := n - (Z.of_nat (List.length b) - 1) in
  fsum (map (fun k => (sample a k * sample b (k + lag))%float)
          (filter (fun k => valid_index a k && valid_index b (k + lag))
             (indices (Z.of_nat (List.length a))))).

Definition corr_cross_spec (a b : list float) : list float :=
  map (corr_cross_at a b)
    (indices (Z.of_nat (List.length a) + Z.of_nat (List.length b) - 1)).

(** The logical content of a sliding window, oldest sample first: position
    [i] of [count] is the slot [(start + i) mod capacity] of the buffer. *)
Definition window_logical (w : SeqOps.seq_window_t) : list float :=
  match SeqOps.buf w with
  | Some l =>
      map (fun i => sample l ((SeqOps.start w + i) mod SeqOps.capacity w))
        (indices (SeqOps.count w))
  | None => []
  end.

(** The [L] most recent entries of a list ordered oldest first. *)
Definition most_recent (L : Z) (l : list float) : list float :=
  skipn (List.length l - Z.to_nat L) l.

(** The Pearson coefficient in the words of the specification, each sum
    accumulated from 0.0 in the order of the samples. *)
Definition mean (l : list float) : float :=
  (fsum l / Size.to_double (Z.of_nat (List.length l)))%float.

Definition deviations (l : list float) : list float :=
  map (fun x => (x - mean l)%float) l.

(** [sum dx^2]. *)
Definition sq_dev (l : list float) : float :=
  fsum (map (fun d => (d * d)%float) (deviations l)).

(** [sum dx*dy]. *)
Definition cross_dev (xs ys : list float) : float :=
  fsum (map (fun p => (fst p * snd p)%float)
          (combine (deviations xs) (deviations ys))).

Definition pearson (xs ys : list float) : float :=
  (cross_dev xs ys / PrimFloat.sqrt (sq_dev xs * sq_dev ys))%float.

(** The conditions under which [seq_corr_window_norm] refuses to normalise:
    a sum of squared deviations that is not positive, or a denominator that
    compares equal to zero (the product of two positive sums may underflow). *)
Definition corr_undefined (xs ys : list float) : bool :=
  (sq_dev xs <=? 0)%float || (sq_dev ys <=? 0)%float ||
  (PrimFloat.sqrt (sq_dev xs * sq_dev ys) =? 0)%float.

(** A flat signal in the words of the specification: every sample compares
    equal to the first one, so that the variance of the samples is exactly
    zero.  The empty list is flat. *)
Definition flat (l : list float) : bool :=
  match l with
  | [] => true
  | x :: t => forallb (fun y => (y =? x)%float) t
  end.

(** A sequence object of [src/2] that owns [length] doubles (or none, with
    a null data pointer), the block being one an allocation can serve. *)
Definition seq_wf (s : seq_t) : Prop :=
  match data s with
  | Some l => Z.of_nat (List.length l) = length s
  | None => length s = 0
  end /\
  0 <= length s <= Size.max / 8.

Definition seq_samples (s : seq_t) : list float :=
  match data s with
  | Some l => l
  | None => []
  end.

(** The batch operators in the words of the specification. *)

(** pad-front: [z] zeros, then the source. *)
Definition pad_front_spec (z : Z) (xs : list float) : list float :=
  repeat 0%float (Z.to_nat z) ++ xs.

(** delay: [y[i] = fill] for [i < d], else [y[i] = x[i-d]]. *)
Definition delay_spec (d : Z) (fillv : float) (xs : list float) : list float :=
  map (fun i => if i <? d then fillv else sample xs (i - d))
    (indices (Z.of_nat (List.length xs))).

(** upsample: every sample followed by [f-1] zeros, that is, length
    [len * f], [y[i*f] = x[i]] and zero elsewhere. *)
Definition upsample_spec (f : Z) (xs : list float) : list float :=
  flat_map (fun x => x :: repeat 0%float (Z.to_nat (f - 1))) xs.

(** downsample: length [len / f], [y[i] = x[i*f]]. *)
Definition downsample_spec (f : Z) (xs : list float) : list float :=
  map (fun i => sample xs (i * f)) (indices (Z.of_nat (List.length xs) / f)).

(** diff: [y[0] = x[0]], [y[i] = x[i] - x[i-1]]. *)
Definition diff_spec (xs : list float) : list float :=
  map (fun i => if i =? 0 then sample xs 0
                else (sample xs i - sample xs (i - 1))%float)
    (indices (Z.of_nat (List.length xs))).

(** cumsum: the running sums, accumulated from [a]. *)
Fixpoint cumsum_from (a : float) (xs : list float) : list float :=
  match xs with
  | [] => []
  | x :: t => (a + x)%float :: cumsum_from (a + x)%float t
  end.

Definition cumsum_spec (xs : list float) : list float := cumsum_from 0%float xs.

(** A data pointer to [n] doubles ([NULL] when there are none). *)
Definition ptr_wf (p : option array) (n : Z) : Prop :=
  match p with
  | Some l => Z.of_nat (List.length l) = n
  | None => n = 0
  end.

Definition ptr_contents (p : option array) : list float :=
  match p with
  | Some l => l
  | None => []
  end.

(** First differences of [xs], the element before [xs] being [prev]. *)
Fixpoint diff_from (prev : float) (xs : list float) : list float :=
  match xs with
  | [] => []
  | x :: t => (x - prev)%float :: diff_from x t
  end.

(** No rounding on the way from a sequence to its running sums and back:
    adding [x] to the running sum [a] and subtracting [a] again gives [x]. *)
Fixpoint sums_exact (a : float) (xs : list float) : Prop :=
  match xs with
  | [] => True
  | x :: t => ((a + x) - a)%float = x /\ sums_exact (a + x)%float t
  end.

(** No rounding on the way from a sequence to its differences and back:
    adding the difference [x - prev] to [prev] gives [x]. *)
Fixpoint diffs_exact (prev : float) (xs : list float) : Prop :=
  match xs with
  | [] => True
  | x :: t => (prev + (x - prev))%float = x /\ diffs_exact x t
  end.

(** The first sample survives the accumulation from 0.0 (it does unless
    it is -0.0), and no later step rounds. *)
Definition cumsum_diff_exact (xs : list float) : Prop :=
  match xs with
  | [] => True
  | x :: t => (0 + x)%float = x /\ sums_exact (0 + x)%float t
  end.

Definition diff_cumsum_exact (xs : list float) : Prop :=
  match xs with
  | [] => True
  | x :: t => (0 + x)%float = x /\ diffs_exact x t
  end.

(** *** Abstract view of the streaming state machine *)

(** What a stream of an operator remembers between two samples, as a
    predicate on the state object. *)

Definition pad_front_state (r : Z) (s : seq_stream_t) : Prop :=
  active s = 1 /\ op s = SEQ_OP_PAD_FRONT /\ remaining s = r.

Definition upsample_state (f r : Z) (s : seq_stream_t) : Prop :=
  active s = 1 /\ op s = SEQ_OP_UPSAMPLE /\ param_main s = f /\ remaining s = r.

(** The counter of a downsampling stream after [c] samples. *)
Definition downsample_state (f c : Z) (s : seq_stream_t) : Prop :=
  active s = 1 /\ op s = SEQ_OP_DOWNSAMPLE /\ param_main s = f /\
  counter s = Size.wrap c.

Definition diff_state (prev : option float) (s : seq_stream_t) : Prop :=
  active s = 1 /\ op s = SEQ_OP_DIFF /\
  match prev with
  | None => has_last s = 0
  | Some v => has_last s <> 0 /\ last s = v
  end.

Definition cumsum_state (a : float) (s : seq_stream_t) : Prop :=
  active s = 1 /\ op s = SEQ_OP_CUMSUM /\ acc s = a.

(** The ring buffer of a delay stream read from the cursor on: the queue
    of the [d] samples still to come out, oldest first. *)
Definition ring_queue (b : array) (h : Z) : list float :=
  skipn (Z.to_nat h) b ++ firstn (Z.to_nat h) b.

Definition delay_state (d : Z) (q : list float) (s : seq_stream_t) : Prop :=
  active s = 1 /\ op s = SEQ_OP_DELAY /\ param_main s = d /\
  (d = 0 \/
   exists b, buf s = Some b /\ buf_size s = d /\
             Z.of_nat (List.length b) = d /\ 0 <= buf_head s < d /\
             d <= Size.max / 8 /\ ring_queue b (buf_head s) = q).

(** A channel whose stream is in a state satisfying [P] and that has printed
    [pr] so far. *)
Definition chan_in (P : seq_stream_t -> Prop) (pr : list float)
    (c : channel) : Prop :=
  exists s, ch_state c = Some s /\ P s /\ ch_printed c = pr.

(** A stream from which a flush step draws nothing. *)
Definition idle (s : seq_stream_t) : Prop :=
  active s = 1 /\
  match op s with
  | SEQ_OP_PAD_FRONT | SEQ_OP_UPSAMPLE => remaining s <= 0
  | SEQ_OP_DELAY | SEQ_OP_DOWNSAMPLE | SEQ_OP_DIFF | SEQ_OP_CUMSUM => True
  | _ => False
  end.

(** An abstract machine: from a state [a] the sample [x] leads to
    [m_next a x] and puts the samples [m_out a x] out. *)
Record machine (A : Type) : Type := mk_machine {
  m_next : A -> float -> A;
  m_out : A -> float -> list float
}.
Arguments mk_machine {A} _ _.
Arguments m_next {A} _ _ _.
Arguments m_out {A} _ _ _.

Fixpoint m_run {A} (m : machine A) (a : A) (xs : list float) : list float :=
  match xs with
  | [] => []
  | x :: t => m_out m a x ++ m_run m (m_next m a x) t
  end.

Fixpoint m_final {A} (m : machine A) (a : A) (xs : list float) : A :=
  match xs with
  | [] => a
  | x :: t => m_final m (m_next m a x) t
  end.

(** The output of a downsampling stream whose counter stands at [c]. *)
Fixpoint downsample_from (c f : Z) (xs : list float) : list float :=
  match xs with
  | [] => []
  | x :: t =>
      if c mod f =? 0 then x :: downsample_from (c + 1) f t
      else downsample_from (c + 1) f t
  end.

(** The operators for which a flush step never has anything to deliver. *)
Definition flush_free (o : seq_op_type) : bool :=
  match o with
  | SEQ_OP_DELAY | SEQ_OP_DOWNSAMPLE | SEQ_OP_DIFF | SEQ_OP_CUMSUM => true
  | _ => false
  end.

(** The most output a single flush loop has to deliver. *)
Definition flush_bound (o : seq_op_type) (pm : Z) : nat :=
  match o with
  | SEQ_OP_PAD_FRONT | SEQ_OP_UPSAMPLE => Z.to_nat pm
  | _ => 0%nat
  end.

(** Valid parameters of a streaming-capable operator on a source of [n]
    samples: the factor of a resampler is positive, the pad count, the delay
    and the output length are sizes of blocks that can be allocated; for
    downsample, moreover, the factor divides the length of the source. *)
Definition valid_params (o : seq_op_type) (pm n : Z) : Prop :=
  match o with
  | SEQ_OP_PAD_FRONT => 0 <= pm /\ n + pm <= Size.max / 8
  | SEQ_OP_DELAY => 0 <= pm <= Size.max / 8
  | SEQ_OP_UPSAMPLE => 0 < pm <= Size.max /\ n * pm <= Size.max / 8
  | SEQ_OP_DOWNSAMPLE => 0 < pm <= Size.max /\ n mod pm = 0
  | _ => True
  end.

(** The channel after the driver has looked at [has_output]. *)
Definition after_print (c : channel) : channel :=
  if truthy (ch_has_output c) then print_y c else c.

(** The machines of the six streaming operators. *)

Definition pass_machine : machine unit :=
  mk_machine (fun a _ => a) (fun _ x => [x]).

Definition cumsum_machine : machine float :=
  mk_machine (fun a x => (a + x)%float) (fun a x => [(a + x)%float]).

Definition diff_machine : machine (option float) :=
  mk_machine (fun _ x => Some x)
    (fun prev x => match prev with
                   | None => [x]
                   | Some p => [(x - p)%float]
                   end).

Definition downsample_machine (f : Z) : machine Z :=
  mk_machine (fun c _ => c + 1)
    (fun c x => if Size.wrap c mod f =? 0 then [x] else []).

Definition upsample_machine (f : Z) : machine unit :=
  mk_machine (fun a _ => a)
    (fun _ x => x :: repeat 0%float (Z.to_nat (f - 1))).

Definition delay_machine : machine (list float) :=
  mk_machine (fun q x => tl q ++ [x]) (fun q _ => [hd 0%float q]).

(** pad-back: the source, then [z] zeros. *)
Definition pad_back_spec (z : Z) (xs : list float) : list float :=
  xs ++ repeat 0%float (Z.to_nat z).

(** advance: [y[i] = x[i+a]] while [i+a] is an index of the source, else
    [y[i] = fill]. *)
Definition advance_spec (a : Z) (fillv : float) (xs : list float) : list float :=
  map (fun i => if i + a <? Z.of_nat (List.length xs)
                then sample xs (i + a) else fillv)
    (indices (Z.of_nat (List.length xs))).

(** The length a batch operator asks its output to have, for a source of
    [n] samples. *)
Definition batch_out_len (o : seq_op_type) (pm n : Z) : Z :=
  match o with
  | SEQ_OP_PAD_FRONT | SEQ_OP_PAD_BACK => Size.add n pm
  | SEQ_OP_UPSAMPLE => Size.mul n pm
  | SEQ_OP_DOWNSAMPLE => n / pm
  | _ => n
  end.

(** The parameter for which a parametrised batch operator changes nothing:
    no padding, no shift, a resampling factor of 1. *)
Definition neutral_param (o : seq_op_type) (pm : Z) : Prop :=
  match o with
  | SEQ_OP_PAD_FRONT | SEQ_OP_PAD_BACK | SEQ_OP_DELAY | SEQ_OP_ADVANCE => pm = 0
  | SEQ_OP_UPSAMPLE | SEQ_OP_DOWNSAMPLE => pm = 1
  | _ => False
  end.

(** The invariant of a live stream: the state is active, its operator is
    one of the six streaming ones, a resampling factor is not 0, and a
    delay stream with a non-zero delay owns a ring buffer of [buf_size]
    doubles with its cursor inside. *)
Definition stream_wf (s : seq_stream_t) : Prop :=
  active s = 1 /\
  match op s with
  | SEQ_OP_PAD_FRONT | SEQ_OP_DIFF | SEQ_OP_CUMSUM => True
  | SEQ_OP_UPSAMPLE | SEQ_OP_DOWNSAMPLE => param_main s <> 0
  | SEQ_OP_DELAY =>
      param_main s = 0 \/
      exists b, buf s = Some b /\ Z.of_nat (List.length b) = buf_size s /\
                0 <= buf_head s < buf_size s /\ buf_size s <= Size.max
  | SEQ_OP_PAD_BACK | SEQ_OP_ADVANCE | SEQ_OP_REVERSE => False
  end.

(** The code [seq_stream_init] answers on a non-null state object, read
    off its [switch]. *)
Definition init_code (mem_ok : bool) (o : seq_op_type) (pm : Z) : seq_err_t :=
  match o with
  | SEQ_OP_PAD_FRONT | SEQ_OP_DIFF | SEQ_OP_CUMSUM => SEQ_OK
  | SEQ_OP_DELAY => if (pm =? 0) || mem_ok then SEQ_OK else SEQ_ERR_NOMEM
  | SEQ_OP_UPSAMPLE | SEQ_OP_DOWNSAMPLE =>
      if pm =? 0 then SEQ_ERR_ARG else SEQ_OK
  | SEQ_OP_PAD_BACK | SEQ_OP_ADVANCE | SEQ_OP_REVERSE => SEQ_ERR_UNSUPPORTED
  end.

(** The samples of two sequences combined index by index, up to the end
    of the shorter one. *)
Definition pointwise (f : float -> float -> float) (xs ys : list float)
  : list float :=
  map (fun p => f (fst p) (snd p)) (combine xs ys).

(** A list of samples pushed into a window one after the other. *)
Fixpoint push_all (w : option SeqOps.seq_window_t) (xs : list float)
  : C (option SeqOps.seq_window_t) :=
  match xs with
  | [] => ret w
  | x :: t => w' <- SeqOps.seq_window_push w x ;; push_all w' t
  end.

(** The line [cli_mode_corr_window] owes for the samples [sa] and [sb]
    seen so far, with windows of [n] samples: the Pearson coefficient of the
    [n] most recent samples of each (of all of them while there are fewer),
    or [nan] where [seq_corr_window_norm] refuses to normalise. *)
Definition corr_line_spec (n : Z) (sa sb : list float) : SeqOps.corr_line :=
  let xs := most_recent n sa in
  let ys := most_recent n sb in
  if corr_undefined xs ys then SeqOps.Nan else SeqOps.Rho (pearson xs ys).

(** The invariant of a sequence of [src/1]: [length <= capacity], a data
    block of [capacity] doubles (none when the capacity is 0), and logical
    indices [start .. start + length - 1] that are values of [int]. *)
Definition signal_wf (s : Signal.SignalSeq) : Prop :=
  0 <= Signal.length s <= Signal.capacity s /\
  Signal.capacity s <= IntC.max /\
  ptr_wf (Signal.data s) (Signal.capacity s) /\
  IntC.min <= Signal.start s /\
  IntC.min <= Signal.start s + Signal.length s - 1 /\
  Signal.start s + Signal.length s <= IntC.max.

(* ================================================================== *)
(** * Properties *)

(* ------------------------------------------------------------------ *)
(** ** The capability classifier and stream construction *)

(** C3.  [seq_online_capable] is a function of its two arguments alone:
    with a non-zero [infinite_input] it answers 1 exactly for pad-front,
    delay, upsample, downsample, diff and cumsum and 0 for pad-back, advance
    and reverse; with [infinite_input = 0] it answers 1 for all nine
    operators.  On a non-null state object [seq_stream_init] returns
    [SEQ_ERR_UNSUPPORTED], leaving the state inactive, for pad-back, advance
    and reverse, and never returns that code for the six other operators. *)
Theorem online_capability_classifier :
  forall o : seq_op_type,
    (forall inf, inf <> 0 ->
       seq_online_capable o inf = if streaming_op o then 1 else 0) /\
    seq_online_capable o 0 = 1 /\
    (forall mem_ok s pm pa f,
       (streaming_op o = false ->
        exists st',
          seq_stream_init mem_ok (Some s) o pm pa f
            = Some (SEQ_ERR_UNSUPPORTED, Some st') /\
          active st' = 0) /\
       (streaming_op o = true ->
        forall st',
          seq_stream_init mem_ok (Some s) o pm pa f
            <> Some (SEQ_ERR_UNSUPPORTED, st'))).
Proof.
  intro o. split; [|split].
  - intros inf Hinf. unfold seq_online_capable, truthy.
    destruct (Z.eqb_spec inf 0) as [->|_]; [contradiction|].
    now destruct o.
  - now destruct o.
  - intros mem_ok s pm pa f. split; intro Hcap.
    + destruct o; try discriminate Hcap; cbn; eexists; split; reflexivity.
    + intros st' Hinit.
      destruct o; try discriminate Hcap; cbn in Hinit;
        unfold ret in Hinit; try discriminate Hinit.
      * destruct (pm =? 0); [discriminate|].
        destruct (malloc_doubles mem_ok pm); [|discriminate].
        match type of Hinit with
        | bind ?c _ = _ => destruct c; cbn in Hinit; discriminate
        end.
      * destruct (pm =? 0); discriminate.
      * destruct (pm =? 0); discriminate.
Qed.

Lemma online_capability_classifier_witness :
  seq_online_capable SEQ_OP_REVERSE 1 = 0 /\
  seq_online_capable SEQ_OP_DELAY 7 = 1 /\
  exists st',
    seq_stream_init true (Some reset_state) SEQ_OP_REVERSE 3 0 0%float
      = Some (SEQ_ERR_UNSUPPORTED, Some st') /\
    active st' = 0.
Proof.
  split; [reflexivity|]. split.
  - apply (proj1 (online_capability_classifier SEQ_OP_DELAY) 7). discriminate.
  - apply (proj1 (proj2 (proj2 (online_capability_classifier SEQ_OP_REVERSE))
                    true reset_state 3 0 0%float)).
    reflexivity.
Defined.

(* ------------------------------------------------------------------ *)
(** ** Failed steps *)

(** C9.  A call of [seq_stream_step] that returns an error code leaves the
    state object exactly as it was (every field: op, param_main, fill, buf,
    buf_head, remaining, counter, last, has_last, acc, active), and does not
    write [*y]. *)
Theorem step_error_preserves_state :
  forall st has_input x y has_output r,
    seq_stream_step st has_input x y has_output = Some r ->
    rc r <> SEQ_OK ->
    st_out r = st /\ y_out r = y.
Proof.
  intros st has_input x y has_output r Hstep Herr.
  unfold seq_stream_step in Hstep.
  destruct st as [s|]; destruct has_output as [h|];
    try (injection Hstep as <-; cbn; auto; fail).
  destruct (truthy (active s)); cbn [negb] in Hstep;
    [|injection Hstep as <-; cbn; auto].
  destruct (op s);
    repeat match type of Hstep with
      | context [if ?b then _ else _] => destruct b; cbn [negb] in Hstep
      | context [match y with _ => _ end] => destruct y
      | ret _ = Some _ => injection Hstep as <-; cbn in *; auto; try congruence
      | bind ?c _ = Some _ => destruct c; cbn [bind] in Hstep; try discriminate
      end.
Qed.

Lemma step_error_preserves_state_witness :
  let s := set_active 1 (set_remaining 2 reset_state) in
  exists r,
    seq_stream_step (Some s) 1 5%float (Some 0%float) (Some 0) = Some r /\
    rc r = SEQ_ERR_STATE /\ st_out r = Some s /\ y_out r = Some 0%float.
Proof.
  intro s. eexists. split; [reflexivity|]. split; [reflexivity|].
  apply (step_error_preserves_state (Some s) 1 5%float (Some 0%float) (Some 0)).
  - reflexivity.
  - discriminate.
Defined.

(* ------------------------------------------------------------------ *)
(** ** Arrays and loops *)

Lemma list_set_in_range {A} (l : list A) (n : nat) (v : A) :
  (n < List.length l)%nat ->
  list_set l n v = Some (firstn n l ++ v :: skipn (Datatypes.S n) l).
Proof.
  revert n. induction l as [|h t IH]; intros n Hn; cbn in Hn; [lia|].
  destruct n as [|n]; cbn; [reflexivity|].
  rewrite IH by lia. reflexivity.
Qed.

Lemma in_bounds_true (a : array) (i : Z) :
  0 <= i < Z.of_nat (List.length a) -> in_bounds a i = true.
Proof.
  intros [H0 H1]. unfold in_bounds.
  apply andb_true_intro. split; [apply Z.leb_le | apply Z.ltb_lt]; assumption.
Qed.

Lemma arr_get_in_range (a : array) (i : Z) :
  0 <= i < Z.of_nat (List.length a) ->
  arr_get a i = Some (nth (Z.to_nat i) a 0%float).
Proof.
  intros H. unfold arr_get. rewrite in_bounds_true by assumption.
  apply nth_error_nth'. lia.
Qed.

Lemma arr_set_in_range (a : array) (i : Z) (v : float) :
  0 <= i < Z.of_nat (List.length a) ->
  arr_set a i v
  = Some (firstn (Z.to_nat i) a ++ v :: skipn (Datatypes.S (Z.to_nat i)) a).
Proof.
  intros H. unfold arr_set. rewrite in_bounds_true by assumption.
  apply list_set_in_range. lia.
Qed.

Lemma set_length {A} (l : list A) (n : nat) (v : A) :
  (n < List.length l)%nat ->
  List.length (firstn n l ++ v :: skipn (Datatypes.S n) l) = List.length l.
Proof.
  intros H. rewrite length_app, length_firstn. cbn [List.length].
  rewrite length_skipn. lia.
Qed.

Lemma size_wrap_small (z : Z) : 0 <= z <= Size.max -> Size.wrap z = z.
Proof.
  unfold Size.wrap, Size.max. intros H. apply Z.mod_small. lia.
Qed.

Lemma size_max_value : Size.max = 18446744073709551615.
Proof. reflexivity. Qed.

Lemma size_max_div8 : Size.max / 8 = 2305843009213693951.
Proof. reflexivity. Qed.

Lemma zrange_length (lo : Z) (n : nat) : List.length (zrange lo n) = n.
Proof. revert lo. induction n; intros; cbn; auto. Qed.

Lemma zrange_app (lo : Z) (n m : nat) :
  zrange lo (n + m) = zrange lo n ++ zrange (lo + Z.of_nat n) m.
Proof.
  revert lo. induction n as [|n IH]; intros lo.
  - cbn. now rewrite Z.add_0_r.
  - cbn [Nat.add zrange app]. rewrite IH. do 3 f_equal. lia.
Qed.

Lemma zrange_In (lo : Z) (n : nat) (k : Z) :
  In k (zrange lo n) <-> lo <= k < lo + Z.of_nat n.
Proof.
  revert lo. induction n as [|n IH]; intros lo.
  - cbn. lia.
  - cbn [zrange In]. rewrite IH. lia.
Qed.

Lemma zrange_nth (lo : Z) (n i : nat) (d : Z) :
  (i < n)%nat -> nth i (zrange lo n) d = lo + Z.of_nat i.
Proof.
  revert lo i. induction n as [|n IH]; intros lo i Hi; [lia|].
  destruct i as [|i]; cbn [zrange nth]; [lia|].
  rewrite IH by lia. lia.
Qed.

Lemma filter_all {A} (f : A -> bool) (l : list A) :
  (forall x, In x l -> f x = true) -> filter f l = l.
Proof.
  induction l as [|h t IH]; intros H; cbn; [reflexivity|].
  rewrite (H h) by (now left). f_equal. apply IH. intros; apply H; now right.
Qed.

Lemma filter_none {A} (f : A -> bool) (l : list A) :
  (forall x, In x l -> f x = false) -> filter f l = [].
Proof.
  induction l as [|h t IH]; intros H; cbn; [reflexivity|].
  rewrite (H h) by (now left). apply IH. intros; apply H; now right.
Qed.

(** Filtering the indices of an array by membership in a sub-interval
    yields that sub-interval. *)
Lemma filter_interval (f : Z -> bool) (n lo hi : Z) :
  0 <= lo -> lo <= hi + 1 -> hi < n ->
  (forall k, 0 <= k < n -> f k = true <-> lo <= k <= hi) ->
  filter f (indices n) = zrange lo (Z.to_nat (hi + 1 - lo)).
Proof.
  intros Hlo Hhi Hn Hf. unfold indices.
  replace (Z.to_nat n)
    with (Z.to_nat lo + (Z.to_nat (hi + 1 - lo) + Z.to_nat (n - hi - 1)))%nat
    by lia.
  rewrite !zrange_app, !filter_app.
  rewrite filter_none, filter_all, filter_none.
  - cbn. now rewrite app_nil_r, Z2Nat.id by lia.
  - intros k Hk. apply zrange_In in Hk.
    destruct (f k) eqn:E; [|reflexivity]. apply Hf in E; lia.
  - intros k Hk. apply zrange_In in Hk. apply Hf; lia.
  - intros k Hk. apply zrange_In in Hk.
    destruct (f k) eqn:E; [|reflexivity]. apply Hf in E; lia.
Qed.

(** A loop whose body stores a value computed from the index alone. *)
Lemma for_range_fill (n : nat) :
  forall (lo : Z) (body : Z -> option array -> C (option array))
         (g : Z -> float) (l : array),
    0 <= lo -> lo + Z.of_nat n <= Z.of_nat (List.length l) ->
    (forall i a, lo <= i < lo + Z.of_nat n ->
                 List.length a = List.length l ->
                 body i (Some a) = ptr_set (Some a) i (g i)) ->
    for_range n lo body (Some l)
    = Some (Some (firstn (Z.to_nat lo) l ++ map g (zrange lo n)
                    ++ skipn (Z.to_nat lo + n) l)).
Proof.
  induction n as [|n IH]; intros lo body g l Hlo Hhi Hbody.
  - cbn. now rewrite Nat.add_0_r, firstn_skipn.
  - cbn [for_range zrange map].
    rewrite Hbody by (auto; lia). cbn [ptr_set].
    rewrite arr_set_in_range by lia. cbn [bind ret].
    set (l1 := firstn (Z.to_nat lo) l ++ g lo :: skipn (Datatypes.S (Z.to_nat lo)) l).
    assert (Hlen1 : List.length l1 = List.length l)
      by (apply set_length; lia).
    rewrite (IH (lo + 1) body g l1); try lia.
    2:{ intros i a Hi Ha. apply Hbody; [lia|congruence]. }
    do 2 f_equal.
    assert (Hf : firstn (Z.to_nat (lo + 1)) l1 = firstn (Z.to_nat lo) l ++ [g lo]).
    { unfold l1. replace (Z.to_nat (lo + 1))
        with (List.length (firstn (Z.to_nat lo) l) + 1)%nat
        by (rewrite length_firstn; lia).
      rewrite firstn_app_2. reflexivity. }
    assert (Hs : skipn (Z.to_nat (lo + 1) + n) l1
                 = skipn (Z.to_nat lo + Datatypes.S n) l).
    { unfold l1. replace (Z.to_nat (lo + 1) + n)%nat
        with (List.length (firstn (Z.to_nat lo) l) + Datatypes.S n)%nat
        by (rewrite length_firstn; lia).
      rewrite skipn_app, skipn_all2 by lia.
      replace (List.length (firstn (Z.to_nat lo) l) + Datatypes.S n
               - List.length (firstn (Z.to_nat lo) l))%nat
        with (Datatypes.S n) by lia.
      rewrite app_nil_l, skipn_cons, skipn_skipn. f_equal. lia. }
    rewrite Hf, Hs, <- app_assoc. reflexivity.
Qed.

(** The same for a loop that writes the whole array. *)
Lemma for_lt_fill (body : Z -> option array -> C (option array))
    (g : Z -> float) (l : array) (n : Z) :
  n = Z.of_nat (List.length l) ->
  (forall i a, 0 <= i < n -> List.length a = List.length l ->
               body i (Some a) = ptr_set (Some a) i (g i)) ->
  for_lt 0 n body (Some l) = Some (Some (map g (indices n))).
Proof.
  intros Hn Hbody. unfold for_lt, indices. rewrite Z.sub_0_r.
  rewrite (for_range_fill (Z.to_nat n) 0 body g l); try lia.
  - cbn [Z.to_nat firstn app]. rewrite skipn_all2 by (cbn; lia).
    now rewrite app_nil_r.
  - intros i a Hi Ha. apply Hbody; [lia|assumption].
Qed.

(** A loop that folds a value computed from the index into an accumulator. *)
Lemma for_range_fold {S} (n : nat) :
  forall (lo : Z) (body : Z -> S -> C S) (h : S -> Z -> S) (s : S),
    (forall i s, lo <= i < lo + Z.of_nat n -> body i s = Some (h s i)) ->
    for_range n lo body s = Some (fold_left h (zrange lo n) s).
Proof.
  induction n as [|n IH]; intros lo body h s Hbody; [reflexivity|].
  cbn [for_range zrange fold_left]. rewrite Hbody by lia. cbn [bind].
  apply IH. intros i s' Hi. apply Hbody. lia.
Qed.

Lemma fsum_fold (f : Z -> float) (l : list Z) (s : float) :
  fold_left (fun s k => (s + f k)%float) l s
  = fold_left PrimFloat.add (map f l) s.
Proof.
  revert s. induction l as [|k l IH]; intros s; cbn; [reflexivity|]. apply IH.
Qed.

Lemma valid_index_iff (l : list float) (i : Z) :
  valid_index l i = true <-> 0 <= i < Z.of_nat (List.length l).
Proof.
  unfold valid_index. rewrite andb_true_iff, Z.leb_le, Z.ltb_lt. tauto.
Qed.

Lemma ptr_get_sample (l : list float) (i : Z) :
  0 <= i < Z.of_nat (List.length l) -> ptr_get (Some l) i = Some (sample l i).
Proof. intros H. cbn [ptr_get]. now apply arr_get_in_range. Qed.

Lemma indices_length (n : Z) : List.length (indices n) = Z.to_nat n.
Proof. apply zrange_length. Qed.

(* ------------------------------------------------------------------ *)
(** ** The sliding window *)

Lemma window_init_wf (mem_ok : bool) (w0 : SeqOps.seq_window_t) (cap : Z)
    (w : SeqOps.seq_window_t) :
  0 <= cap ->
  SeqOps.seq_window_init mem_ok (Some w0) cap = (0, Some w) ->
  window_wf w /\ SeqOps.count w = 0 /\ SeqOps.capacity w = cap.
Proof.
  intros Hcap. unfold SeqOps.seq_window_init.
  destruct (Z.eqb_spec cap 0) as [->|Hnz]; [discriminate|].
  unfold calloc_doubles.
  destruct mem_ok; cbn [andb]; [|discriminate].
  destruct (Z.leb_spec cap (Size.max / 8)) as [Hle|Hgt]; [|discriminate].
  intros [= <-]. unfold window_wf. cbn [SeqOps.buf SeqOps.capacity SeqOps.start SeqOps.count].
  unfold zeros. rewrite repeat_length. repeat split; lia.
Qed.

Lemma window_push_wf (w : SeqOps.seq_window_t) (x : float) :
  window_wf w ->
  exists w', SeqOps.seq_window_push (Some w) x = Some (Some w') /\
             window_wf w' /\ SeqOps.capacity w' = SeqOps.capacity w.
Proof.
  intros [Hbuf Hcount]. unfold SeqOps.seq_window_push.
  destruct (SeqOps.buf w) as [l|] eqn:Eb.
  2:{ exists w. unfold window_wf. rewrite Eb. auto. }
  destruct Hbuf as (Hlen & Hcap & Hstart).
  destruct (Z.eqb_spec (SeqOps.capacity w) 0) as [E0|_]; [lia|].
  pose proof size_max_div8 as Hm8. pose proof size_max_value as Hm.
  destruct (Z.ltb_spec (SeqOps.count w) (SeqOps.capacity w)) as [Hlt|Hge];
    cbn [SeqOps.buf SeqOps.capacity SeqOps.start SeqOps.count ptr_set].
  - set (idx := Size.add (SeqOps.start w) (SeqOps.count w) mod SeqOps.capacity w).
    assert (Hidx : 0 <= idx < Z.of_nat (List.length l)).
    { rewrite Hlen. apply Z.mod_pos_bound. lia. }
    rewrite arr_set_in_range by assumption. cbn [bind ret].
    eexists. split; [reflexivity|]. split; [|reflexivity].
    unfold window_wf. cbn [SeqOps.buf SeqOps.capacity SeqOps.start SeqOps.count].
    rewrite set_length by lia.
    unfold Size.incr, Size.add. rewrite size_wrap_small by lia.
    repeat split; lia.
  - assert (Hidx : 0 <= SeqOps.start w < Z.of_nat (List.length l)) by lia.
    rewrite arr_set_in_range by assumption. cbn [bind ret].
    eexists. split; [reflexivity|]. split; [|reflexivity].
    unfold window_wf. cbn [SeqOps.buf SeqOps.capacity SeqOps.start SeqOps.count].
    rewrite set_length by lia.
    assert (0 <= Size.add (SeqOps.start w) 1 mod SeqOps.capacity w
            < SeqOps.capacity w) by (apply Z.mod_pos_bound; lia).
    repeat split; lia.
Qed.

Lemma window_get_in_range (w : SeqOps.seq_window_t) (i : Z) :
  window_wf w -> 0 <= i < SeqOps.count w ->
  exists l,
    SeqOps.buf w = Some l /\
    0 <= (SeqOps.start w + i) mod SeqOps.capacity w < Z.of_nat (List.length l) /\
    SeqOps.seq_window_get (Some w) i
    = Some (nth (Z.to_nat ((SeqOps.start w + i) mod SeqOps.capacity w)) l 0%float).
Proof.
  intros [Hbuf Hcount] Hi. unfold SeqOps.seq_window_get.
  destruct (SeqOps.buf w) as [l|] eqn:Eb; [|lia].
  destruct Hbuf as (Hlen & Hcap & Hstart).
  pose proof size_max_div8 as Hm8. pose proof size_max_value as Hm.
  exists l. split; [reflexivity|].
  assert (Hidx : 0 <= (SeqOps.start w + i) mod SeqOps.capacity w
                 < Z.of_nat (List.length l)).
  { rewrite Hlen. apply Z.mod_pos_bound. lia. }
  split; [assumption|].
  destruct (Z.eqb_spec (SeqOps.capacity w) 0) as [E0|_]; [lia|].
  destruct (Z.leb_spec (SeqOps.count w) i) as [Hle|_]; [lia|].
  unfold Size.add. rewrite size_wrap_small by lia.
  cbn [ptr_get]. apply arr_get_in_range. assumption.
Qed.

(** C10.  [seq_window_get] is total and never reads outside the buffer: it
    returns 0.0 for a null window, a null buffer, a zero capacity or an
    index [i >= count]; otherwise, on a window that satisfies the invariant
    which [seq_window_init] establishes and [seq_window_push] maintains
    (the buffer holds [capacity] doubles, [count <= capacity],
    [start < capacity]), it returns the sample at the physical index
    [(start + i) mod capacity], which lies inside the buffer. *)
Theorem seq_window_get_total :
  (forall i, SeqOps.seq_window_get None i = Some 0%float) /\
  (forall w i,
     SeqOps.buf w = None \/ SeqOps.capacity w = 0 \/ SeqOps.count w <= i ->
     SeqOps.seq_window_get (Some w) i = Some 0%float) /\
  (forall w i,
     window_wf w -> 0 <= i < SeqOps.count w ->
     exists l,
       SeqOps.buf w = Some l /\
       0 <= (SeqOps.start w + i) mod SeqOps.capacity w < Z.of_nat (List.length l) /\
       SeqOps.seq_window_get (Some w) i
       = Some (nth (Z.to_nat ((SeqOps.start w + i) mod SeqOps.capacity w)) l 0%float)) /\
  (forall mem_ok w0 cap w,
     0 <= cap ->
     SeqOps.seq_window_init mem_ok (Some w0) cap = (0, Some w) -> window_wf w) /\
  (forall w x,
     window_wf w ->
     exists w', SeqOps.seq_window_push (Some w) x = Some (Some w') /\ window_wf w').
Proof.
  split; [reflexivity|]. split; [|split; [|split]].
  - intros w i H. unfold SeqOps.seq_window_get.
    destruct (SeqOps.buf w); [|reflexivity].
    destruct (Z.eqb_spec (SeqOps.capacity w) 0); [reflexivity|].
    destruct (Z.leb_spec (SeqOps.count w) i); [reflexivity|].
    destruct H as [H|[H|H]]; [discriminate|contradiction|lia].
  - exact window_get_in_range.
  - intros mem_ok w0 cap w Hcap Hinit.
    exact (proj1 (window_init_wf mem_ok w0 cap w Hcap Hinit)).
  - intros w x Hwf. destruct (window_push_wf w x Hwf) as (w' & Hp & Hw & _).
    exists w'. auto.
Qed.

Lemma seq_window_get_total_witness :
  let w := SeqOps.mk_window (Some [4; 2; 3]%float) 3 1 3 in
  SeqOps.seq_window_get (Some w) 5 = Some 0%float /\
  exists l,
    SeqOps.buf w = Some l /\
    0 <= (SeqOps.start w + 2) mod SeqOps.capacity w < Z.of_nat (List.length l) /\
    SeqOps.seq_window_get (Some w) 2
    = Some (nth (Z.to_nat ((SeqOps.start w + 2) mod SeqOps.capacity w)) l 0%float).
Proof.
  intro w. split.
  - apply (proj1 (proj2 seq_window_get_total) w 5). right. right. cbn. lia.
  - apply (proj1 (proj2 (proj2 seq_window_get_total)) w 2).
    + unfold window_wf. cbn. lia.
    + cbn. lia.
Defined.

(* ------------------------------------------------------------------ *)
(** ** Linear and circular convolution, cross-correlation *)

Lemma calloc_doubles_some (mem_ok : bool) (n : Z) :
  calloc_doubles mem_ok n <> None -> calloc_doubles mem_ok n = Some (zeros n).
Proof.
  unfold calloc_doubles. destruct (mem_ok && (n <=? Size.max / 8)); congruence.
Qed.

Lemma zeros_length (n : Z) : 0 <= n -> Z.of_nat (List.length (zeros n)) = n.
Proof. intros H. unfold zeros. rewrite repeat_length. lia. Qed.

Lemma seq3_data_nonempty (s : SeqOps.seq_t) :
  seq3_wf s -> 0 < SeqOps.length s ->
  SeqOps.data s = Some (seq3_samples s) /\
  Z.of_nat (List.length (seq3_samples s)) = SeqOps.length s.
Proof.
  intros [Hd Hb] Hpos. unfold seq3_samples.
  destruct (SeqOps.data s) as [l|]; [auto|lia].
Qed.

Ltac size_arith :=
  unfold Size.incr, Size.decr, Size.add, Size.sub, Size.mul;
  repeat match goal with
    | |- context [Size.wrap ?z] =>
        rewrite (size_wrap_small z) by (pose proof size_max_value; lia)
    end.

(** The inner loop of [seq_conv_linear] at the output index [n]. *)
Lemma conv_linear_inner (a b : list float) (n : Z) :
  let la := Z.of_nat (List.length a) in
  let lb := Z.of_nat (List.length b) in
  0 < la <= Size.max / 8 -> 0 < lb <= Size.max / 8 ->
  0 <= n < la + lb - 1 ->
  for_le (if Size.sub lb 1 <=? n then Size.sub n (Size.sub lb 1) else 0)
         (if n <? Size.sub la 1 then n else Size.sub la 1)
         (fun k s =>
            ak <- ptr_get (Some a) k ;;
            bj <- ptr_get (Some b) (Size.sub n k) ;;
            ret (s + ak * bj)%float)
         0%float
  = Some (conv_linear_at a b n).
Proof.
  intros la lb Hla Hlb Hn.
  pose proof size_max_div8 as Hm8. pose proof size_max_value as Hm.
  replace (Size.sub lb 1) with (lb - 1) by (size_arith; reflexivity).
  replace (Size.sub la 1) with (la - 1) by (size_arith; reflexivity).
  set (k_min := if lb - 1 <=? n then Size.sub n (lb - 1) else 0).
  set (k_max := if n <? la - 1 then n else la - 1).
  assert (Hmin : k_min = Z.max 0 (n - (lb - 1))).
  { unfold k_min. destruct (Z.leb_spec (lb - 1) n); [size_arith|]; lia. }
  assert (Hmax : k_max = Z.min n (la - 1)).
  { unfold k_max. destruct (Z.ltb_spec n (la - 1)); lia. }
  unfold for_le.
  rewrite (for_range_fold _ _ _
             (fun s k => (s + sample a k * sample b (n - k))%float)).
  - f_equal. unfold conv_linear_at. rewrite fsum_fold. unfold fsum.
    do 2 f_equal. symmetry. apply filter_interval; try lia.
    intros k Hk. rewrite andb_true_iff, !valid_index_iff. fold la lb. lia.
  - intros k s Hk.
    rewrite ptr_get_sample by (fold la; lia). cbn [bind].
    replace (Size.sub n k) with (n - k) by (size_arith; reflexivity).
    rewrite ptr_get_sample by (fold lb; lia). reflexivity.
Qed.

(** C4.  [seq_conv_linear] yields an empty output when either input is
    empty; otherwise, the output block being allocated, it succeeds with
    [len a + len b - 1] samples, [y[n]] being the sum of [a[k] * b[n-k]]
    over the [k] with both indices valid; and
    [conv-linear([1,2],[3,4]) = [3,10,8]]. *)
Theorem seq_conv_linear_correct :
  forall (mem_ok : bool) (a b out : SeqOps.seq_t),
    seq3_wf a -> seq3_wf b ->
    let la := SeqOps.length a in
    let lb := SeqOps.length b in
    (la = 0 \/ lb = 0 ->
     SeqOps.seq_conv_linear mem_ok (Some a) (Some b) (Some out)
     = Some (0, Some (SeqOps.mk_seq None 0))) /\
    (0 < la -> 0 < lb -> calloc_doubles mem_ok (la + lb - 1) <> None ->
     let y := conv_linear_spec (seq3_samples a) (seq3_samples b) in
     SeqOps.seq_conv_linear mem_ok (Some a) (Some b) (Some out)
     = Some (0, Some (SeqOps.mk_seq (Some y) (la + lb - 1))) /\
     Z.of_nat (List.length y) = la + lb - 1 /\
     forall n, 0 <= n < la + lb - 1 ->
               sample y n = conv_linear_at (seq3_samples a) (seq3_samples b) n) /\
    SeqOps.seq_conv_linear true
      (Some (SeqOps.mk_seq (Some [1; 2]%float) 2))
      (Some (SeqOps.mk_seq (Some [3; 4]%float) 2))
      (Some (SeqOps.mk_seq None 0))
    = Some (0, Some (SeqOps.mk_seq (Some [3; 10; 8]%float) 3)).
Proof.
  intros mem_ok a b out Ha Hb la lb.
  pose proof size_max_div8 as Hm8. pose proof size_max_value as Hm.
  split; [|split; [|reflexivity]].
  - intros Hempty. unfold SeqOps.seq_conv_linear.
    replace ((SeqOps.length a =? 0) || (SeqOps.length b =? 0)) with true.
    + reflexivity.
    + symmetry. apply orb_true_iff. rewrite !Z.eqb_eq. exact Hempty.
  - intros Hla Hlb Halloc y.
    destruct (seq3_data_nonempty a Ha Hla) as [Ea Elena].
    destruct (seq3_data_nonempty b Hb Hlb) as [Eb Elenb].
    destruct Ha as [_ Hba], Hb as [_ Hbb]. fold la in Hba. fold lb in Hbb.
    assert (Hy : Z.of_nat (List.length y) = la + lb - 1).
    { unfold y, conv_linear_spec. rewrite length_map, indices_length.
      rewrite Elena, Elenb. fold la lb. lia. }
    split; [|split; [exact Hy|]].
    + unfold SeqOps.seq_conv_linear.
      replace ((SeqOps.length a =? 0) || (SeqOps.length b =? 0)) with false
        by (symmetry; apply orb_false_iff; rewrite !Z.eqb_neq; fold la lb; lia).
      fold la lb.
      replace (Size.sub (Size.add la lb) 1) with (la + lb - 1)
        by (size_arith; reflexivity).
      unfold SeqOps.seq_init.
      destruct (Z.eqb_spec (la + lb - 1) 0) as [E0|_]; [lia|].
      rewrite (calloc_doubles_some _ _ Halloc).
      cbn [SeqOps.with_init SeqOps.data SeqOps.length].
      rewrite (for_lt_fill _ (conv_linear_at (seq3_samples a) (seq3_samples b))
                 (zeros (la + lb - 1))).
      * cbn [bind ret]. unfold y, conv_linear_spec.
        rewrite Elena, Elenb. reflexivity.
      * rewrite zeros_length; lia.
      * intros n p Hn Hp. rewrite Ea, Eb.
        unfold la, lb in *. rewrite <- Elena, <- Elenb in *.
        rewrite conv_linear_inner; [reflexivity|lia|lia|lia].
    + intros n Hn. unfold y, conv_linear_spec, sample.
      rewrite Elena, Elenb. fold la lb.
      erewrite nth_indep
        by (rewrite length_map, indices_length; lia).
      rewrite (map_nth (conv_linear_at _ _) _ 0). f_equal.
      unfold indices. rewrite zrange_nth by lia. lia.
Qed.

Lemma seq_conv_linear_correct_witness :
  let a := SeqOps.mk_seq (Some [1; 2; 3]%float) 3 in
  let b := SeqOps.mk_seq (Some [4; 5]%float) 2 in
  SeqOps.seq_conv_linear true (Some a) (Some b) (Some (SeqOps.mk_seq None 0))
  = Some (0, Some (SeqOps.mk_seq (Some [4; 13; 22; 15]%float) 4)).
Proof.
  intros a b.
  assert (Ha : seq3_wf a) by (unfold seq3_wf; cbn; lia).
  assert (Hb : seq3_wf b) by (unfold seq3_wf; cbn; lia).
  refine (proj1 (proj1 (proj2 (seq_conv_linear_correct true a b
                                  (SeqOps.mk_seq None 0) Ha Hb)) _ _ _)).
  - cbn; lia.
  - cbn; lia.
  - discriminate.
Defined.

(** The inner loop of [seq_conv_circular] at the output index [n]. *)
Lemma conv_circular_inner (a b : list float) (n : Z) :
  let N := Z.of_nat (List.length a) in
  Z.of_nat (List.length b) = N ->
  0 < N <= Size.max / 8 -> 0 <= n < N ->
  for_lt 0 N
    (fun k s =>
       ak <- ptr_get (Some a) k ;;
       bj <- ptr_get (Some b) (Size.sub (Size.add n N) k mod N) ;;
       ret (s + ak * bj)%float)
    0%float
  = Some (conv_circular_at a b n).
Proof.
  intros N Hb HN Hn.
  pose proof size_max_div8 as Hm8. pose proof size_max_value as Hm.
  unfold for_lt. rewrite Z.sub_0_r.
  rewrite (for_range_fold _ _ _
             (fun s k => (s + sample a k * sample b ((n - k) mod N))%float)).
  - unfold conv_circular_at. fold N. rewrite fsum_fold. reflexivity.
  - intros k s Hk.
    rewrite ptr_get_sample by (fold N; lia). cbn [bind].
    replace (Size.sub (Size.add n N) k mod N) with ((n - k) mod N).
    + rewrite ptr_get_sample; [reflexivity|].
      rewrite Hb. apply Z.mod_pos_bound. lia.
    + size_arith. replace (n + N - k) with (n - k + 1 * N) by lia.
      now rewrite Z_mod_plus_full.
Qed.

(** C5.  [seq_conv_circular] returns the error code -1, leaving [out] as
    it was, when the lengths differ or are zero; otherwise, the output block
    being allocated, it succeeds with [N] samples,
    [y[n] = sum_{k=0}^{N-1} a[k] * b[(n-k) mod N]].  Hence, allocation
    permitting, it fails if and only if the lengths differ or are zero. *)
Theorem seq_conv_circular_correct :
  forall (mem_ok : bool) (a b out : SeqOps.seq_t),
    seq3_wf a -> seq3_wf b ->
    let la := SeqOps.length a in
    let lb := SeqOps.length b in
    (la <> lb \/ la = 0 ->
     SeqOps.seq_conv_circular mem_ok (Some a) (Some b) (Some out)
     = Some (-1, Some out)) /\
    (la = lb -> 0 < la -> calloc_doubles mem_ok la <> None ->
     let y := conv_circular_spec (seq3_samples a) (seq3_samples b) in
     SeqOps.seq_conv_circular mem_ok (Some a) (Some b) (Some out)
     = Some (0, Some (SeqOps.mk_seq (Some y) la)) /\
     Z.of_nat (List.length y) = la /\
     forall n, 0 <= n < la ->
               sample y n = conv_circular_at (seq3_samples a) (seq3_samples b) n).
Proof.
  intros mem_ok a b out Ha Hb la lb.
  pose proof size_max_div8 as Hm8. pose proof size_max_value as Hm.
  split.
  - intros Hbad. unfold SeqOps.seq_conv_circular. fold la lb.
    destruct (Z.eqb_spec la 0) as [Ea0|Ea0]; [reflexivity|].
    destruct (Z.eqb_spec lb 0) as [Eb0|Eb0]; [reflexivity|].
    cbn [orb]. destruct (Z.eqb_spec la lb) as [E|E]; [lia|reflexivity].
  - intros Heq Hla Halloc y.
    assert (Hlb : 0 < SeqOps.length b) by (fold lb; lia).
    destruct (seq3_data_nonempty a Ha Hla) as [Ea Elena].
    destruct (seq3_data_nonempty b Hb Hlb) as [Eb Elenb].
    destruct Ha as [_ Hba], Hb as [_ Hbb].
    unfold la, lb in *.
    assert (Hy : Z.of_nat (List.length y) = SeqOps.length a).
    { unfold y, conv_circular_spec. rewrite length_map, indices_length. lia. }
    split; [|split; [exact Hy|]].
    + unfold SeqOps.seq_conv_circular.
      destruct (Z.eqb_spec (SeqOps.length a) 0) as [E0|_]; [lia|].
      destruct (Z.eqb_spec (SeqOps.length b) 0) as [E0|_]; [lia|].
      cbn [orb].
      destruct (Z.eqb_spec (SeqOps.length a) (SeqOps.length b)) as [_|E];
        [|lia].
      cbn [negb]. unfold SeqOps.seq_init.
      destruct (Z.eqb_spec (SeqOps.length a) 0) as [E0|_]; [lia|].
      rewrite (calloc_doubles_some _ _ Halloc).
      cbn [SeqOps.with_init SeqOps.data SeqOps.length].
      rewrite (for_lt_fill _ (conv_circular_at (seq3_samples a) (seq3_samples b))
                 (zeros (SeqOps.length a))).
      * cbn [bind ret]. unfold y, conv_circular_spec.
        rewrite Elena. reflexivity.
      * rewrite zeros_length; lia.
      * intros n p Hn Hp. rewrite Ea, Eb.
        rewrite <- Elena in *.
        rewrite conv_circular_inner; [reflexivity|lia|lia|lia].
    + intros n Hn. unfold y, conv_circular_spec, sample.
      rewrite Elena.
      erewrite nth_indep
        by (rewrite length_map, indices_length; lia).
      rewrite (map_nth (conv_circular_at _ _) _ 0). f_equal.
      unfold indices. rewrite zrange_nth by lia. lia.
Qed.

Lemma seq_conv_circular_correct_witness :
  let a := SeqOps.mk_seq (Some [1; 0; 0]%float) 3 in
  let b := SeqOps.mk_seq (Some [0; 1; 0]%float) 3 in
  SeqOps.seq_conv_circular true (Some a) (Some b) (Some (SeqOps.mk_seq None 0))
  = Some (0, Some (SeqOps.mk_seq (Some [0; 1; 0]%float) 3)).
Proof.
  intros a b.
  assert (Ha : seq3_wf a) by (unfold seq3_wf; cbn; lia).
  assert (Hb : seq3_wf b) by (unfold seq3_wf; cbn; lia).
  refine (proj1 (proj2 (seq_conv_circular_correct true a b
                          (SeqOps.mk_seq None 0) Ha Hb) _ _ _)).
  - reflexivity.
  - cbn; lia.
  - discriminate.
Defined.

Lemma long_wrap_small (z : Z) : - Long.half <= z < Long.half -> Long.wrap z = z.
Proof.
  unfold Long.wrap, Long.half, Size.modulus. intros H.
  rewrite Z.mod_small by lia. lia.
Qed.

Lemma long_half_value : Long.half = 9223372036854775808.
Proof. reflexivity. Qed.

Ltac long_arith :=
  unfold Long.of_size, Long.to_size, Long.add, Long.sub, Long.neg,
    Size.incr, Size.decr, Size.add, Size.sub, Size.mul;
  repeat match goal with
    | |- context [Size.wrap ?z] =>
        rewrite (size_wrap_small z) by (pose proof size_max_value; lia)
    | |- context [Long.wrap ?z] =>
        rewrite (long_wrap_small z) by (pose proof long_half_value; lia)
    end.

(** The bounds and the inner loop of [seq_corr_cross] at the output index
    [n], when [a] is not longer than [b]. *)
Lemma corr_cross_inner (a b : list float) (n : Z) :
  let la := Z.of_nat (List.length a) in
  let lb := Z.of_nat (List.length b) in
  0 < la <= Size.max / 8 -> 0 < lb <= Size.max / 8 -> la <= lb ->
  0 <= n < la + lb - 1 ->
  let lag := Long.sub (Long.of_size n) (Long.of_size (Size.sub lb 1)) in
  let k_start := if lag <? 0 then Long.to_size (Long.neg lag) else 0 in
  let k_end := Size.sub la 1 in
  let k_end :=
    if Long.of_size (Size.sub lb 1) <? Long.add (Long.of_size k_end) lag
    then
      let k_end := Long.to_size (Long.sub (Long.of_size (Size.sub lb 1)) lag) in
      if Long.of_size k_end <? 0 then 0 else k_end
    else k_end in
  (if k_start <=? k_end then
     for_le k_start k_end
       (fun k s =>
          let idx_y := Long.to_size (Long.add (Long.of_size k) lag) in
          ak <- ptr_get (Some a) k ;;
          by_ <- ptr_get (Some b) idx_y ;;
          ret (s + ak * by_)%float)
       0%float
   else ret 0%float)
  = Some (corr_cross_at a b n).
Proof.
  intros la lb Hla Hlb Hle Hn.
  pose proof size_max_div8 as Hm8. pose proof size_max_value as Hm.
  pose proof long_half_value as Hh.
  intros lag.
  assert (Hlag : lag = n - (lb - 1)) by (unfold lag; long_arith; reflexivity).
  clearbody lag. subst lag.
  intros k_start.
  assert (Hks : k_start = Z.max 0 (lb - 1 - n)).
  { unfold k_start. destruct (Z.ltb_spec (n - (lb - 1)) 0); [long_arith|]; lia. }
  clearbody k_start.
  intros k_end0 k_end.
  assert (Hke : k_end = Z.min (la - 1) (2 * (lb - 1) - n)).
  { unfold k_end, k_end0.
    replace (Long.of_size (Size.sub lb 1)) with (lb - 1)
      by (long_arith; reflexivity).
    replace (Long.add (Long.of_size (Size.sub la 1)) (n - (lb - 1)))
      with (la - 1 + (n - (lb - 1))) by (long_arith; reflexivity).
    replace (Long.to_size (Long.sub (lb - 1) (n - (lb - 1))))
      with (2 * (lb - 1) - n) by (long_arith; lia).
    replace (Long.of_size (2 * (lb - 1) - n)) with (2 * (lb - 1) - n)
      by (long_arith; reflexivity).
    replace (Size.sub la 1) with (la - 1) by (long_arith; reflexivity).
    destruct (Z.ltb_spec (lb - 1) (la - 1 + (n - (lb - 1)))); [|lia].
    destruct (Z.ltb_spec (2 * (lb - 1) - n) 0); lia. }
  clearbody k_end. clear k_end0.
  unfold corr_cross_at. fold la lb.
  destruct (Z.leb_spec k_start k_end) as [Hne|Hempty].
  - unfold for_le.
    rewrite (for_range_fold _ _ _
               (fun s k => (s + sample a k * sample b (k + (n - (lb - 1))))%float)).
    + f_equal. rewrite fsum_fold. unfold fsum. do 2 f_equal. symmetry.
      apply filter_interval; try lia.
      intros k Hk. rewrite andb_true_iff, !valid_index_iff. fold la lb. lia.
    + intros k s Hk.
      rewrite ptr_get_sample by (fold la; lia). cbn [bind].
      replace (Long.to_size (Long.add (Long.of_size k) (n - (lb - 1))))
        with (k + (n - (lb - 1))) by (long_arith; reflexivity).
      rewrite ptr_get_sample by (fold lb; lia). reflexivity.
  - rewrite filter_none; [reflexivity|].
    intros k Hk. apply zrange_In in Hk.
    apply andb_false_iff.
    destruct (valid_index b (k + (n - (lb - 1)))) eqn:E; [|now right].
    apply valid_index_iff in E. fold lb in E. lia.
Qed.

(** Past the end of [b]: with [a] longer than [b] the clamp of [k_end] to
    0 lets the inner loop run at [k = 0] with [idx_y = lag > len b - 1]. *)
Example seq_corr_cross_reads_past_b :
  SeqOps.seq_corr_cross true
    (Some (SeqOps.mk_seq (Some [1; 2; 3]%float) 3))
    (Some (SeqOps.mk_seq (Some [5]%float) 1))
    (Some (SeqOps.mk_seq None 0))
  = None.
Proof. reflexivity. Qed.

(** C2, as the specification states it, fails on its own example. *)
Lemma seq_corr_cross_example_differs :
  SeqOps.seq_corr_cross true
    (Some (SeqOps.mk_seq (Some [1; 2; 3]%float) 3))
    (Some (SeqOps.mk_seq (Some [0; 1; 0]%float) 3))
    (Some (SeqOps.mk_seq None 0))
  = Some (0, Some (SeqOps.mk_seq (Some [0; 3; 2; 1; 0]%float) 5)) /\
  SeqOps.seq_corr_cross true
    (Some (SeqOps.mk_seq (Some [1; 2; 3]%float) 3))
    (Some (SeqOps.mk_seq (Some [0; 1; 0]%float) 3))
    (Some (SeqOps.mk_seq None 0))
  <> Some (0, Some (SeqOps.mk_seq (Some [0; 1; 2; 3; 0]%float) 5)).
Proof.
  split; [reflexivity|].
  intros H. vm_compute in H.
  apply (f_equal (fun r => match r with
                           | Some (_, Some (SeqOps.mk_seq (Some (_ :: v :: _)) _)) =>
                               PrimFloat.eqb v 1
                           | _ => false
                           end)) in H.
  vm_compute in H. discriminate H.
Qed.

(** C2 (amended).  [seq_corr_cross] yields an empty output when either
    input is empty; when [a] is not longer than [b], the output block being
    allocated, it succeeds with [len a + len b - 1] samples, [y[n]] being
    the sum of [a[k] * b[k+lag]], [lag = n - (len b - 1)], over the [k] with
    both indices valid (0.0 for an empty sum), no read leaving [a] or [b];
    and [corr-cross([1,2,3],[0,1,0]) = [0,3,2,1,0]]. *)
Theorem seq_corr_cross_correct :
  forall (mem_ok : bool) (a b out : SeqOps.seq_t),
    seq3_wf a -> seq3_wf b ->
    let la := SeqOps.length a in
    let lb := SeqOps.length b in
    (la = 0 \/ lb = 0 ->
     SeqOps.seq_corr_cross mem_ok (Some a) (Some b) (Some out)
     = Some (0, Some (SeqOps.mk_seq None 0))) /\
    (0 < la -> la <= lb -> calloc_doubles mem_ok (la + lb - 1) <> None ->
     let y := corr_cross_spec (seq3_samples a) (seq3_samples b) in
     SeqOps.seq_corr_cross mem_ok (Some a) (Some b) (Some out)
     = Some (0, Some (SeqOps.mk_seq (Some y) (la + lb - 1))) /\
     Z.of_nat (List.length y) = la + lb - 1 /\
     forall n, 0 <= n < la + lb - 1 ->
               sample y n = corr_cross_at (seq3_samples a) (seq3_samples b) n) /\
    SeqOps.seq_corr_cross true
      (Some (SeqOps.mk_seq (Some [1; 2; 3]%float) 3))
      (Some (SeqOps.mk_seq (Some [0; 1; 0]%float) 3))
      (Some (SeqOps.mk_seq None 0))
    = Some (0, Some (SeqOps.mk_seq (Some [0; 3; 2; 1; 0]%float) 5)).
Proof.
  intros mem_ok a b out Ha Hb la lb.
  pose proof size_max_div8 as Hm8. pose proof size_max_value as Hm.
  split; [|split; [|reflexivity]].
  - intros Hempty. unfold SeqOps.seq_corr_cross.
    replace ((SeqOps.length a =? 0) || (SeqOps.length b =? 0)) with true.
    + reflexivity.
    + symmetry. apply orb_true_iff. rewrite !Z.eqb_eq. exact Hempty.
  - intros Hla Hle Halloc y.
    assert (Hlb : 0 < SeqOps.length b) by (fold lb; lia).
    destruct (seq3_data_nonempty a Ha Hla) as [Ea Elena].
    destruct (seq3_data_nonempty b Hb Hlb) as [Eb Elenb].
    destruct Ha as [_ Hba], Hb as [_ Hbb].
    unfold la, lb in *.
    assert (Hy : Z.of_nat (List.length y)
                 = SeqOps.length a + SeqOps.length b - 1).
    { unfold y, corr_cross_spec. rewrite length_map, indices_length. lia. }
    split; [|split; [exact Hy|]].
    + unfold SeqOps.seq_corr_cross.
      replace ((SeqOps.length a =? 0) || (SeqOps.length b =? 0)) with false
        by (symmetry; apply orb_false_iff; rewrite !Z.eqb_neq; lia).
      replace (Size.sub (Size.add (SeqOps.length a) (SeqOps.length b)) 1)
        with (SeqOps.length a + SeqOps.length b - 1)
        by (size_arith; reflexivity).
      unfold SeqOps.seq_init.
      destruct (Z.eqb_spec (SeqOps.length a + SeqOps.length b - 1) 0)
        as [E0|_]; [lia|].
      rewrite (calloc_doubles_some _ _ Halloc).
      cbn [SeqOps.with_init SeqOps.data SeqOps.length].
      rewrite (for_lt_fill _ (corr_cross_at (seq3_samples a) (seq3_samples b))
                 (zeros (SeqOps.length a + SeqOps.length b - 1))).
      * cbn [bind ret]. unfold y, corr_cross_spec.
        rewrite Elena, Elenb. reflexivity.
      * rewrite zeros_length; lia.
      * intros n p Hn Hp. rewrite Ea, Eb.
        rewrite <- Elena, <- Elenb in *.
        rewrite corr_cross_inner; [reflexivity|lia|lia|lia|lia].
    + intros n Hn. unfold y, corr_cross_spec, sample.
      rewrite Elena, Elenb.
      erewrite nth_indep
        by (rewrite length_map, indices_length; lia).
      rewrite (map_nth (corr_cross_at _ _) _ 0). f_equal.
      unfold indices. rewrite zrange_nth by lia. lia.
Qed.

Lemma seq_corr_cross_correct_witness :
  let a := SeqOps.mk_seq (Some [1; 2]%float) 2 in
  let b := SeqOps.mk_seq (Some [5; 6; 7; 8]%float) 4 in
  SeqOps.seq_corr_cross true (Some a) (Some b) (Some (SeqOps.mk_seq None 0))
  = Some (0, Some (SeqOps.mk_seq (Some [0; 0; 10; 17; 20]%float) 5)).
Proof.
  intros a b.
  assert (Ha : seq3_wf a) by (unfold seq3_wf; cbn; lia).
  assert (Hb : seq3_wf b) by (unfold seq3_wf; cbn; lia).
  refine (proj1 (proj1 (proj2 (seq_corr_cross_correct true a b
                                  (SeqOps.mk_seq None 0) Ha Hb)) _ _ _)).
  - cbn; lia.
  - cbn; lia.
  - discriminate.
Defined.

(* ------------------------------------------------------------------ *)
(** ** Windowed normalised correlation *)

Lemma sample_map_indices (f : Z -> float) (n i : Z) :
  0 <= i < n -> sample (map f (indices n)) i = f i.
Proof.
  intros Hi. unfold sample.
  rewrite (nth_indep _ 0%float (f 0))
    by (rewrite length_map, indices_length; lia).
  rewrite map_nth. unfold indices. rewrite zrange_nth by lia. f_equal. lia.
Qed.

Lemma map_sample_indices (l : list float) :
  map (sample l) (indices (Z.of_nat (List.length l))) = l.
Proof.
  apply nth_ext with (d := 0%float) (d' := 0%float).
  - rewrite length_map, indices_length. lia.
  - intros i Hi. rewrite length_map, indices_length in Hi.
    rewrite (nth_indep _ 0%float (sample l 0)) by
      (rewrite length_map, indices_length; lia).
    rewrite map_nth. unfold indices. rewrite zrange_nth by lia.
    unfold sample. f_equal. lia.
Qed.

Lemma window_logical_length (w : SeqOps.seq_window_t) :
  window_wf w -> Z.of_nat (List.length (window_logical w)) = SeqOps.count w.
Proof.
  intros [Hbuf Hcount]. unfold window_logical.
  destruct (SeqOps.buf w); [|cbn; lia].
  rewrite length_map, indices_length. lia.
Qed.

Lemma window_get_logical (w : SeqOps.seq_window_t) (i : Z) :
  window_wf w -> 0 <= i < SeqOps.count w ->
  SeqOps.seq_window_get (Some w) i = Some (sample (window_logical w) i).
Proof.
  intros Hwf Hi.
  destruct (window_get_in_range w i Hwf Hi) as (l & Eb & Hidx & Hget).
  rewrite Hget. f_equal. unfold window_logical. rewrite Eb.
  rewrite sample_map_indices by lia. reflexivity.
Qed.

Lemma most_recent_length (L : Z) (l : list float) :
  0 <= L <= Z.of_nat (List.length l) ->
  Z.of_nat (List.length (most_recent L l)) = L.
Proof. intros H. unfold most_recent. rewrite length_skipn. lia. Qed.

Lemma most_recent_sample (L : Z) (l : list float) (i : Z) :
  0 <= L <= Z.of_nat (List.length l) -> 0 <= i < L ->
  sample (most_recent L l) i = sample l (Z.of_nat (List.length l) - L + i).
Proof.
  intros HL Hi. unfold most_recent, sample. rewrite nth_skipn. f_equal. lia.
Qed.

Lemma fold_pair_sums (f g : Z -> float) (l : list Z) (a b : float) :
  fold_left (fun '(s1, s2) i => (s1 + f i, s2 + g i)%float) l (a, b)
  = (fold_left PrimFloat.add (map f l) a, fold_left PrimFloat.add (map g l) b).
Proof.
  revert a b. induction l as [|i l IH]; intros a b; cbn; [reflexivity|].
  apply IH.
Qed.

Lemma fold_triple_sums (f g h : Z -> float) (l : list Z) (a b c : float) :
  fold_left (fun '(s1, s2, s3) i => (s1 + f i, s2 + g i, s3 + h i)%float) l (a, b, c)
  = (fold_left PrimFloat.add (map f l) a,
     fold_left PrimFloat.add (map g l) b,
     fold_left PrimFloat.add (map h l) c).
Proof.
  revert a b c. induction l as [|i l IH]; intros a b c; cbn; [reflexivity|].
  apply IH.
Qed.

Lemma combine_map_same {A B D} (f : A -> B) (g : A -> D) (l : list A) :
  combine (map f l) (map g l) = map (fun x => (f x, g x)) l.
Proof. induction l as [|x l IH]; cbn; [reflexivity|]. now rewrite IH. Qed.

(** The two loops of [seq_corr_window_norm] over aligned samples [xs], [ys]
    of the same length [L]. *)
Lemma corr_window_loops (wa wb : option SeqOps.seq_window_t)
    (offset_a offset_b L : Z) (xs ys : list float) :
  Z.of_nat (List.length xs) = L -> Z.of_nat (List.length ys) = L ->
  (forall i, 0 <= i < L ->
     SeqOps.seq_window_get wa (Size.add offset_a i) = Some (sample xs i)) ->
  (forall i, 0 <= i < L ->
     SeqOps.seq_window_get wb (Size.add offset_b i) = Some (sample ys i)) ->
  for_lt 0 L
    (fun i '(sum_x, sum_y) =>
       xa <- SeqOps.seq_window_get wa (Size.add offset_a i) ;;
       yb <- SeqOps.seq_window_get wb (Size.add offset_b i) ;;
       ret (sum_x + xa, sum_y + yb)%float)
    (0, 0)%float
  = Some (fsum xs, fsum ys) /\
  forall mx my,
    for_lt 0 L
      (fun i '(num, sx2, sy2) =>
         xa <- SeqOps.seq_window_get wa (Size.add offset_a i) ;;
         yb <- SeqOps.seq_window_get wb (Size.add offset_b i) ;;
         let dx := (xa - mx)%float in
         let dy := (yb - my)%float in
         ret (num + dx * dy, sx2 + dx * dx, sy2 + dy * dy)%float)
      (0, 0, 0)%float
    = Some (fsum (map (fun p => (fst p * snd p)%float)
                    (combine (map (fun x => (x - mx)%float) xs)
                             (map (fun y => (y - my)%float) ys))),
            fsum (map (fun d => (d * d)%float) (map (fun x => (x - mx)%float) xs)),
            fsum (map (fun d => (d * d)%float) (map (fun y => (y - my)%float) ys))).
Proof.
  intros Hxs Hys Ha Hb.
  assert (Exs : map (sample xs) (indices L) = xs)
    by (rewrite <- Hxs; apply map_sample_indices).
  assert (Eys : map (sample ys) (indices L) = ys)
    by (rewrite <- Hys; apply map_sample_indices).
  unfold for_lt. rewrite Z.sub_0_r. split.
  - rewrite (for_range_fold _ _ _
               (fun '(s1, s2) i => (s1 + sample xs i, s2 + sample ys i)%float)).
    + fold (indices L). rewrite fold_pair_sums. unfold fsum.
      now rewrite Exs, Eys.
    + intros i [s1 s2] Hi. rewrite Ha, Hb by lia. reflexivity.
  - intros mx my.
    rewrite (for_range_fold _ _ _
               (fun '(s1, s2, s3) i =>
                  (s1 + (sample xs i - mx) * (sample ys i - my),
                   s2 + (sample xs i - mx) * (sample xs i - mx),
                   s3 + (sample ys i - my) * (sample ys i - my))%float)).
    + fold (indices L). rewrite fold_triple_sums. unfold fsum.
      rewrite <- Exs at 1 2. rewrite <- Eys at 1 2.
      rewrite !map_map, combine_map_same, map_map. reflexivity.
    + intros i [[s1 s2] s3] Hi. rewrite Ha, Hb by lia. reflexivity.
Qed.

(** C6, as the specification states it, fails: both windows hold the two
    samples 0 and 2^-300, neither is empty and both sums of squared
    deviations are positive, yet the call fails, the product of the two
    sums underflowing to a zero denominator. *)
Lemma seq_corr_window_norm_underflow :
  let w := SeqOps.mk_window (Some [0; 0x1p-300]%float) 2 0 2 in
  let xs := most_recent 2 (window_logical w) in
  SeqOps.seq_corr_window_norm (Some w) (Some w) (Some 0%float)
  = Some (-1, Some 0%float) /\
  SeqOps.count w <> 0 /\
  (0 <? sq_dev xs)%float = true /\
  (sq_dev xs =? 0)%float = false.
Proof.
  cbv zeta. split; [vm_compute; reflexivity|].
  split; [discriminate|].
  split; vm_compute; reflexivity.
Qed.

(** A constant window is not always caught either: the mean of three
    copies of the double nearest to 0.1 rounds away from it, the sum of
    squared deviations comes out positive, and the call succeeds. *)
Example seq_corr_window_norm_flat_window :
  let wa := SeqOps.mk_window
              (Some [0x1.999999999999ap-4; 0x1.999999999999ap-4;
                     0x1.999999999999ap-4]%float) 3 0 3 in
  let wb := SeqOps.mk_window (Some [1; 2; 3]%float) 3 0 3 in
  (0 <? sq_dev (most_recent 3 (window_logical wa)))%float = true /\
  SeqOps.seq_corr_window_norm (Some wa) (Some wb) (Some 7%float)
  = Some (0, Some 0%float).
Proof. cbv zeta. split; vm_compute; reflexivity. Qed.

(** C6 (amended).  On two windows that satisfy the window invariant,
    [seq_corr_window_norm] works on [L = min(count_a, count_b)] samples,
    each window contributing its [L] most recent entries.  The statement is
    about the windows in which every flat side has a computed sum of squared
    deviations that is not positive; a flat side whose rounded mean leaves a
    positive sum is left out.  On these windows the call fails (-1, [*out]
    untouched) exactly when a window is empty, or the sum of squared
    deviations of a side is not positive, or the denominator
    [sqrt(sum dx^2 * sum dy^2)] is zero; otherwise it returns 0 and stores
    [sum(dx*dy) / sqrt(sum dx^2 * sum dy^2)], the deviations being taken from
    each side's mean over its [L] entries.  In particular it fails whenever
    a side is flat. *)
Theorem seq_corr_window_norm_correct :
  forall (wa wb : SeqOps.seq_window_t) (out0 : float),
    window_wf wa -> window_wf wb ->
    let L := Z.min (SeqOps.count wa) (SeqOps.count wb) in
    let xs := most_recent L (window_logical wa) in
    let ys := most_recent L (window_logical wb) in
    (flat xs = true -> (sq_dev xs <=? 0)%float = true) ->
    (flat ys = true -> (sq_dev ys <=? 0)%float = true) ->
    SeqOps.seq_corr_window_norm (Some wa) (Some wb) (Some out0)
    = Some (if (SeqOps.count wa =? 0) || (SeqOps.count wb =? 0)
               || corr_undefined xs ys
            then (-1, Some out0)
            else (0, Some (pearson xs ys))) /\
    (flat xs = true \/ flat ys = true ->
     SeqOps.seq_corr_window_norm (Some wa) (Some wb) (Some out0)
     = Some (-1, Some out0)).
Proof.
  intros wa wb out0 Hwa Hwb L xs ys Hflat_x Hflat_y.
  assert (Hcall :
            SeqOps.seq_corr_window_norm (Some wa) (Some wb) (Some out0)
            = Some (if (SeqOps.count wa =? 0) || (SeqOps.count wb =? 0)
                       || corr_undefined xs ys
                    then (-1, Some out0)
                    else (0, Some (pearson xs ys)))).
  2:{ split; [exact Hcall|]. intros Hflat. rewrite Hcall.
      assert (Hu : corr_undefined xs ys = true).
      { unfold corr_undefined.
        destruct Hflat as [Hx | Hy];
          [rewrite (Hflat_x Hx) | rewrite (Hflat_y Hy), orb_true_r];
          reflexivity. }
      rewrite Hu, orb_true_r. reflexivity. }
  clear Hflat_x Hflat_y.
  pose proof size_max_div8 as Hm8. pose proof size_max_value as Hm.
  pose proof (window_logical_length wa Hwa) as Hlena.
  pose proof (window_logical_length wb Hwb) as Hlenb.
  pose proof Hwa as [Hbufa Hcounta].
  pose proof Hwb as [Hbufb Hcountb].
  unfold SeqOps.seq_corr_window_norm.
  destruct (SeqOps.buf wa) as [la_|] eqn:Eba.
  2:{ replace (SeqOps.count wa =? 0) with true
        by (symmetry; apply Z.eqb_eq; lia). reflexivity. }
  destruct (SeqOps.buf wb) as [lb_|] eqn:Ebb.
  2:{ replace (SeqOps.count wb =? 0) with true
        by (symmetry; apply Z.eqb_eq; lia).
      rewrite orb_true_r. reflexivity. }
  destruct Hbufa as (Hla_ & Hcapa & Hsta), Hbufb as (Hlb_ & Hcapb & Hstb).
  destruct (Z.eqb_spec (SeqOps.capacity wa) 0) as [E|_]; [lia|].
  destruct (Z.eqb_spec (SeqOps.capacity wb) 0) as [E|_]; [lia|].
  cbn [orb].
  destruct (Z.eqb_spec (SeqOps.count wa) 0) as [Eca|Eca]; [reflexivity|].
  destruct (Z.eqb_spec (SeqOps.count wb) 0) as [Ecb|Ecb]; [reflexivity|].
  cbn [orb].
  replace (if SeqOps.count wa <? SeqOps.count wb
           then SeqOps.count wa else SeqOps.count wb) with L
    by (unfold L; destruct (Z.ltb_spec (SeqOps.count wa) (SeqOps.count wb)); lia).
  assert (HL : 0 < L /\ L <= SeqOps.count wa /\ L <= SeqOps.count wb)
    by (unfold L; lia).
  destruct (Z.eqb_spec L 0) as [E|_]; [lia|].
  assert (Hxs : Z.of_nat (List.length xs) = L)
    by (apply most_recent_length; lia).
  assert (Hys : Z.of_nat (List.length ys) = L)
    by (apply most_recent_length; lia).
  set (offset_a := if L <? SeqOps.count wa then Size.sub (SeqOps.count wa) L else 0).
  set (offset_b := if L <? SeqOps.count wb then Size.sub (SeqOps.count wb) L else 0).
  assert (Hoa : offset_a = SeqOps.count wa - L).
  { unfold offset_a. destruct (Z.ltb_spec L (SeqOps.count wa)); [size_arith|]; lia. }
  assert (Hob : offset_b = SeqOps.count wb - L).
  { unfold offset_b. destruct (Z.ltb_spec L (SeqOps.count wb)); [size_arith|]; lia. }
  clearbody offset_a offset_b.
  assert (Ha : forall i, 0 <= i < L ->
             SeqOps.seq_window_get (Some wa) (Size.add offset_a i)
             = Some (sample xs i)).
  { intros i Hi. subst offset_a.
    replace (Size.add (SeqOps.count wa - L) i) with (SeqOps.count wa - L + i)
      by (size_arith; reflexivity).
    rewrite window_get_logical by (auto; lia).
    unfold xs. rewrite most_recent_sample by lia. now rewrite Hlena. }
  assert (Hb : forall i, 0 <= i < L ->
             SeqOps.seq_window_get (Some wb) (Size.add offset_b i)
             = Some (sample ys i)).
  { intros i Hi. subst offset_b.
    replace (Size.add (SeqOps.count wb - L) i) with (SeqOps.count wb - L + i)
      by (size_arith; reflexivity).
    rewrite window_get_logical by (auto; lia).
    unfold ys. rewrite most_recent_sample by lia. now rewrite Hlenb. }
  destruct (corr_window_loops (Some wa) (Some wb) offset_a offset_b L xs ys
              Hxs Hys Ha Hb) as [Hsum Hdev].
  rewrite Hsum. cbn [bind].
  rewrite Hdev. cbn [bind].
  assert (Emx : (fsum xs / Size.to_double L)%float = mean xs)
    by (unfold mean; now rewrite Hxs).
  assert (Emy : (fsum ys / Size.to_double L)%float = mean ys)
    by (unfold mean; now rewrite Hys).
  rewrite Emx, Emy.
  fold (deviations xs) (deviations ys).
  fold (sq_dev xs) (sq_dev ys) (cross_dev xs ys).
  unfold corr_undefined, pearson.
  destruct ((sq_dev xs <=? 0)%float || (sq_dev ys <=? 0)%float);
    [reflexivity|].
  cbn [orb].
  destruct (PrimFloat.sqrt (sq_dev xs * sq_dev ys) =? 0)%float; reflexivity.
Qed.

Lemma seq_corr_window_norm_correct_witness :
  let wa := SeqOps.mk_window (Some [4; 2; 3]%float) 3 1 3 in
  let wb := SeqOps.mk_window (Some [8; 4; 6]%float) 3 1 3 in
  let wc := SeqOps.mk_window (Some [2; 2; 2]%float) 3 0 3 in
  SeqOps.seq_corr_window_norm (Some wa) (Some wb) (Some 0%float)
  = Some (0, Some 1%float) /\
  SeqOps.seq_corr_window_norm (Some wc) (Some wb) (Some 0%float)
  = Some (-1, Some 0%float).
Proof.
  intros wa wb wc.
  assert (Ha : window_wf wa) by (unfold window_wf; cbn; lia).
  assert (Hb : window_wf wb) by (unfold window_wf; cbn; lia).
  assert (Hc : window_wf wc) by (unfold window_wf; cbn; lia).
  split.
  - refine (proj1 (seq_corr_window_norm_correct wa wb 0%float Ha Hb _ _)).
    + intros H. vm_compute in H. discriminate H.
    + intros H. vm_compute in H. discriminate H.
  - refine (proj2 (seq_corr_window_norm_correct wc wb 0%float Hc Hb _ _) _).
    + intros _. vm_compute. reflexivity.
    + intros H. vm_compute in H. discriminate H.
    + left. vm_compute. reflexivity.
Defined.

(* ------------------------------------------------------------------ *)
(** ** The batch operators *)

Lemma calloc_doubles_bound (mem_ok : bool) (n : Z) :
  calloc_doubles mem_ok n <> None -> n <= Size.max / 8.
Proof.
  unfold calloc_doubles. destruct mem_ok; cbn [andb]; [|congruence].
  destruct (Z.leb_spec n (Size.max / 8)); [auto|congruence].
Qed.

Lemma seq_samples_length (s : seq_t) :
  seq_wf s -> Z.of_nat (List.length (seq_samples s)) = length s.
Proof.
  intros [Hd Hb]. unfold seq_samples.
  destruct (data s) as [l|]; [auto|cbn; lia].
Qed.

Lemma seq_data_get (s : seq_t) (i : Z) :
  seq_wf s -> 0 <= i < length s ->
  ptr_get (data s) i = Some (sample (seq_samples s) i).
Proof.
  intros [Hd Hb] Hi. unfold seq_samples.
  destruct (data s) as [l|]; [|lia].
  apply ptr_get_sample. lia.
Qed.

Lemma seq_prepare_output_ok (mem_ok : bool) (dst : seq_t) (n : Z) :
  seq_wf dst -> 0 <= n -> calloc_doubles mem_ok n <> None ->
  exists d, seq_prepare_output mem_ok (Some dst) n = (SEQ_OK, Some d) /\
            length d = n /\ ptr_wf (data d) n.
Proof.
  intros [Hd Hb] Hn Halloc. unfold seq_prepare_output, seq_free, seq_alloc.
  assert (Hfresh :
            exists d,
              (if n =? 0 then (SEQ_OK, Some (mk_seq None 0))
               else match calloc_doubles mem_ok n with
                    | Some blk => (SEQ_OK, Some (mk_seq (Some blk) n))
                    | None => (SEQ_ERR_NOMEM, Some (mk_seq None 0))
                    end) = (SEQ_OK, Some d) /\
              length d = n /\ ptr_wf (data d) n).
  { destruct (Z.eqb_spec n 0) as [->|Hnz].
    - eexists. split; [reflexivity|]. cbn. auto.
    - rewrite (calloc_doubles_some _ _ Halloc).
      eexists. split; [reflexivity|]. cbn. split; [reflexivity|].
      apply zeros_length. lia. }
  destruct (data dst) as [l|] eqn:Ed; [|exact Hfresh].
  destruct (Z.eqb_spec (length dst) n) as [E|E]; cbn [negb]; [|exact Hfresh].
  exists dst. split; [reflexivity|]. split; [exact E|].
  rewrite Ed. cbn. lia.
Qed.

Lemma with_output_ok (mem_ok : bool) (dst : seq_t) (n : Z)
    (fill_data : option array -> C (option array)) (spec : list float) :
  seq_wf dst -> 0 <= n -> calloc_doubles mem_ok n <> None ->
  (forall p, ptr_wf p n ->
             exists p', fill_data p = Some p' /\ ptr_wf p' n /\
                        ptr_contents p' = spec) ->
  exists out,
    with_output mem_ok (Some dst) n fill_data = Some (SEQ_OK, Some out) /\
    seq_wf out /\ seq_samples out = spec /\ length out = n.
Proof.
  intros Hdst Hn Halloc Hfill.
  destruct (seq_prepare_output_ok mem_ok dst n Hdst Hn Halloc)
    as (d & Hprep & Hlen & Hptr).
  unfold with_output. rewrite Hprep.
  destruct (Hfill (data d) Hptr) as (p' & Hrun & Hwf' & Hcont).
  rewrite Hrun. cbn [bind ret].
  eexists. split; [reflexivity|].
  pose proof (calloc_doubles_bound _ _ Halloc) as Hbound.
  unfold seq_wf, seq_samples. cbn [data length].
  rewrite Hlen. repeat split; try lia.
  - destruct p'; cbn in Hwf'; lia.
  - exact Hcont.
Qed.

Lemma for_lt_fill_ptr (body : Z -> option array -> C (option array))
    (g : Z -> float) (p : option array) (n : Z) :
  ptr_wf p n -> 0 <= n ->
  (forall i a, 0 <= i < n -> Z.of_nat (List.length a) = n ->
               body i (Some a) = ptr_set (Some a) i (g i)) ->
  exists p', for_lt 0 n body p = Some p' /\ ptr_wf p' n /\
             ptr_contents p' = map g (indices n).
Proof.
  intros Hp Hn Hbody. destruct p as [l|]; cbn in Hp.
  - rewrite (for_lt_fill body g l n); [|lia|].
    + eexists. split; [reflexivity|]. cbn. split; [|reflexivity].
      rewrite length_map, indices_length. lia.
    + intros i a Hi Ha. apply Hbody; [assumption|lia].
  - subst n. exists None. cbn. auto.
Qed.

(** [seq_delay] computes [delay_spec]. *)
Lemma seq_delay_ok (mem_ok : bool) (src dst : seq_t) (d : Z) (fillv : float) :
  seq_wf src -> seq_wf dst -> 0 <= d <= Size.max ->
  calloc_doubles mem_ok (length src) <> None ->
  exists out,
    seq_delay mem_ok (Some src) d fillv (Some dst) = Some (SEQ_OK, Some out) /\
    seq_wf out /\ seq_samples out = delay_spec d fillv (seq_samples src) /\
    length out = length src.
Proof.
  intros Hsrc Hdst Hd Halloc.
  pose proof size_max_div8 as Hm8. pose proof size_max_value as Hm.
  pose proof Hsrc as [_ Hb].
  unfold seq_delay. apply with_output_ok; try assumption; try lia.
  intros p Hp. unfold delay_spec. rewrite (seq_samples_length src Hsrc).
  apply for_lt_fill_ptr; [assumption|lia|].
  intros i a Hi Ha.
  destruct (Z.ltb_spec i d) as [Hlt|Hge]; [reflexivity|].
  replace (Size.sub i d) with (i - d) by (size_arith; reflexivity).
  rewrite seq_data_get by (auto; lia). reflexivity.
Qed.

(** [seq_downsample] computes [downsample_spec]. *)
Lemma seq_downsample_ok (mem_ok : bool) (src dst : seq_t) (f : Z) :
  seq_wf src -> seq_wf dst -> 0 < f <= Size.max ->
  calloc_doubles mem_ok (length src / f) <> None ->
  exists out,
    seq_downsample mem_ok (Some src) f (Some dst) = Some (SEQ_OK, Some out) /\
    seq_wf out /\ seq_samples out = downsample_spec f (seq_samples src) /\
    length out = length src / f.
Proof.
  intros Hsrc Hdst Hf Halloc.
  pose proof size_max_div8 as Hm8. pose proof size_max_value as Hm.
  pose proof Hsrc as [_ Hb].
  unfold seq_downsample.
  destruct (Z.eqb_spec f 0) as [E|_]; [lia|].
  assert (Hq : 0 <= length src / f) by (apply Z.div_pos; lia).
  apply with_output_ok; try assumption.
  intros p Hp. unfold downsample_spec. rewrite (seq_samples_length src Hsrc).
  apply for_lt_fill_ptr; [assumption|lia|].
  intros i a Hi Ha.
  assert (Hif : 0 <= i * f < length src).
  { split; [nia|].
    pose proof (Z.mul_div_le (length src) f ltac:(lia)). nia. }
  replace (Size.mul i f) with (i * f) by (size_arith; reflexivity).
  rewrite seq_data_get by (auto; lia). reflexivity.
Qed.

(** [seq_diff] computes [diff_spec]. *)
Lemma seq_diff_ok (mem_ok : bool) (src dst : seq_t) :
  seq_wf src -> seq_wf dst ->
  calloc_doubles mem_ok (length src) <> None ->
  exists out,
    seq_diff mem_ok (Some src) (Some dst) = Some (SEQ_OK, Some out) /\
    seq_wf out /\ seq_samples out = diff_spec (seq_samples src) /\
    length out = length src.
Proof.
  intros Hsrc Hdst Halloc.
  pose proof size_max_div8 as Hm8. pose proof size_max_value as Hm.
  pose proof Hsrc as [_ Hb].
  unfold seq_diff. apply with_output_ok; try assumption; try lia.
  intros p Hp. unfold diff_spec. rewrite (seq_samples_length src Hsrc).
  set (g := fun i => if i =? 0 then sample (seq_samples src) 0
                     else (sample (seq_samples src) i
                           - sample (seq_samples src) (i - 1))%float).
  destruct (Z.eqb_spec (length src) 0) as [E0|Hnz].
  - rewrite E0. exists p. rewrite E0 in Hp.
    destruct p as [[|h t]|]; cbn in Hp |- *; try lia; auto.
  - destruct p as [l|]; cbn in Hp; [|lia].
    rewrite seq_data_get by (auto; lia). cbn [bind ptr_set].
    rewrite arr_set_in_range by lia. cbn [bind ret Z.to_nat firstn app].
    unfold for_lt.
    set (l1 := sample (seq_samples src) 0 :: skipn 1 l).
    assert (Hl1 : List.length l1 = List.length l).
    { unfold l1. cbn [List.length]. rewrite length_skipn. lia. }
    rewrite (for_range_fill (Z.to_nat (length src - 1)) 1 _ g l1); try lia.
    + eexists. split; [reflexivity|].
      assert (Hres : firstn (Z.to_nat 1) l1
                     ++ map g (zrange 1 (Z.to_nat (length src - 1)))
                     ++ skipn (Z.to_nat 1 + Z.to_nat (length src - 1)) l1
                     = map g (indices (length src))).
      { rewrite skipn_all2 by lia. rewrite app_nil_r.
        unfold indices.
        replace (Z.to_nat (length src))
          with (Datatypes.S (Z.to_nat (length src - 1))) by lia.
        reflexivity. }
      rewrite Hres. cbn [ptr_wf ptr_contents]. split; [|reflexivity].
      rewrite length_map, indices_length. lia.
    + intros i a Hi Ha.
      replace (Size.sub i 1) with (i - 1) by (size_arith; reflexivity).
      rewrite !seq_data_get by (auto; lia). cbn [bind].
      unfold g. destruct (Z.eqb_spec i 0); [lia|reflexivity].
Qed.

Lemma skipn_sample (xs : list float) (lo : nat) :
  (lo < List.length xs)%nat ->
  skipn lo xs = sample xs (Z.of_nat lo) :: skipn (Datatypes.S lo) xs.
Proof.
  revert lo. induction xs as [|x t IH]; intros lo Hlo; cbn in Hlo; [lia|].
  destruct lo as [|lo]; [reflexivity|].
  cbn [skipn]. rewrite IH by lia. unfold sample.
  rewrite !Nat2Z.id. reflexivity.
Qed.

Lemma set_firstn_succ (l : list float) (i : nat) (v : float) :
  (i < List.length l)%nat ->
  firstn (Datatypes.S i) (firstn i l ++ v :: skipn (Datatypes.S i) l)
  = firstn i l ++ [v].
Proof.
  intros Hi.
  replace (Datatypes.S i) with (List.length (firstn i l) + 1)%nat at 1
    by (rewrite length_firstn; lia).
  rewrite firstn_app_2. reflexivity.
Qed.

Lemma set_skipn_succ (l : list float) (i n : nat) (v : float) :
  (i < List.length l)%nat ->
  skipn (Datatypes.S i + n) (firstn i l ++ v :: skipn (Datatypes.S i) l)
  = skipn (i + Datatypes.S n) l.
Proof.
  intros Hi.
  replace (Datatypes.S i + n)%nat
    with (List.length (firstn i l) + Datatypes.S n)%nat
    by (rewrite length_firstn; lia).
  rewrite skipn_app, skipn_all2 by lia.
  replace (List.length (firstn i l) + Datatypes.S n
           - List.length (firstn i l))%nat with (Datatypes.S n) by lia.
  rewrite app_nil_l, skipn_cons, skipn_skipn. f_equal. lia.
Qed.

Lemma map_const_zrange (v : float) (lo : Z) (n : nat) :
  map (fun _ => v) (zrange lo n) = repeat v n.
Proof.
  revert lo. induction n as [|n IH]; intros lo; cbn; [reflexivity|].
  now rewrite IH.
Qed.

(** The running-sum loop of [seq_cumsum]. *)
Lemma cumsum_loop (xs : list float) (n : nat) :
  forall (lo : Z) (body : Z -> float * option array -> C (float * option array))
         (a : float) (l : array),
    0 <= lo -> lo + Z.of_nat n <= Z.of_nat (List.length l) ->
    lo + Z.of_nat n <= Z.of_nat (List.length xs) ->
    (forall i a l', lo <= i < lo + Z.of_nat n ->
                    List.length l' = List.length l ->
                    body i (a, Some l')
                    = (p' <- ptr_set (Some l') i (a + sample xs i)%float ;;
                       ret ((a + sample xs i)%float, p'))) ->
    exists a',
      for_range n lo body (a, Some l)
      = Some (a', Some (firstn (Z.to_nat lo) l
                          ++ cumsum_from a (firstn n (skipn (Z.to_nat lo) xs))
                          ++ skipn (Z.to_nat lo + n) l)).
Proof.
  induction n as [|n IH]; intros lo body a l Hlo Hhi Hxs Hbody.
  - exists a. cbn. now rewrite Nat.add_0_r, firstn_skipn.
  - cbn [for_range]. rewrite Hbody by (auto; lia). cbn [ptr_set].
    rewrite arr_set_in_range by lia. cbn [bind ret].
    set (a1 := (a + sample xs lo)%float).
    set (l1 := firstn (Z.to_nat lo) l ++ a1 :: skipn (Datatypes.S (Z.to_nat lo)) l).
    assert (Hlen1 : List.length l1 = List.length l) by (apply set_length; lia).
    destruct (IH (lo + 1) body a1 l1) as (a' & Hrun); try lia.
    { intros i a0 l' Hi Hl'. apply Hbody; [lia|congruence]. }
    exists a'. rewrite Hrun. do 3 f_equal.
    replace (Z.to_nat (lo + 1)) with (Datatypes.S (Z.to_nat lo)) by lia.
    unfold l1. rewrite set_firstn_succ, set_skipn_succ by lia.
    rewrite (skipn_sample xs (Z.to_nat lo)) by lia.
    rewrite Z2Nat.id by lia. cbn [firstn cumsum_from]. fold a1.
    rewrite <- app_assoc. reflexivity.
Qed.

(** [seq_cumsum] computes [cumsum_spec]. *)
Lemma seq_cumsum_ok (mem_ok : bool) (src dst : seq_t) :
  seq_wf src -> seq_wf dst ->
  calloc_doubles mem_ok (length src) <> None ->
  exists out,
    seq_cumsum mem_ok (Some src) (Some dst) = Some (SEQ_OK, Some out) /\
    seq_wf out /\ seq_samples out = cumsum_spec (seq_samples src) /\
    length out = length src.
Proof.
  intros Hsrc Hdst Halloc.
  pose proof size_max_div8 as Hm8. pose proof size_max_value as Hm.
  pose proof Hsrc as [_ Hb].
  pose proof (seq_samples_length src Hsrc) as Hlen.
  unfold seq_cumsum. apply with_output_ok; try assumption; try lia.
  intros p Hp. unfold for_lt. rewrite Z.sub_0_r.
  destruct p as [l|]; cbn in Hp.
  - match goal with
    | |- context [for_range _ _ ?b _] =>
        destruct (cumsum_loop (seq_samples src) (Z.to_nat (length src)) 0
                    b 0%float l) as (a' & Hrun); try lia
    end.
    { intros i a l' Hi Hl'. rewrite seq_data_get by (auto; lia). reflexivity. }
    rewrite Hrun. cbn [bind ret]. eexists. split; [reflexivity|].
    cbn [Z.to_nat firstn skipn app ptr_wf ptr_contents].
    rewrite skipn_all2 by lia. rewrite app_nil_r.
    rewrite firstn_all2 by lia. split; [|reflexivity].
    clear Hrun. unfold cumsum_spec.
    assert (Hcl : forall a xs, List.length (cumsum_from a xs) = List.length xs).
    { intros a xs. revert a. induction xs; intros; cbn; auto. }
    rewrite Hcl. lia.
  - rewrite Hp. cbn [Z.to_nat for_range bind ret].
    exists None. split; [reflexivity|]. split; [cbn; lia|].
    destruct (seq_samples src); [reflexivity|cbn in Hlen; lia].
Qed.

(** A loop that stores through a cursor advancing with the index. *)
Lemma for_range_cursor (n : nat) :
  forall (lo i0 : Z) (body : Z -> Z * option array -> C (Z * option array))
         (g : Z -> float) (l : array),
    0 <= i0 -> i0 + Z.of_nat n <= Z.of_nat (List.length l) ->
    i0 + Z.of_nat n <= Size.max ->
    (forall j i a, lo <= j < lo + Z.of_nat n -> i0 <= i < i0 + Z.of_nat n ->
                   List.length a = List.length l ->
                   body j (i, Some a)
                   = (p' <- ptr_set (Some a) i (g j) ;; ret (Size.incr i, p'))) ->
    for_range n lo body (i0, Some l)
    = Some (i0 + Z.of_nat n,
            Some (firstn (Z.to_nat i0) l ++ map g (zrange lo n)
                    ++ skipn (Z.to_nat i0 + n) l)).
Proof.
  induction n as [|n IH]; intros lo i0 body g l Hi0 Hhi Hmax Hbody.
  - cbn. now rewrite Nat.add_0_r, firstn_skipn, Z.add_0_r.
  - cbn [for_range zrange map]. rewrite Hbody by (auto; lia). cbn [ptr_set].
    rewrite arr_set_in_range by lia. cbn [bind ret].
    replace (Size.incr i0) with (i0 + 1) by (size_arith; reflexivity).
    set (l1 := firstn (Z.to_nat i0) l ++ g lo :: skipn (Datatypes.S (Z.to_nat i0)) l).
    assert (Hlen1 : List.length l1 = List.length l) by (apply set_length; lia).
    rewrite (IH (lo + 1) (i0 + 1) body g l1); try lia.
    2:{ intros j i a Hj Hi Ha. apply Hbody; [lia|lia|congruence]. }
    f_equal. f_equal; [lia|]. f_equal.
    replace (Z.to_nat (i0 + 1)) with (Datatypes.S (Z.to_nat i0)) by lia.
    unfold l1. rewrite set_firstn_succ, set_skipn_succ by lia.
    rewrite <- app_assoc. reflexivity.
Qed.

(** [seq_pad_front] computes [pad_front_spec]. *)
Lemma seq_pad_front_ok (mem_ok : bool) (src dst : seq_t) (z : Z) :
  seq_wf src -> seq_wf dst -> 0 <= z ->
  calloc_doubles mem_ok (length src + z) <> None ->
  exists out,
    seq_pad_front mem_ok (Some src) z (Some dst) = Some (SEQ_OK, Some out) /\
    seq_wf out /\ seq_samples out = pad_front_spec z (seq_samples src) /\
    length out = length src + z.
Proof.
  intros Hsrc Hdst Hz Halloc.
  pose proof size_max_div8 as Hm8. pose proof size_max_value as Hm.
  pose proof Hsrc as [_ Hb].
  pose proof (seq_samples_length src Hsrc) as Hlen.
  pose proof (calloc_doubles_bound _ _ Halloc) as Hbound.
  unfold seq_pad_front.
  replace (Size.add (length src) z) with (length src + z)
    by (size_arith; reflexivity).
  apply with_output_ok; try assumption; try lia.
  intros p Hp. unfold for_lt. rewrite !Z.sub_0_r. unfold pad_front_spec.
  destruct p as [l|]; cbn in Hp.
  - rewrite (for_range_cursor (Z.to_nat z) 0 0 _ (fun _ => 0%float) l);
      try lia.
    2:{ intros j i a Hj Hi Ha. reflexivity. }
    cbn [bind Z.to_nat firstn app Nat.add].
    rewrite map_const_zrange.
    set (l2 := repeat 0%float (Z.to_nat z) ++ skipn (Z.to_nat z) l).
    assert (Hl2 : List.length l2 = List.length l).
    { unfold l2. rewrite length_app, repeat_length, length_skipn. lia. }
    rewrite Z.add_0_l, Z2Nat.id by lia.
    rewrite (for_range_cursor (Z.to_nat (length src)) 0 z _
               (sample (seq_samples src)) l2); try lia.
    2:{ intros j i a Hj Hi Ha. rewrite seq_data_get by (auto; lia).
        reflexivity. }
    cbn [bind ret]. eexists. split; [reflexivity|].
    fold (indices (length src)). rewrite <- Hlen, map_sample_indices.
    rewrite skipn_all2 by lia. rewrite app_nil_r.
    assert (Hf : firstn (Z.to_nat z) l2 = repeat 0%float (Z.to_nat z)).
    { unfold l2. rewrite firstn_app, repeat_length, Nat.sub_diag.
      cbn [firstn]. rewrite app_nil_r. apply firstn_all2.
      rewrite repeat_length. lia. }
    rewrite Hf. cbn [ptr_wf ptr_contents]. split; [|reflexivity].
    rewrite length_app, repeat_length. lia.
  - assert (z = 0) by lia. assert (length src = 0) by lia. subst z.
    rewrite H0. cbn [Z.to_nat for_range bind ret].
    exists None. split; [reflexivity|]. split; [cbn; lia|].
    destruct (seq_samples src); [reflexivity|cbn in Hlen; lia].
Qed.

Lemma arr_set_app_head (pre rest : list float) (h v : float) :
  arr_set (pre ++ h :: rest) (Z.of_nat (List.length pre)) v
  = Some (pre ++ v :: rest).
Proof.
  rewrite arr_set_in_range by (rewrite length_app; cbn [List.length]; lia).
  rewrite Nat2Z.id. f_equal.
  rewrite firstn_app, Nat.sub_diag, firstn_all. cbn [firstn].
  rewrite app_nil_r. f_equal.
  replace (Datatypes.S (List.length pre)) with (List.length pre + 1)%nat by lia.
  rewrite skipn_app, skipn_all2 by lia.
  replace (List.length pre + 1 - List.length pre)%nat with 1%nat by lia.
  reflexivity.
Qed.

(** The strided loop of [seq_upsample] over an array of zeros. *)
Lemma upsample_loop (xs : list float) (f : Z) (k : nat) :
  0 < f ->
  forall (lo : Z) (body : Z -> option array -> C (option array))
         (pre : list float),
    0 <= lo -> Z.of_nat (List.length pre) = lo * f ->
    lo + Z.of_nat k <= Z.of_nat (List.length xs) ->
    (forall i a, lo <= i < lo + Z.of_nat k ->
                 body i (Some a) = ptr_set (Some a) (i * f) (sample xs i)) ->
    for_range k lo body (Some (pre ++ repeat 0%float (k * Z.to_nat f)))
    = Some (Some (pre ++ upsample_spec f (firstn k (skipn (Z.to_nat lo) xs)))).
Proof.
  intros Hf. induction k as [|k IH]; intros lo body pre Hlo Hpre Hxs Hbody.
  - reflexivity.
  - cbn [for_range]. rewrite Hbody by lia.
    replace (Datatypes.S k * Z.to_nat f)%nat
      with (Datatypes.S (Z.to_nat (f - 1)) + k * Z.to_nat f)%nat by lia.
    rewrite repeat_app. cbn [repeat app ptr_set].
    rewrite <- Hpre, arr_set_app_head. cbn [bind ret].
    replace (pre ++ sample xs lo
                 :: repeat 0%float (Z.to_nat (f - 1))
                 ++ repeat 0%float (k * Z.to_nat f))
      with ((pre ++ sample xs lo :: repeat 0%float (Z.to_nat (f - 1)))
              ++ repeat 0%float (k * Z.to_nat f))
      by (rewrite <- app_assoc; reflexivity).
    rewrite (IH (lo + 1)); try lia.
    + rewrite (skipn_sample xs (Z.to_nat lo)) by lia.
      rewrite Z2Nat.id by lia.
      replace (Z.to_nat (lo + 1)) with (Datatypes.S (Z.to_nat lo)) by lia.
      cbn [firstn]. unfold upsample_spec. cbn [flat_map].
      rewrite <- app_assoc. reflexivity.
    + rewrite length_app. cbn [List.length]. rewrite repeat_length. lia.
    + intros i a Hi. apply Hbody. lia.
Qed.

Lemma upsample_spec_length (f : Z) (xs : list float) :
  0 < f ->
  Z.of_nat (List.length (upsample_spec f xs)) = Z.of_nat (List.length xs) * f.
Proof.
  intros Hf. unfold upsample_spec.
  induction xs as [|x t IH]; [reflexivity|].
  cbn [flat_map]. rewrite length_app. cbn [List.length].
  rewrite repeat_length. lia.
Qed.

(** [seq_upsample] computes [upsample_spec]. *)
Lemma seq_upsample_ok (mem_ok : bool) (src dst : seq_t) (f : Z) :
  seq_wf src -> seq_wf dst -> 0 < f ->
  calloc_doubles mem_ok (length src * f) <> None ->
  exists out,
    seq_upsample mem_ok (Some src) f (Some dst) = Some (SEQ_OK, Some out) /\
    seq_wf out /\ seq_samples out = upsample_spec f (seq_samples src) /\
    length out = length src * f.
Proof.
  intros Hsrc Hdst Hf Halloc.
  pose proof size_max_div8 as Hm8. pose proof size_max_value as Hm.
  pose proof Hsrc as [_ Hb].
  pose proof (seq_samples_length src Hsrc) as Hlen.
  pose proof (calloc_doubles_bound _ _ Halloc) as Hbound.
  assert (Hprod : 0 <= length src * f) by nia.
  unfold seq_upsample.
  destruct (Z.eqb_spec f 0) as [E|_]; [lia|].
  replace (Size.mul (length src) f) with (length src * f)
    by (size_arith; reflexivity).
  apply with_output_ok; try assumption.
  intros p Hp.
  destruct (for_lt_fill_ptr (fun n p => ptr_set p n 0%float) (fun _ => 0%float)
              p (length src * f) Hp Hprod) as (p1 & Hrun1 & Hwf1 & Hc1).
  { intros i a Hi Ha. reflexivity. }
  rewrite Hrun1. cbn [bind].
  unfold indices in Hc1. rewrite map_const_zrange in Hc1.
  unfold for_lt. rewrite Z.sub_0_r.
  destruct p1 as [l1|]; cbn in Hwf1, Hc1.
  - subst l1.
    replace (Z.to_nat (length src * f))
      with (Z.to_nat (length src) * Z.to_nat f)%nat by nia.
    rewrite (upsample_loop (seq_samples src) f (Z.to_nat (length src)) Hf 0 _ []);
      try (cbn; lia).
    + cbn [Z.to_nat skipn app]. rewrite firstn_all2 by lia.
      eexists. split; [reflexivity|]. cbn [ptr_wf ptr_contents].
      split; [|reflexivity]. rewrite upsample_spec_length by lia. lia.
    + intros i a Hi.
      rewrite seq_data_get by (auto; lia). cbn [bind].
      assert (Hif : 0 <= i * f <= Size.max) by nia.
      replace (Size.mul i f) with (i * f) by (size_arith; reflexivity).
      reflexivity.
  - assert (Hz : length src = 0) by nia. rewrite Hz.
    cbn [Z.to_nat for_range ret]. exists None. split; [reflexivity|].
    split; [cbn; lia|].
    destruct (seq_samples src); [reflexivity|cbn in Hlen; lia].
Qed.

(* ------------------------------------------------------------------ *)
(** ** Round trips of the batch operators *)

Lemma sample_cons (a : float) (l : list float) (i : Z) :
  0 <= i -> sample (a :: l) (i + 1) = sample l i.
Proof.
  intros Hi. unfold sample.
  replace (Z.to_nat (i + 1)) with (Datatypes.S (Z.to_nat i)) by lia.
  reflexivity.
Qed.

Lemma map_zrange_succ {A} (f : Z -> A) (lo : Z) (n : nat) :
  map f (zrange (lo + 1) n) = map (fun i => f (i + 1)) (zrange lo n).
Proof.
  revert lo. induction n as [|n IH]; intros lo; cbn; [reflexivity|].
  now rewrite IH.
Qed.

Lemma diff_from_index (t : list float) :
  forall prev,
    map (fun i => (sample (prev :: t) (i + 1) - sample (prev :: t) i)%float)
      (zrange 0 (List.length t))
    = diff_from prev t.
Proof.
  induction t as [|y t IH]; intros prev; [reflexivity|].
  cbn [List.length zrange map diff_from]. f_equal.
  rewrite map_zrange_succ, <- (IH y).
  apply map_ext_in. intros i Hi. apply zrange_In in Hi.
  rewrite !sample_cons by lia. reflexivity.
Qed.

(** [diff_spec] by recursion on the sequence. *)
Lemma diff_spec_cons (x : float) (t : list float) :
  diff_spec (x :: t) = x :: diff_from x t.
Proof.
  unfold diff_spec, indices. rewrite Nat2Z.id.
  cbn [List.length zrange map]. f_equal.
  rewrite map_zrange_succ, <- diff_from_index.
  apply map_ext_in. intros i Hi. apply zrange_In in Hi.
  destruct (Z.eqb_spec (i + 1) 0) as [E|_]; [lia|].
  replace (i + 1 - 1) with i by lia. reflexivity.
Qed.

Lemma diff_cumsum_from (t : list float) :
  forall c, diff_from c (cumsum_from c t) = t <-> sums_exact c t.
Proof.
  induction t as [|x t IH]; intros c; cbn [cumsum_from diff_from sums_exact].
  - tauto.
  - split.
    + intros [= Hx Ht]. split; [exact Hx|]. apply IH. exact Ht.
    + intros [Hx Ht]. f_equal; [exact Hx|]. apply IH. exact Ht.
Qed.

Lemma cumsum_diff_from (t : list float) :
  forall p, cumsum_from p (diff_from p t) = t <-> diffs_exact p t.
Proof.
  induction t as [|x t IH]; intros p; cbn [cumsum_from diff_from diffs_exact].
  - tauto.
  - split.
    + intros [= Hx Ht]. split; [exact Hx|].
      apply IH. rewrite Hx in Ht. exact Ht.
    + intros [Hx Ht]. rewrite Hx. f_equal. apply IH. exact Ht.
Qed.

(** When the two round trips on lists give back the list. *)
Lemma diff_cumsum_spec_iff (xs : list float) :
  diff_spec (cumsum_spec xs) = xs <-> cumsum_diff_exact xs.
Proof.
  destruct xs as [|x t]; [cbn; tauto|].
  unfold cumsum_spec. cbn [cumsum_from cumsum_diff_exact].
  rewrite diff_spec_cons. split.
  - intros [= Hx Ht]. split; [exact Hx|]. apply diff_cumsum_from. exact Ht.
  - intros [Hx Ht]. f_equal; [exact Hx|]. apply diff_cumsum_from. exact Ht.
Qed.

Lemma cumsum_diff_spec_iff (xs : list float) :
  cumsum_spec (diff_spec xs) = xs <-> diff_cumsum_exact xs.
Proof.
  destruct xs as [|x t]; [cbn; tauto|].
  rewrite diff_spec_cons. unfold cumsum_spec.
  cbn [cumsum_from diff_cumsum_exact]. split.
  - intros [= Hx Ht]. split; [exact Hx|].
    apply cumsum_diff_from. rewrite Hx in Ht. exact Ht.
  - intros [Hx Ht]. rewrite Hx. f_equal. apply cumsum_diff_from. exact Ht.
Qed.

(** C7, as the specification states it, fails in binary64: on [1e16, 1]
    the running sum 1e16 + 1 rounds back to 1e16, and 1 - 1e16 rounds to
    -1e16, so both round trips return [1e16, 0]. *)
Lemma cumsum_diff_roundtrip_rounds :
  let x := mk_seq (Some [1e16; 1]%float) 2 in
  let e := mk_seq None 0 in
  (exists c,
     seq_cumsum true (Some x) (Some e) = Some (SEQ_OK, Some c) /\
     seq_diff true (Some c) (Some e)
     = Some (SEQ_OK, Some (mk_seq (Some [1e16; 0]%float) 2))) /\
  (exists d,
     seq_diff true (Some x) (Some e) = Some (SEQ_OK, Some d) /\
     seq_cumsum true (Some d) (Some e)
     = Some (SEQ_OK, Some (mk_seq (Some [1e16; 0]%float) 2))) /\
  (1 =? 0)%float = false.
Proof.
  cbv zeta. split; [|split].
  - exists (mk_seq (Some [1e16; 1e16]%float) 2). split; reflexivity.
  - exists (mk_seq (Some [1e16; -1e16]%float) 2). split; reflexivity.
  - reflexivity.
Qed.

(** C7 (amended).  [seq_cumsum] followed by [seq_diff], and [seq_diff]
    followed by [seq_cumsum], succeed on every sequence (the outputs being
    allocated) and return a sequence of the same length; the result is the
    input, element for element, exactly when no step rounds: the first
    sample survives [0.0 + x[0]], and each later sample survives being added
    to, and subtracted from, the running sum (respectively the previous
    sample). *)
Theorem cumsum_diff_roundtrip :
  forall (mem_ok : bool) (x mid dst : seq_t),
    seq_wf x -> seq_wf mid -> seq_wf dst ->
    calloc_doubles mem_ok (length x) <> None ->
    (exists c y,
       seq_cumsum mem_ok (Some x) (Some mid) = Some (SEQ_OK, Some c) /\
       seq_diff mem_ok (Some c) (Some dst) = Some (SEQ_OK, Some y) /\
       length y = length x /\
       (seq_samples y = seq_samples x <-> cumsum_diff_exact (seq_samples x))) /\
    (exists d y,
       seq_diff mem_ok (Some x) (Some mid) = Some (SEQ_OK, Some d) /\
       seq_cumsum mem_ok (Some d) (Some dst) = Some (SEQ_OK, Some y) /\
       length y = length x /\
       (seq_samples y = seq_samples x <-> diff_cumsum_exact (seq_samples x))).
Proof.
  intros mem_ok x mid dst Hx Hmid Hdst Halloc. split.
  - destruct (seq_cumsum_ok mem_ok x mid Hx Hmid Halloc)
      as (c & Hc & Hcwf & Hcs & Hcl).
    rewrite <- Hcl in Halloc.
    destruct (seq_diff_ok mem_ok c dst Hcwf Hdst Halloc)
      as (y & Hy & Hywf & Hys & Hyl).
    exists c, y. repeat split; try assumption; try congruence.
    + intros E. apply diff_cumsum_spec_iff. congruence.
    + intros E. rewrite Hys, Hcs. apply diff_cumsum_spec_iff. exact E.
  - destruct (seq_diff_ok mem_ok x mid Hx Hmid Halloc)
      as (d & Hd & Hdwf & Hds & Hdl).
    rewrite <- Hdl in Halloc.
    destruct (seq_cumsum_ok mem_ok d dst Hdwf Hdst Halloc)
      as (y & Hy & Hywf & Hys & Hyl).
    exists d, y. repeat split; try assumption; try congruence.
    + intros E. apply cumsum_diff_spec_iff. congruence.
    + intros E. rewrite Hys, Hds. apply cumsum_diff_spec_iff. exact E.
Qed.

Lemma cumsum_diff_roundtrip_witness :
  let x := mk_seq (Some [1; 2; 4]%float) 3 in
  let e := mk_seq None 0 in
  exists c y,
    seq_cumsum true (Some x) (Some e) = Some (SEQ_OK, Some c) /\
    seq_diff true (Some c) (Some e) = Some (SEQ_OK, Some y) /\
    seq_samples y = seq_samples x.
Proof.
  intros x e.
  assert (Hx : seq_wf x) by (unfold seq_wf; cbn; lia).
  assert (He : seq_wf e) by (unfold seq_wf; cbn; lia).
  assert (Ha : calloc_doubles true (length x) <> None) by discriminate.
  destruct (proj1 (cumsum_diff_roundtrip true x e e Hx He He Ha))
    as (c & y & Hc & Hy & _ & Hexact).
  exists c, y. split; [exact Hc|]. split; [exact Hy|].
  apply Hexact. cbn. repeat split; reflexivity.
Defined.

Lemma upsample_spec_sample (f : Z) (xs : list float) :
  0 < f ->
  forall i, 0 <= i < Z.of_nat (List.length xs) ->
            sample (upsample_spec f xs) (i * f) = sample xs i.
Proof.
  intros Hf. induction xs as [|x t IH]; intros i Hi; cbn in Hi; [lia|].
  unfold upsample_spec. cbn [flat_map]. fold (upsample_spec f t).
  destruct (Z.eq_dec i 0) as [->|Hnz]; [reflexivity|].
  replace i with (i - 1 + 1) at 2 by lia. rewrite sample_cons by lia.
  rewrite <- IH by lia.
  unfold sample.
  change (x :: repeat 0%float (Z.to_nat (f - 1)) ++ upsample_spec f t)
    with ((x :: repeat 0%float (Z.to_nat (f - 1))) ++ upsample_spec f t).
  rewrite app_nth2 by (cbn [List.length]; rewrite repeat_length; nia).
  f_equal. cbn [List.length]. rewrite repeat_length. nia.
Qed.

Lemma downsample_upsample_spec (f : Z) (xs : list float) :
  0 < f -> downsample_spec f (upsample_spec f xs) = xs.
Proof.
  intros Hf. unfold downsample_spec.
  rewrite upsample_spec_length, Z.div_mul by lia.
  rewrite <- (map_sample_indices xs) at 2.
  apply map_ext_in. intros i Hi. apply zrange_In in Hi.
  apply upsample_spec_sample; lia.
Qed.

(** C8, as the specification states it, fails for a factor that makes
    [length * factor] wrap: with two samples and [f = 2^63] the output
    length wraps to 0, nothing is allocated, and the first strided store
    goes through the null data pointer. *)
Lemma upsample_factor_overflow :
  let x := mk_seq (Some [1; 2]%float) 2 in
  let f := 2 ^ 63 in
  0 < f <= Size.max /\
  Size.mul (length x) f = 0 /\
  seq_upsample true (Some x) f (Some (mk_seq None 0)) = None.
Proof.
  cbv zeta. split; [vm_compute; split; [reflexivity|discriminate]|].
  split; vm_compute; reflexivity.
Qed.

(** C8 (amended).  For every sequence [x] and every factor [f > 0] for which
    the [len(x) * f] samples of the upsampled sequence can be allocated,
    [seq_upsample] followed by [seq_downsample], both with factor [f],
    succeeds and returns [x]: same length, same samples. *)
Theorem downsample_upsample_roundtrip :
  forall (mem_ok : bool) (x mid dst : seq_t) (f : Z),
    seq_wf x -> seq_wf mid -> seq_wf dst ->
    0 < f <= Size.max ->
    calloc_doubles mem_ok (length x * f) <> None ->
    exists u y,
      seq_upsample mem_ok (Some x) f (Some mid) = Some (SEQ_OK, Some u) /\
      seq_downsample mem_ok (Some u) f (Some dst) = Some (SEQ_OK, Some y) /\
      length y = length x /\
      seq_samples y = seq_samples x.
Proof.
  intros mem_ok x mid dst f Hx Hmid Hdst Hf Halloc.
  destruct (seq_upsample_ok mem_ok x mid f Hx Hmid) as
    (u & Hu & Huwf & Hus & Hul); [lia|assumption|].
  assert (Hdiv : length u / f = length x)
    by (rewrite Hul; apply Z.div_mul; lia).
  assert (Halloc2 : calloc_doubles mem_ok (length u / f) <> None).
  { rewrite Hdiv. pose proof (calloc_doubles_bound _ _ Halloc) as Hb.
    destruct Hx as [_ Hxb].
    unfold calloc_doubles in *. destruct mem_ok; cbn [andb] in *;
      [|congruence].
    destruct (Z.leb_spec (length x) (Size.max / 8)); [discriminate|nia]. }
  destruct (seq_downsample_ok mem_ok u dst f Huwf Hdst Hf Halloc2)
    as (y & Hy & Hywf & Hys & Hyl).
  exists u, y. repeat split; try assumption; try congruence.
  rewrite Hys, Hus. apply downsample_upsample_spec. lia.
Qed.

Lemma downsample_upsample_roundtrip_witness :
  let x := mk_seq (Some [1; 2; 4]%float) 3 in
  let e := mk_seq None 0 in
  exists u y,
    seq_upsample true (Some x) 3 (Some e) = Some (SEQ_OK, Some u) /\
    seq_downsample true (Some u) 3 (Some e) = Some (SEQ_OK, Some y) /\
    length y = length x /\
    seq_samples y = seq_samples x.
Proof.
  intros x e.
  assert (Hx : seq_wf x) by (unfold seq_wf; cbn; lia).
  assert (He : seq_wf e) by (unfold seq_wf; cbn; lia).
  refine (downsample_upsample_roundtrip true x e e 3 Hx He He _ _).
  - rewrite size_max_value. lia.
  - discriminate.
Defined.

(* ------------------------------------------------------------------ *)
(** ** Streaming against batch *)

(** Unfolding one call of [seq_stream_step]. *)
Ltac step_simpl :=
  cbn [ch_state ch_y ch_has_output ch_printed
       active op param_main param_aux fill buf buf_size buf_head counter
       remaining last has_last acc
       set_active set_op set_param_main set_fill set_buf set_buf_size
       set_buf_head set_counter set_remaining set_last set_has_last set_acc
       rc st_out y_out has_output_out print_y negb bind ret].

Ltac step_unfold := unfold call_step, seq_stream_step; step_simpl.

Lemma truthy_1 : truthy 1 = true.
Proof. reflexivity. Qed.

Lemma truthy_0 : truthy 0 = false.
Proof. reflexivity. Qed.

(** A flush loop on an idle stream stops at once, empty-handed. *)
Lemma flush_idle (fuel : nat) (c : channel) (s : seq_stream_t) :
  (0 < fuel)%nat -> ch_state c = Some s -> idle s ->
  exists c', flush_loop fuel c = Some (Running c') /\
             ch_state c' = Some s /\ ch_printed c' = ch_printed c.
Proof.
  intros Hfuel Hs [Hact Hop]. destruct fuel as [|fuel]; [lia|].
  destruct c as [st y ho pr]. cbn in Hs. subst st.
  cbn [flush_loop]. step_unfold. rewrite Hact, truthy_1, truthy_0. step_simpl.
  destruct (op s); try contradiction; step_simpl;
    try (destruct (Z.ltb_spec 0 (remaining s)); [lia|]; step_simpl);
    rewrite truthy_0; eexists; (split; [reflexivity|]); cbn; auto.
Qed.

(** A flush loop delivers the [r] pending zeros of pad-front or upsample. *)
Lemma flush_zeros (r : nat) :
  forall (fuel : nat) (c : channel) (s : seq_stream_t),
    (r < fuel)%nat -> ch_state c = Some s -> active s = 1 ->
    op s = SEQ_OP_PAD_FRONT \/ op s = SEQ_OP_UPSAMPLE ->
    remaining s = Z.of_nat r -> remaining s <= Size.max ->
    exists c', flush_loop fuel c = Some (Running c') /\
               ch_state c' = Some (set_remaining 0 s) /\
               ch_printed c' = ch_printed c ++ repeat 0%float r.
Proof.
  induction r as [|r IH]; intros fuel c s Hfuel Hs Hact Hop Hrem Hmax.
  - destruct (flush_idle fuel c s) as (c' & Hrun & Hst & Hpr); [lia|auto|..].
    { split; [exact Hact|]. destruct Hop as [-> | ->]; lia. }
    exists c'. split; [exact Hrun|]. split.
    + rewrite Hst. f_equal. destruct s; cbn in *. subst. reflexivity.
    + rewrite Hpr. cbn. now rewrite app_nil_r.
  - destruct fuel as [|fuel]; [lia|].
    destruct c as [st y ho pr]. cbn in Hs. subst st.
    cbn [flush_loop]. step_unfold. rewrite Hact, truthy_1, truthy_0. step_simpl.
    assert (Hstep : Size.decr (remaining s) = Z.of_nat r)
      by (size_arith; lia).
    destruct (IH fuel
                (mk_channel (Some (set_remaining (Z.of_nat r) s)) 0%float 1
                   (pr ++ [0%float]))
                (set_remaining (Z.of_nat r) s))
      as (c' & Hrun & Hst & Hpr);
      [lia | reflexivity | exact Hact | exact Hop | reflexivity
      | cbn [remaining set_remaining]; lia |].
    cbn in Hst, Hpr.
    exists c'.
    destruct Hop as [Hop | Hop]; rewrite Hop;
      (destruct (Z.ltb_spec 0 (remaining s)); [|lia]); step_simpl;
      rewrite truthy_1, Hstep; (split; [exact Hrun|]);
      (split; [rewrite Hst; reflexivity
              |rewrite Hpr, <- app_assoc; reflexivity]).
Qed.

(** [feed_all] follows an abstract machine that every single step with
    input follows. *)
Lemma feed_all_sim {A} (m : machine A) (R : A -> seq_stream_t -> Prop) :
  (forall a x c pr, chan_in (R a) pr c ->
     exists c1, call_step c 1 x = Some (SEQ_OK, c1) /\
                chan_in (R (m_next m a x)) (pr ++ m_out m a x) (after_print c1)) ->
  forall xs a c pr, chan_in (R a) pr c ->
    exists c', feed_all xs c = Some (Running c') /\
               chan_in (R (m_final m a xs)) (pr ++ m_run m a xs) c'.
Proof.
  intros Hstep. induction xs as [|x t IH]; intros a c pr Hc.
  - exists c. split; [reflexivity|]. cbn. now rewrite app_nil_r.
  - destruct (Hstep a x c pr Hc) as (c1 & Hcall & Hc1).
    cbn [feed_all]. rewrite Hcall. cbn [bind].
    destruct (IH (m_next m a x) (after_print c1) _ Hc1) as (c' & Hrun & Hc').
    exists c'. split; [exact Hrun|].
    cbn [m_final m_run]. now rewrite app_assoc.
Qed.

(** [token_loop] follows an abstract machine that every step with input,
    together with the flush loop after it, follows. *)
Lemma token_loop_sim {A} (m : machine A) (R : A -> seq_stream_t -> Prop)
    (fuel : nat) :
  (forall a x c pr, chan_in (R a) pr c ->
     exists c1 c3,
       call_step c 1 x = Some (SEQ_OK, c1) /\
       flush_loop fuel (after_print c1) = Some (Running c3) /\
       chan_in (R (m_next m a x)) (pr ++ m_out m a x) c3) ->
  forall xs a c pr, chan_in (R a) pr c ->
    exists c', token_loop fuel xs c = Some (Running c') /\
               chan_in (R (m_final m a xs)) (pr ++ m_run m a xs) c'.
Proof.
  intros Hstep. induction xs as [|x t IH]; intros a c pr Hc.
  - exists c. split; [reflexivity|]. cbn. now rewrite app_nil_r.
  - destruct (Hstep a x c pr Hc) as (c1 & c3 & Hcall & Hflush & Hc3).
    cbn [token_loop]. rewrite Hcall. cbn [bind].
    fold (after_print c1). rewrite Hflush. cbn [bind].
    destruct (IH (m_next m a x) c3 _ Hc3) as (c' & Hrun & Hc').
    exists c'. split; [exact Hrun|].
    cbn [m_final m_run]. now rewrite app_assoc.
Qed.

(** When the states of the machine are idle, the flush loop after a step
    changes nothing. *)
Lemma step_then_idle_flush {A} (m : machine A) (R : A -> seq_stream_t -> Prop)
    (fuel : nat) :
  (0 < fuel)%nat ->
  (forall a s, R a s -> idle s) ->
  (forall a x c pr, chan_in (R a) pr c ->
     exists c1, call_step c 1 x = Some (SEQ_OK, c1) /\
                chan_in (R (m_next m a x)) (pr ++ m_out m a x) (after_print c1)) ->
  forall a x c pr, chan_in (R a) pr c ->
    exists c1 c3,
      call_step c 1 x = Some (SEQ_OK, c1) /\
      flush_loop fuel (after_print c1) = Some (Running c3) /\
      chan_in (R (m_next m a x)) (pr ++ m_out m a x) c3.
Proof.
  intros Hfuel Hidle Hstep a x c pr Hc.
  destruct (Hstep a x c pr Hc) as (c1 & Hcall & (s1 & Hs1 & HR & Hpr)).
  destruct (flush_idle fuel (after_print c1) s1 Hfuel Hs1 (Hidle _ _ HR))
    as (c3 & Hflush & Hs3 & Hpr3).
  exists c1, c3. split; [exact Hcall|]. split; [exact Hflush|].
  exists s1. split; [exact Hs3|]. split; [exact HR|]. congruence.
Qed.

Ltac open_chan Hc c s :=
  let st := fresh "st" in let y := fresh "y" in
  let ho := fresh "ho" in let pr0 := fresh "pr0" in
  let Hs := fresh "Hs" in let HP := fresh "HP" in let Hpr := fresh "Hpr" in
  destruct c as [st y ho pr0]; destruct Hc as (s & Hs & HP & Hpr);
  cbn in Hs, Hpr; subst st pr0.

Lemma cumsum_step :
  forall a x c pr, chan_in (cumsum_state a) pr c ->
    exists c1, call_step c 1 x = Some (SEQ_OK, c1) /\
               chan_in (cumsum_state (m_next cumsum_machine a x))
                 (pr ++ m_out cumsum_machine a x) (after_print c1).
Proof.
  intros a x c pr Hc. open_chan Hc c s. destruct HP as (Hact & Hop & Hacc).
  step_unfold. rewrite Hact, Hop, truthy_1. step_simpl.
  eexists. split; [reflexivity|].
  unfold after_print. step_simpl. rewrite truthy_1. step_simpl.
  eexists. split; [reflexivity|]. rewrite Hacc. split; [|reflexivity].
  repeat split; assumption.
Qed.

Lemma diff_step :
  forall prev x c pr, chan_in (diff_state prev) pr c ->
    exists c1, call_step c 1 x = Some (SEQ_OK, c1) /\
               chan_in (diff_state (m_next diff_machine prev x))
                 (pr ++ m_out diff_machine prev x) (after_print c1).
Proof.
  intros prev x c pr Hc. open_chan Hc c s. destruct HP as (Hact & Hop & Hlast).
  step_unfold. rewrite Hact, Hop, truthy_1. step_simpl.
  destruct prev as [p|].
  - destruct Hlast as [Hhl Hl]. unfold truthy at 1.
    destruct (Z.eqb_spec (has_last s) 0) as [E|_]; [contradiction|].
    step_simpl. eexists. split; [reflexivity|].
    unfold after_print. step_simpl. rewrite truthy_1. step_simpl.
    eexists. split; [reflexivity|]. rewrite Hl. split; [|reflexivity].
    repeat split; assumption.
  - rewrite Hlast, truthy_0. step_simpl. eexists. split; [reflexivity|].
    unfold after_print. step_simpl. rewrite truthy_1. step_simpl.
    eexists. split; [reflexivity|]. split; [|reflexivity].
    repeat split; try assumption. cbn. discriminate.
Qed.

Lemma size_incr_wrap (c : Z) : Size.incr (Size.wrap c) = Size.wrap (c + 1).
Proof.
  unfold Size.incr, Size.add, Size.wrap.
  rewrite Z.add_mod_idemp_l by (unfold Size.modulus; lia). reflexivity.
Qed.

Lemma downsample_step (f : Z) :
  0 < f ->
  forall c0 x c pr, chan_in (downsample_state f c0) pr c ->
    exists c1, call_step c 1 x = Some (SEQ_OK, c1) /\
               chan_in (downsample_state f (m_next (downsample_machine f) c0 x))
                 (pr ++ m_out (downsample_machine f) c0 x) (after_print c1).
Proof.
  intros Hf c0 x c pr Hc. open_chan Hc c s.
  destruct HP as (Hact & Hop & Hpm & Hcnt).
  step_unfold. rewrite Hact, Hop, truthy_1. step_simpl.
  rewrite Hpm, Hcnt, size_incr_wrap.
  destruct (Z.eqb_spec f 0) as [E|_]; [lia|].
  cbn [m_out m_next downsample_machine].
  destruct (Size.wrap c0 mod f =? 0); step_simpl;
    (eexists; split; [reflexivity|]);
    unfold after_print; step_simpl;
    rewrite ?truthy_1, ?truthy_0; step_simpl;
    (eexists; split; [reflexivity|]);
    rewrite ?app_nil_r; (split; [|reflexivity]);
    repeat split; assumption.
Qed.

Lemma pad_front_step :
  forall (a : unit) x c pr, chan_in (pad_front_state 0) pr c ->
    exists c1, call_step c 1 x = Some (SEQ_OK, c1) /\
               chan_in (pad_front_state 0) (pr ++ m_out pass_machine a x)
                 (after_print c1).
Proof.
  intros a x c pr Hc. open_chan Hc c s. destruct HP as (Hact & Hop & Hrem).
  step_unfold. rewrite Hact, Hop, truthy_1. step_simpl.
  rewrite Hrem. cbn [Z.ltb Z.compare]. step_simpl.
  eexists. split; [reflexivity|].
  unfold after_print. step_simpl. rewrite truthy_1. step_simpl.
  eexists. split; [reflexivity|]. split; [|reflexivity].
  repeat split; assumption.
Qed.

Lemma upsample_step (f : Z) (fuel : nat) :
  0 < f <= Size.max -> (Z.to_nat (f - 1) < fuel)%nat ->
  forall (a : unit) x c pr, chan_in (upsample_state f 0) pr c ->
    exists c1 c3,
      call_step c 1 x = Some (SEQ_OK, c1) /\
      flush_loop fuel (after_print c1) = Some (Running c3) /\
      chan_in (upsample_state f 0) (pr ++ m_out (upsample_machine f) a x) c3.
Proof.
  intros Hf Hfuel a x c pr Hc. open_chan Hc c s.
  destruct HP as (Hact & Hop & Hpm & Hrem).
  step_unfold. rewrite Hact, Hop, truthy_1. step_simpl.
  rewrite Hrem. cbn [Z.ltb Z.compare]. step_simpl. rewrite Hpm.
  set (s1 := if 1 <? f then set_remaining (Size.sub f 1) s else s).
  assert (Hs1 : active s1 = 1 /\ op s1 = SEQ_OP_UPSAMPLE /\
                param_main s1 = f /\ remaining s1 = f - 1).
  { pose proof size_max_value as Hm. unfold s1.
    destruct (Z.ltb_spec 1 f); cbn [active op param_main remaining set_remaining].
    - repeat split; try assumption. size_arith. reflexivity.
    - repeat split; try assumption. lia. }
  destruct Hs1 as (Hact1 & Hop1 & Hpm1 & Hrem1).
  eexists. 
  destruct (flush_zeros (Z.to_nat (f - 1)) fuel
              (mk_channel (Some s1) x 1 (pr ++ [x])) s1)
    as (c3 & Hflush & Hst3 & Hpr3);
    [assumption | reflexivity | assumption | now right | lia | lia |].
  exists c3. split; [reflexivity|].
  unfold after_print. step_simpl. rewrite truthy_1. step_simpl.
  split; [exact Hflush|].
  exists (set_remaining 0 s1). split; [exact Hst3|]. split.
  - repeat split; cbn [active op param_main remaining set_remaining];
      assumption.
  - rewrite Hpr3. cbn [ch_printed m_out upsample_machine].
    rewrite <- app_assoc. reflexivity.
Qed.

Lemma ring_step (b : array) (h : Z) (x : float) :
  0 <= h < Z.of_nat (List.length b) ->
  exists b',
    arr_get b h = Some (hd 0%float (ring_queue b h)) /\
    arr_set b h x = Some b' /\
    List.length b' = List.length b /\
    ring_queue b' (if Z.of_nat (List.length b) <=? h + 1 then 0 else h + 1)
    = tl (ring_queue b h) ++ [x].
Proof.
  intros Hh.
  exists (firstn (Z.to_nat h) b ++ x :: skipn (Datatypes.S (Z.to_nat h)) b).
  assert (Hsk : skipn (Z.to_nat h) b
                = sample b h :: skipn (Datatypes.S (Z.to_nat h)) b).
  { rewrite (skipn_sample b (Z.to_nat h)) by lia. now rewrite Z2Nat.id by lia. }
  split; [|split; [|split]].
  - rewrite arr_get_in_range by assumption.
    unfold ring_queue. rewrite Hsk. reflexivity.
  - apply arr_set_in_range. assumption.
  - apply set_length. lia.
  - unfold ring_queue at 2. rewrite Hsk. cbn [app tl].
    destruct (Z.leb_spec (Z.of_nat (List.length b)) (h + 1)) as [Hwrap|Hnext];
      unfold ring_queue.
    + change (Z.to_nat 0) with 0%nat.
      rewrite skipn_O, firstn_O, app_nil_r.
      assert (Hnil : skipn (Datatypes.S (Z.to_nat h)) b = [])
        by (apply skipn_all2; lia).
      rewrite Hnil. reflexivity.
    + replace (Z.to_nat (h + 1)) with (Datatypes.S (Z.to_nat h)) by lia.
      rewrite set_firstn_succ by lia.
      pose proof (set_skipn_succ b (Z.to_nat h) 0 x ltac:(lia)) as Hs.
      rewrite Nat.add_0_r in Hs. rewrite Hs.
      replace (Z.to_nat h + 1)%nat with (Datatypes.S (Z.to_nat h)) by lia.
      now rewrite app_assoc.
Qed.

Lemma delay_step (d : Z) :
  0 < d ->
  forall q x c pr, chan_in (delay_state d q) pr c ->
    exists c1, call_step c 1 x = Some (SEQ_OK, c1) /\
               chan_in (delay_state d (m_next delay_machine q x))
                 (pr ++ m_out delay_machine q x) (after_print c1).
Proof.
  intros Hd q x c pr Hc. open_chan Hc c s.
  destruct HP as (Hact & Hop & Hpm & [Hz | (b & Hbuf & Hbs & Hlen & Hh & Hdmax & Hq)]);
    [lia|].
  pose proof size_max_value as Hm. pose proof size_max_div8 as Hm8.
  step_unfold. rewrite Hact, Hop, truthy_1. step_simpl.
  rewrite Hpm. destruct (Z.eqb_spec d 0) as [E|_]; [lia|].
  rewrite Hbuf. cbn [ptr_get ptr_set].
  destruct (ring_step b (buf_head s) x) as (b' & Hget & Hset & Hlen' & Hring);
    [lia|].
  rewrite Hget, Hset. step_simpl. rewrite Hbs.
  replace (Size.incr (buf_head s)) with (buf_head s + 1)
    by (size_arith; reflexivity).
  eexists. split; [reflexivity|].
  unfold after_print. step_simpl. rewrite truthy_1. step_simpl.
  eexists. split; [reflexivity|]. split.
  - split; [exact Hact|]. split; [exact Hop|]. split; [exact Hpm|].
    right. exists b'. step_simpl.
    rewrite Hlen in Hring.
    split; [reflexivity|]. split; [exact Hbs|]. split; [lia|].
    split; [destruct (Z.leb_spec d (buf_head s + 1)); lia|].
    split; [exact Hdmax|].
    rewrite Hring, Hq. reflexivity.
  - rewrite Hq. reflexivity.
Qed.

Lemma delay0_step :
  forall (a : unit) x c pr, chan_in (delay_state 0 []) pr c ->
    exists c1, call_step c 1 x = Some (SEQ_OK, c1) /\
               chan_in (delay_state 0 []) (pr ++ m_out pass_machine a x)
                 (after_print c1).
Proof.
  intros a x c pr Hc. open_chan Hc c s.
  destruct HP as (Hact & Hop & Hpm & Hd).
  step_unfold. rewrite Hact, Hop, truthy_1. step_simpl.
  rewrite Hpm. cbn [Z.eqb]. step_simpl.
  eexists. split; [reflexivity|].
  unfold after_print. step_simpl. rewrite truthy_1. step_simpl.
  eexists. split; [reflexivity|]. split; [|reflexivity].
  repeat split; assumption.
Qed.

(** What the machines put out. *)

Lemma pass_run (a : unit) (xs : list float) : m_run pass_machine a xs = xs.
Proof. induction xs as [|x t IH]; cbn; [reflexivity|]. now rewrite IH. Qed.

Lemma cumsum_run (xs : list float) :
  forall a, m_run cumsum_machine a xs = cumsum_from a xs.
Proof. induction xs as [|x t IH]; intros a; cbn; [reflexivity|]. now rewrite IH. Qed.

Lemma diff_run_from (xs : list float) :
  forall p, m_run diff_machine (Some p) xs = diff_from p xs.
Proof. induction xs as [|x t IH]; intros p; cbn; [reflexivity|]. now rewrite IH. Qed.

Lemma diff_run (xs : list float) : m_run diff_machine None xs = diff_spec xs.
Proof.
  destruct xs as [|x t]; [reflexivity|].
  rewrite diff_spec_cons. cbn. now rewrite diff_run_from.
Qed.

Lemma upsample_run (f : Z) (a : unit) (xs : list float) :
  m_run (upsample_machine f) a xs = upsample_spec f xs.
Proof.
  unfold upsample_spec. induction xs as [|x t IH]; cbn; [reflexivity|].
  now rewrite IH.
Qed.

Lemma delay_run (xs : list float) :
  forall q, q <> [] ->
            m_run delay_machine q xs = firstn (List.length xs) (q ++ xs).
Proof.
  induction xs as [|x t IH]; intros q Hq; [reflexivity|].
  destruct q as [|a q']; [contradiction|].
  cbn [m_run m_out m_next delay_machine hd tl List.length app firstn].
  f_equal. rewrite IH by (destruct q'; discriminate).
  now rewrite <- app_assoc.
Qed.

Lemma delay_spec_queue (d : Z) (fillv : float) (xs : list float) :
  0 <= d ->
  firstn (List.length xs) (repeat fillv (Z.to_nat d) ++ xs)
  = delay_spec d fillv xs.
Proof.
  intros Hd. unfold delay_spec.
  apply nth_ext with (d := 0%float) (d' := 0%float).
  - rewrite length_firstn, length_app, repeat_length, length_map,
      indices_length. lia.
  - intros i Hi.
    rewrite length_firstn, length_app, repeat_length in Hi.
    rewrite nth_firstn.
    destruct (Nat.ltb_spec i (List.length xs)) as [Hlt|Hge]; [|lia].
    pose proof (sample_map_indices
                  (fun i => if i <? d then fillv else sample xs (i - d))
                  (Z.of_nat (List.length xs)) (Z.of_nat i) ltac:(lia)) as Hs.
    unfold sample at 1 in Hs. rewrite Nat2Z.id in Hs. rewrite Hs.
    destruct (Z.ltb_spec (Z.of_nat i) d) as [Hid|Hid].
    + rewrite app_nth1 by (rewrite repeat_length; lia).
      apply nth_repeat_lt. lia.
    + rewrite app_nth2 by (rewrite repeat_length; lia).
      rewrite repeat_length. unfold sample. f_equal. lia.
Qed.

Lemma downsample_run (f : Z) (xs : list float) :
  forall c, 0 <= c -> c + Z.of_nat (List.length xs) <= Size.max ->
            m_run (downsample_machine f) c xs = downsample_from c f xs.
Proof.
  induction xs as [|x t IH]; intros c Hc Hmax; [reflexivity|].
  cbn [m_run m_out m_next downsample_machine downsample_from].
  cbn [List.length] in Hmax.
  rewrite size_wrap_small by lia. rewrite IH by lia.
  destruct (c mod f =? 0); reflexivity.
Qed.

Lemma downsample_skip (f : Z) (t rest : list float) :
  forall c,
    (forall j, 0 <= j < Z.of_nat (List.length t) -> (c + j) mod f <> 0) ->
    downsample_from c f (t ++ rest)
    = downsample_from (c + Z.of_nat (List.length t)) f rest.
Proof.
  induction t as [|y t IH]; intros c Hskip.
  - cbn. now rewrite Z.add_0_r.
  - cbn [app downsample_from].
    destruct (Z.eqb_spec (c mod f) 0) as [E|_].
    + exfalso. apply (Hskip 0); [cbn [List.length]; lia|].
      now rewrite Z.add_0_r.
    + rewrite IH.
      * f_equal. cbn [List.length]. lia.
      * intros j Hj. replace (c + 1 + j) with (c + (j + 1)) by lia.
        apply Hskip. cbn [List.length]. lia.
Qed.

Lemma sample_app_shift (block rest : list float) (i : Z) :
  0 <= i ->
  sample (block ++ rest) (Z.of_nat (List.length block) + i) = sample rest i.
Proof.
  intros Hi. unfold sample.
  replace (Z.to_nat (Z.of_nat (List.length block) + i))
    with (List.length block + Z.to_nat i)%nat by lia.
  apply app_nth2_plus.
Qed.

(** On a source whose length is a multiple of the factor, the stream and
    the batch operator select the same samples. *)
Lemma downsample_from_spec (f : Z) (k : nat) :
  0 < f ->
  forall (xs : list float) (c : Z),
    Z.of_nat (List.length xs) = Z.of_nat k * f -> c mod f = 0 ->
    downsample_from c f xs = downsample_spec f xs.
Proof.
  intros Hf. induction k as [|k IH]; intros xs c Hlen Hc.
  - destruct xs; [reflexivity|cbn in Hlen; lia].
  - assert (Hsplit : xs = firstn (Z.to_nat f) xs ++ skipn (Z.to_nat f) xs)
      by (symmetry; apply firstn_skipn).
    set (rest := skipn (Z.to_nat f) xs) in *.
    assert (Hrest : Z.of_nat (List.length rest) = Z.of_nat k * f)
      by (unfold rest; rewrite length_skipn; lia).
    assert (Hblock : List.length (firstn (Z.to_nat f) xs) = Z.to_nat f)
      by (rewrite length_firstn; lia).
    destruct (firstn (Z.to_nat f) xs) as [|x t] eqn:Eb;
      [cbn in Hblock; lia|].
    cbn [List.length] in Hblock.
    rewrite Hsplit. cbn [app downsample_from]. rewrite Hc. cbn [Z.eqb].
    rewrite downsample_skip.
    2:{ intros j Hj.
        replace (c + 1 + j) with (j + 1 + c) by lia.
        rewrite <- Z.add_mod_idemp_r, Hc, Z.add_0_r by lia.
        rewrite Z.mod_small by lia. lia. }
    rewrite (IH rest).
    2:{ exact Hrest. }
    2:{ replace (c + 1 + Z.of_nat (List.length t)) with (c + 1 * f) by lia.
        rewrite Z_mod_plus_full. exact Hc. }
    unfold downsample_spec.
    replace (Z.of_nat (List.length (x :: t ++ rest)) / f)
      with (Z.of_nat (Datatypes.S k)).
    2:{ apply Z.div_unique_exact; [lia|].
        cbn [List.length]. rewrite length_app. lia. }
    replace (Z.of_nat (List.length rest) / f) with (Z.of_nat k)
      by (apply Z.div_unique_exact; lia).
    unfold indices. rewrite !Nat2Z.id. cbn [zrange map]. f_equal.
    rewrite map_zrange_succ. apply map_ext_in. intros i Hi.
    apply zrange_In in Hi.
    change (x :: t ++ rest) with ((x :: t) ++ rest).
    replace ((i + 1) * f) with (Z.of_nat (List.length (x :: t)) + i * f)
      by (cbn [List.length]; lia).
    rewrite sample_app_shift by nia. reflexivity.
Qed.

(** The two drivers, once the stream is built and follows a machine. *)

Lemma cli_run_stream_sim {A} (m : machine A) (R : A -> seq_stream_t -> Prop)
    (fuel : nat) (o : seq_op_type) (pm : Z) (fillv : float)
    (xs pre : list float) (s0 : seq_stream_t) (a0 : A) :
  streaming_op o = true ->
  seq_stream_init true (Some reset_state) o pm 0 fillv = Some (SEQ_OK, Some s0) ->
  (exists c0, flush_loop fuel (mk_channel (Some s0) 0%float 0 [])
              = Some (Running c0) /\ chan_in (R a0) pre c0) ->
  (forall a x c pr, chan_in (R a) pr c ->
     exists c1 c3,
       call_step c 1 x = Some (SEQ_OK, c1) /\
       flush_loop fuel (after_print c1) = Some (Running c3) /\
       chan_in (R (m_next m a x)) (pr ++ m_out m a x) c3) ->
  cli_run_stream true fuel o pm fillv xs
  = Some (Some (0, pre ++ m_run m a0 xs)).
Proof.
  intros Hcap Hinit (c0 & Hflush & Hc0) Hstep.
  unfold cli_run_stream.
  replace (truthy (seq_online_capable o 1)) with true
    by (destruct o; try discriminate Hcap; reflexivity).
  cbn [negb]. rewrite Hinit. cbn [bind]. rewrite Hflush. cbn [bind].
  destruct (token_loop_sim m R fuel Hstep xs a0 c0 pre Hc0)
    as (c' & Hrun & (s' & _ & _ & Hpr)).
  rewrite Hrun. cbn [bind]. rewrite Hpr. reflexivity.
Qed.

Lemma feed_then_flush_sim {A} (m : machine A) (R : A -> seq_stream_t -> Prop)
    (fuel : nat) (o : seq_op_type) (pm : Z) (fillv : float)
    (xs : list float) (s0 : seq_stream_t) (a0 : A) :
  (0 < fuel)%nat ->
  seq_stream_init true (Some reset_state) o pm 0 fillv = Some (SEQ_OK, Some s0) ->
  R a0 s0 ->
  (forall a s, R a s -> idle s) ->
  (forall a x c pr, chan_in (R a) pr c ->
     exists c1, call_step c 1 x = Some (SEQ_OK, c1) /\
                chan_in (R (m_next m a x)) (pr ++ m_out m a x) (after_print c1)) ->
  feed_then_flush true fuel o pm fillv xs = Some (Some (SEQ_OK, m_run m a0 xs)).
Proof.
  intros Hfuel Hinit HR0 Hidle Hstep.
  unfold feed_then_flush. rewrite Hinit. cbn [bind].
  destruct (feed_all_sim m R Hstep xs a0 (mk_channel (Some s0) 0%float 0 []) [])
    as (c' & Hrun & (s' & Hs' & HR' & Hpr)).
  { exists s0. cbn. auto. }
  rewrite Hrun. cbn [bind].
  destruct (flush_idle fuel c' s' Hfuel Hs' (Hidle _ _ HR'))
    as (c'' & Hflush & _ & Hpr'').
  rewrite Hflush. cbn [bind]. rewrite Hpr'', Hpr. reflexivity.
Qed.

Lemma flush_start_idle (R : seq_stream_t -> Prop) (fuel : nat)
    (s0 : seq_stream_t) :
  (0 < fuel)%nat -> R s0 -> idle s0 ->
  exists c0, flush_loop fuel (mk_channel (Some s0) 0%float 0 [])
             = Some (Running c0) /\ chan_in R [] c0.
Proof.
  intros Hfuel HR Hidle.
  destruct (flush_idle fuel (mk_channel (Some s0) 0%float 0 []) s0 Hfuel
              eq_refl Hidle) as (c0 & Hflush & Hs & Hpr).
  exists c0. split; [exact Hflush|]. exists s0. auto.
Qed.

Lemma calloc_doubles_true (n : Z) :
  n <= Size.max / 8 -> calloc_doubles true n <> None.
Proof.
  intros H. unfold calloc_doubles. cbn [andb].
  destruct (Z.leb_spec n (Size.max / 8)); [discriminate|lia].
Qed.

(** The stream of each operator against its batch specification. *)

Lemma stream_cumsum (fuel : nat) (pm : Z) (fillv : float) (xs : list float) :
  (0 < fuel)%nat ->
  cli_run_stream true fuel SEQ_OP_CUMSUM pm fillv xs
  = Some (Some (0, cumsum_spec xs)) /\
  feed_then_flush true fuel SEQ_OP_CUMSUM pm fillv xs
  = Some (Some (SEQ_OK, cumsum_spec xs)).
Proof.
  intros Hfuel.
  assert (Hidle : forall a s, cumsum_state a s -> idle s).
  { intros a s (Hact & Hop & _). split; [exact Hact|]. now rewrite Hop. }
  assert (Hinit : exists s0,
             seq_stream_init true (Some reset_state) SEQ_OP_CUMSUM pm 0 fillv
             = Some (SEQ_OK, Some s0) /\ cumsum_state 0%float s0).
  { eexists. split; [reflexivity|]. repeat split. }
  destruct Hinit as (s0 & Hinit & HR0).
  unfold cumsum_spec. rewrite <- cumsum_run. split.
  - apply (cli_run_stream_sim cumsum_machine cumsum_state fuel SEQ_OP_CUMSUM pm fillv xs []
             s0 0%float eq_refl Hinit).
    + apply flush_start_idle; eauto.
    + apply step_then_idle_flush; auto using cumsum_step.
  - apply (feed_then_flush_sim cumsum_machine cumsum_state fuel SEQ_OP_CUMSUM pm fillv xs
             s0 0%float Hfuel Hinit HR0 Hidle cumsum_step).
Qed.

Lemma stream_diff (fuel : nat) (pm : Z) (fillv : float) (xs : list float) :
  (0 < fuel)%nat ->
  cli_run_stream true fuel SEQ_OP_DIFF pm fillv xs
  = Some (Some (0, diff_spec xs)) /\
  feed_then_flush true fuel SEQ_OP_DIFF pm fillv xs
  = Some (Some (SEQ_OK, diff_spec xs)).
Proof.
  intros Hfuel.
  assert (Hidle : forall a s, diff_state a s -> idle s).
  { intros a s (Hact & Hop & _). split; [exact Hact|]. now rewrite Hop. }
  assert (Hinit : exists s0,
             seq_stream_init true (Some reset_state) SEQ_OP_DIFF pm 0 fillv
             = Some (SEQ_OK, Some s0) /\ diff_state None s0).
  { eexists. split; [reflexivity|]. repeat split. }
  destruct Hinit as (s0 & Hinit & HR0).
  rewrite <- diff_run. split.
  - apply (cli_run_stream_sim diff_machine diff_state fuel SEQ_OP_DIFF pm fillv xs []
             s0 None eq_refl Hinit).
    + apply flush_start_idle; eauto.
    + apply step_then_idle_flush; auto using diff_step.
  - apply (feed_then_flush_sim diff_machine diff_state fuel SEQ_OP_DIFF pm fillv xs
             s0 None Hfuel Hinit HR0 Hidle diff_step).
Qed.

Lemma stream_downsample (fuel : nat) (f : Z) (fillv : float) (xs : list float) :
  (0 < fuel)%nat -> 0 < f <= Size.max ->
  Z.of_nat (List.length xs) <= Size.max ->
  Z.of_nat (List.length xs) mod f = 0 ->
  cli_run_stream true fuel SEQ_OP_DOWNSAMPLE f fillv xs
  = Some (Some (0, downsample_spec f xs)) /\
  feed_then_flush true fuel SEQ_OP_DOWNSAMPLE f fillv xs
  = Some (Some (SEQ_OK, downsample_spec f xs)).
Proof.
  intros Hfuel Hf Hlen Hdiv.
  assert (Hidle : forall a s, downsample_state f a s -> idle s).
  { intros a s (Hact & Hop & _). split; [exact Hact|]. now rewrite Hop. }
  assert (Hinit : exists s0,
             seq_stream_init true (Some reset_state) SEQ_OP_DOWNSAMPLE f 0 fillv
             = Some (SEQ_OK, Some s0) /\ downsample_state f 0 s0).
  { unfold seq_stream_init. cbn [seq_stream_reset].
    destruct (Z.eqb_spec f 0) as [E|_]; [lia|].
    eexists. split; [reflexivity|]. repeat split. }
  destruct Hinit as (s0 & Hinit & HR0).
  assert (Hspec : m_run (downsample_machine f) 0 xs = downsample_spec f xs).
  { rewrite downsample_run by lia.
    apply (downsample_from_spec f (Z.to_nat (Z.of_nat (List.length xs) / f)));
      [lia| |reflexivity].
    rewrite Z2Nat.id by (apply Z.div_pos; lia).
    pose proof (Z.div_mod (Z.of_nat (List.length xs)) f ltac:(lia)). lia. }
  rewrite <- Hspec. split.
  - apply (cli_run_stream_sim (downsample_machine f) (downsample_state f)
             fuel SEQ_OP_DOWNSAMPLE f fillv xs [] s0 0 eq_refl Hinit).
    + apply flush_start_idle; eauto.
    + apply step_then_idle_flush; auto using downsample_step.
      apply downsample_step. lia.
  - apply (feed_then_flush_sim (downsample_machine f) (downsample_state f)
             fuel SEQ_OP_DOWNSAMPLE f fillv xs s0 0 Hfuel Hinit HR0 Hidle).
    apply downsample_step. lia.
Qed.

Lemma stream_pad_front (fuel : nat) (z : Z) (fillv : float) (xs : list float) :
  0 <= z <= Size.max -> (Z.to_nat z < fuel)%nat ->
  cli_run_stream true fuel SEQ_OP_PAD_FRONT z fillv xs
  = Some (Some (0, pad_front_spec z xs)).
Proof.
  intros Hz Hfuel.
  assert (Hidle : forall (a : unit) s, pad_front_state 0 s -> idle s).
  { intros a s (Hact & Hop & Hrem). split; [exact Hact|].
    rewrite Hop. lia. }
  assert (Hinit : exists s0,
             seq_stream_init true (Some reset_state) SEQ_OP_PAD_FRONT z 0 fillv
             = Some (SEQ_OK, Some s0) /\ pad_front_state z s0).
  { eexists. split; [reflexivity|]. repeat split. }
  destruct Hinit as (s0 & Hinit & (Hact & Hop & Hrem)).
  unfold pad_front_spec. rewrite <- (pass_run tt xs) at 2.
  apply (cli_run_stream_sim pass_machine (fun _ => pad_front_state 0) fuel
           SEQ_OP_PAD_FRONT z fillv xs (repeat 0%float (Z.to_nat z)) s0 tt
           eq_refl Hinit).
  - destruct (flush_zeros (Z.to_nat z) fuel
                (mk_channel (Some s0) 0%float 0 []) s0)
      as (c0 & Hflush & Hst & Hpr);
      [assumption | reflexivity | assumption | now left | lia | lia |].
    exists c0. split; [exact Hflush|].
    exists (set_remaining 0 s0). split; [exact Hst|]. split; [|exact Hpr].
    repeat split; assumption.
  - apply (step_then_idle_flush pass_machine (fun _ => pad_front_state 0) fuel);
      [lia|exact Hidle|exact pad_front_step].
Qed.

Lemma stream_upsample (fuel : nat) (f : Z) (fillv : float) (xs : list float) :
  0 < f <= Size.max -> (Z.to_nat f <= fuel)%nat ->
  cli_run_stream true fuel SEQ_OP_UPSAMPLE f fillv xs
  = Some (Some (0, upsample_spec f xs)).
Proof.
  intros Hf Hfuel.
  assert (Hinit : exists s0,
             seq_stream_init true (Some reset_state) SEQ_OP_UPSAMPLE f 0 fillv
             = Some (SEQ_OK, Some s0) /\ upsample_state f 0 s0).
  { unfold seq_stream_init. cbn [seq_stream_reset].
    destruct (Z.eqb_spec f 0) as [E|_]; [lia|].
    eexists. split; [reflexivity|]. repeat split. }
  destruct Hinit as (s0 & Hinit & HR0).
  rewrite <- (upsample_run f tt xs).
  apply (cli_run_stream_sim (upsample_machine f) (fun _ => upsample_state f 0)
           fuel SEQ_OP_UPSAMPLE f fillv xs [] s0 tt eq_refl Hinit).
  - apply flush_start_idle; [lia|exact HR0|].
    destruct HR0 as (Hact & Hop & _ & Hrem). split; [exact Hact|].
    rewrite Hop. lia.
  - apply upsample_step; [exact Hf|lia].
Qed.

Lemma delay_init (d : Z) (fillv : float) :
  0 <= d <= Size.max / 8 ->
  exists s0,
    seq_stream_init true (Some reset_state) SEQ_OP_DELAY d 0 fillv
    = Some (SEQ_OK, Some s0) /\
    delay_state d (repeat fillv (Z.to_nat d)) s0.
Proof.
  intros Hd. pose proof size_max_value as Hm. pose proof size_max_div8 as Hm8.
  unfold seq_stream_init. cbn [seq_stream_reset].
  destruct (Z.eqb_spec d 0) as [->|Hnz].
  - eexists. split; [reflexivity|]. repeat split. now left.
  - unfold malloc_doubles.
    replace (Size.mul d 8 / 8) with d
      by (size_arith; symmetry; apply Z.div_mul; lia).
    step_simpl.
    rewrite (for_lt_fill _ (fun _ => fillv) (zeros d) d).
    + cbn [bind ret]. eexists. split; [reflexivity|].
      unfold indices. rewrite map_const_zrange.
      repeat split. right. exists (repeat fillv (Z.to_nat d)).
      step_simpl. rewrite repeat_length.
      repeat split; try lia.
      unfold ring_queue. change (Z.to_nat 0) with 0%nat.
      rewrite skipn_O, firstn_O. apply app_nil_r.
    + rewrite zeros_length; lia.
    + intros i a Hi Ha. reflexivity.
Qed.

Lemma stream_delay (fuel : nat) (d : Z) (fillv : float) (xs : list float) :
  (0 < fuel)%nat -> 0 <= d <= Size.max / 8 ->
  cli_run_stream true fuel SEQ_OP_DELAY d fillv xs
  = Some (Some (0, delay_spec d fillv xs)) /\
  feed_then_flush true fuel SEQ_OP_DELAY d fillv xs
  = Some (Some (SEQ_OK, delay_spec d fillv xs)).
Proof.
  intros Hfuel Hd.
  destruct (delay_init d fillv Hd) as (s0 & Hinit & HR0).
  assert (Hidle : forall q s, delay_state d q s -> idle s).
  { intros q s (Hact & Hop & _). split; [exact Hact|]. now rewrite Hop. }
  rewrite <- delay_spec_queue by lia.
  destruct (Z.eq_dec d 0) as [->|Hnz].
  - change (Z.to_nat 0) with 0%nat. cbn [repeat app].
    rewrite firstn_all. rewrite <- (pass_run tt xs) at 2 4. split.
    + apply (cli_run_stream_sim pass_machine (fun _ => delay_state 0 []) fuel
               SEQ_OP_DELAY 0 fillv xs [] s0 tt eq_refl Hinit).
      * apply flush_start_idle; [assumption|exact HR0|eauto].
      * apply (step_then_idle_flush pass_machine
                 (fun _ => delay_state 0 []) fuel);
          [assumption|intros _ s; apply Hidle|exact delay0_step].
    + apply (feed_then_flush_sim pass_machine (fun _ => delay_state 0 []) fuel
               SEQ_OP_DELAY 0 fillv xs s0 tt Hfuel Hinit HR0).
      * intros _ s. apply Hidle.
      * exact delay0_step.
  - assert (Hq : repeat fillv (Z.to_nat d) <> []).
    { destruct (Z.to_nat d) eqn:E; [lia|discriminate]. }
    rewrite <- (delay_run xs _ Hq). split.
    + apply (cli_run_stream_sim delay_machine (delay_state d) fuel
               SEQ_OP_DELAY d fillv xs [] s0 _ eq_refl Hinit).
      * apply flush_start_idle; [assumption|exact HR0|eauto].
      * apply step_then_idle_flush; [assumption|exact Hidle|].
        apply delay_step. lia.
    + apply (feed_then_flush_sim delay_machine (delay_state d) fuel
               SEQ_OP_DELAY d fillv xs s0 _ Hfuel Hinit HR0 Hidle).
      apply delay_step. lia.
Qed.

(** C1, as the specification states it, fails: a stream that still owes
    front-padding zeros refuses real input, so feeding [5] to a pad-front
    stream of one zero stops at the first step with [SEQ_ERR_STATE], while
    the batch operator returns [0, 5]. *)
Lemma feed_then_flush_rejects_input :
  seq_pad_front true (Some (mk_seq (Some [5]%float) 1)) 1 (Some (mk_seq None 0))
  = Some (SEQ_OK, Some (mk_seq (Some [0; 5]%float) 2)) /\
  forall fuel,
    feed_then_flush true fuel SEQ_OP_PAD_FRONT 1 0%float [5]%float
    = Some (Some (SEQ_ERR_STATE, [])).
Proof. split; [reflexivity|]. intros fuel. reflexivity. Qed.

(** The same happens to the second sample of an upsampling stream. *)
Example feed_then_flush_rejects_second_sample :
  forall fuel,
    feed_then_flush true fuel SEQ_OP_UPSAMPLE 2 0%float [1; 2]%float
    = Some (Some (SEQ_ERR_STATE, [1]%float)).
Proof. intros fuel. reflexivity. Qed.

(** Where the factor does not divide the length, the stream delivers the
    sample at the last multiple of the factor and [seq_downsample] drops
    it. *)
Example downsample_stream_keeps_last :
  seq_downsample true (Some (mk_seq (Some [1; 2; 3]%float) 3)) 2
    (Some (mk_seq None 0))
  = Some (SEQ_OK, Some (mk_seq (Some [1]%float) 1)) /\
  cli_run_stream true 1 SEQ_OP_DOWNSAMPLE 2 0%float [1; 2; 3]%float
  = Some (Some (0, [1; 3]%float)) /\
  feed_then_flush true 1 SEQ_OP_DOWNSAMPLE 2 0%float [1; 2; 3]%float
  = Some (Some (SEQ_OK, [1; 3]%float)).
Proof. repeat split; reflexivity. Qed.

(** A sample offered while zeros are pending is refused, whatever the
    state holds besides. *)
Lemma step_rejects_input_while_zeros_pending :
  forall (s : seq_stream_t) (has_input : Z) (x : float) (y : option float)
         (ho : Z),
    active s <> 0 ->
    op s = SEQ_OP_PAD_FRONT \/ op s = SEQ_OP_UPSAMPLE ->
    0 < remaining s -> has_input <> 0 ->
    seq_stream_step (Some s) has_input x y (Some ho)
    = Some (mk_step SEQ_ERR_STATE (Some s) y (Some 0)).
Proof.
  intros s has_input x y ho Hact Hop Hrem Hin.
  unfold seq_stream_step, truthy.
  destruct (Z.eqb_spec (active s) 0) as [E|_]; [contradiction|]. cbn [negb].
  destruct (Z.eqb_spec has_input 0) as [E|_]; [contradiction|]. cbn [negb].
  destruct (Z.ltb_spec 0 (remaining s)) as [_|Hle]; [|lia].
  destruct Hop as [-> | ->]; reflexivity.
Qed.

(** Feeding everything first fails at the first sample of a pad-front
    stream with zeros to deliver. *)
Lemma feed_then_flush_pad_front_rejected (mem_ok : bool) (fuel : nat) (z : Z)
    (fillv x : float) (xs : list float) :
  0 < z ->
  feed_then_flush mem_ok fuel SEQ_OP_PAD_FRONT z fillv (x :: xs)
  = Some (Some (SEQ_ERR_STATE, [])).
Proof.
  intros Hz. unfold feed_then_flush, seq_stream_init.
  cbn [seq_stream_reset bind ret feed_all]. unfold call_step.
  cbn [ch_state ch_y ch_has_output ch_printed].
  rewrite step_rejects_input_while_zeros_pending;
    [reflexivity|discriminate|now left|exact Hz|discriminate].
Qed.

(** For upsample it fails at the second sample: the first one leaves
    [f - 1] zeros pending. *)
Lemma feed_then_flush_upsample_rejected (mem_ok : bool) (fuel : nat) (f : Z)
    (fillv x1 x2 : float) (xs : list float) :
  1 < f <= Size.max ->
  feed_then_flush mem_ok fuel SEQ_OP_UPSAMPLE f fillv (x1 :: x2 :: xs)
  = Some (Some (SEQ_ERR_STATE, [x1])).
Proof.
  intros Hf. pose proof size_max_value as Hm.
  unfold feed_then_flush, seq_stream_init. cbn [seq_stream_reset].
  destruct (Z.eqb_spec f 0) as [E|_]; [lia|].
  cbn [bind ret feed_all]. step_unfold.
  cbn [truthy Z.eqb Z.ltb Z.compare negb].
  destruct (Z.ltb_spec 1 f) as [_|Hle]; [|lia].
  replace (Size.sub f 1) with (f - 1) by (size_arith; reflexivity).
  do 3 (step_simpl; rewrite ?truthy_1; cbn [app]).
  destruct (Z.ltb_spec 0 (f - 1)) as [_|Hle]; [|lia].
  reflexivity.
Qed.

(** C1 (amended).  For a streaming-capable operator with valid parameters
    and every source: the batch operator succeeds; the stream driven as
    [cli_run_stream] drives it (a flush loop before the first sample and
    after every sample, each run until a step has no output) ends with exit
    status 0 having put out exactly the samples of the batch result, in
    order; and for delay, downsample, diff and cumsum, feeding all samples
    and flushing afterwards does the same with no step returning an error.
    For downsample the factor is taken to divide the length of the source
    ([valid_params]).  A sample offered while pad-front or upsample zeros
    are pending is rejected with [SEQ_ERR_STATE], the state, [*y] and the
    output so far being left as they are: every such step is, and so
    feeding all samples first stops with that code at the first sample of a
    pad-front stream with a pad count above 0, and at the second sample of
    an upsample stream with a factor above 1. *)
Theorem stream_matches_batch :
  (forall (o : seq_op_type) (pm : Z) (fillv : float) (src dst : seq_t)
          (fuel : nat),
     streaming_op o = true ->
     seq_wf src -> seq_wf dst ->
     valid_params o pm (length src) ->
     (flush_bound o pm < fuel)%nat ->
     exists out,
       cli_apply_finite true o pm fillv (Some src) (Some dst)
       = Some (SEQ_OK, Some out) /\
       cli_run_stream true fuel o pm fillv (seq_samples src)
       = Some (Some (0, seq_samples out)) /\
       (flush_free o = true ->
        feed_then_flush true fuel o pm fillv (seq_samples src)
        = Some (Some (SEQ_OK, seq_samples out)))) /\
  (forall (s : seq_stream_t) (has_input : Z) (x : float) (y : option float)
          (ho : Z),
     active s <> 0 ->
     op s = SEQ_OP_PAD_FRONT \/ op s = SEQ_OP_UPSAMPLE ->
     0 < remaining s -> has_input <> 0 ->
     seq_stream_step (Some s) has_input x y (Some ho)
     = Some (mk_step SEQ_ERR_STATE (Some s) y (Some 0))) /\
  (forall (mem_ok : bool) (fuel : nat) (z : Z) (fillv x : float)
          (xs : list float),
     0 < z ->
     feed_then_flush mem_ok fuel SEQ_OP_PAD_FRONT z fillv (x :: xs)
     = Some (Some (SEQ_ERR_STATE, []))) /\
  (forall (mem_ok : bool) (fuel : nat) (f : Z) (fillv x1 x2 : float)
          (xs : list float),
     1 < f <= Size.max ->
     feed_then_flush mem_ok fuel SEQ_OP_UPSAMPLE f fillv (x1 :: x2 :: xs)
     = Some (Some (SEQ_ERR_STATE, [x1]))).
Proof.
  split; [|split; [exact step_rejects_input_while_zeros_pending|
                   split; [exact feed_then_flush_pad_front_rejected|
                           exact feed_then_flush_upsample_rejected]]].
  intros o pm fillv src dst fuel Hcap Hsrc Hdst Hvalid Hfuel.
  pose proof size_max_value as Hm. pose proof size_max_div8 as Hm8.
  pose proof Hsrc as [_ Hlen].
  pose proof (seq_samples_length src Hsrc) as Hsamples.
  destruct o; try discriminate Hcap;
    cbn [valid_params flush_bound cli_apply_finite flush_free] in *.
  - (* pad-front *)
    destruct Hvalid as [Hz Hsum].
    destruct (seq_pad_front_ok true src dst pm Hsrc Hdst Hz
                (calloc_doubles_true _ Hsum)) as (out & Hb & _ & Hs & _).
    exists out. split; [exact Hb|]. split; [|discriminate].
    rewrite Hs. apply stream_pad_front; lia.
  - (* delay *)
    destruct (seq_delay_ok true src dst pm fillv Hsrc Hdst ltac:(lia)
                (calloc_doubles_true (length src) ltac:(lia)))
      as (out & Hb & _ & Hs & _).
    exists out. split; [exact Hb|]. rewrite Hs.
    destruct (stream_delay fuel pm fillv (seq_samples src) Hfuel Hvalid)
      as [Hrun Hfeed].
    split; [exact Hrun|]. intros _. exact Hfeed.
  - (* upsample *)
    destruct Hvalid as [Hf Hprod].
    destruct (seq_upsample_ok true src dst pm Hsrc Hdst ltac:(lia)
                (calloc_doubles_true _ Hprod)) as (out & Hb & _ & Hs & _).
    exists out. split; [exact Hb|]. split; [|discriminate].
    rewrite Hs. apply stream_upsample; lia.
  - (* downsample *)
    destruct Hvalid as [Hf Hdiv].
    assert (Hq : length src / pm <= Size.max / 8).
    { pose proof (Z.div_le_upper_bound (length src) pm (length src)
                    ltac:(lia) ltac:(nia)). lia. }
    destruct (seq_downsample_ok true src dst pm Hsrc Hdst Hf
                (calloc_doubles_true _ Hq)) as (out & Hb & _ & Hs & _).
    exists out. split; [exact Hb|]. rewrite Hs.
    destruct (stream_downsample fuel pm fillv (seq_samples src) Hfuel Hf)
      as [Hrun Hfeed]; [lia|now rewrite Hsamples|].
    split; [exact Hrun|]. intros _. exact Hfeed.
  - (* diff *)
    destruct (seq_diff_ok true src dst Hsrc Hdst
                (calloc_doubles_true (length src) ltac:(lia)))
      as (out & Hb & _ & Hs & _).
    exists out. split; [exact Hb|]. rewrite Hs.
    destruct (stream_diff fuel pm fillv (seq_samples src) Hfuel)
      as [Hrun Hfeed].
    split; [exact Hrun|]. intros _. exact Hfeed.
  - (* cumsum *)
    destruct (seq_cumsum_ok true src dst Hsrc Hdst
                (calloc_doubles_true (length src) ltac:(lia)))
      as (out & Hb & _ & Hs & _).
    exists out. split; [exact Hb|]. rewrite Hs.
    destruct (stream_cumsum fuel pm fillv (seq_samples src) Hfuel)
      as [Hrun Hfeed].
    split; [exact Hrun|]. intros _. exact Hfeed.
Qed.

Lemma stream_matches_batch_witness :
  let src := mk_seq (Some [1; 2; 3]%float) 3 in
  let dst := mk_seq None 0 in
  (exists out,
     cli_apply_finite true SEQ_OP_UPSAMPLE 2 0%float (Some src) (Some dst)
     = Some (SEQ_OK, Some out) /\
     cli_run_stream true 5%nat SEQ_OP_UPSAMPLE 2 0%float (seq_samples src)
     = Some (Some (0, seq_samples out)) /\
     (flush_free SEQ_OP_UPSAMPLE = true ->
      feed_then_flush true 5%nat SEQ_OP_UPSAMPLE 2 0%float (seq_samples src)
      = Some (Some (SEQ_OK, seq_samples out)))) /\
  seq_stream_step
    (Some (set_active 1 (set_remaining 3 (set_op SEQ_OP_PAD_FRONT reset_state))))
    1 5%float (Some 7%float) (Some 1)
  = Some (mk_step SEQ_ERR_STATE
            (Some (set_active 1
                     (set_remaining 3 (set_op SEQ_OP_PAD_FRONT reset_state))))
            (Some 7%float) (Some 0)) /\
  feed_then_flush true 5%nat SEQ_OP_PAD_FRONT 2 0%float [1; 2; 3]%float
  = Some (Some (SEQ_ERR_STATE, [])) /\
  feed_then_flush true 5%nat SEQ_OP_UPSAMPLE 2 0%float [1; 2; 3]%float
  = Some (Some (SEQ_ERR_STATE, [1]%float)).
Proof.
  intros src dst.
  assert (Hsrc : seq_wf src) by (unfold seq_wf; cbn; lia).
  assert (Hdst : seq_wf dst) by (unfold seq_wf; cbn; lia).
  destruct stream_matches_batch as (Hmatch & Hstep & Hpad & Hup).
  split; [|split; [|split]].
  - refine (Hmatch SEQ_OP_UPSAMPLE 2 0%float src dst 5%nat eq_refl Hsrc Hdst _ _).
    + cbn. lia.
    + cbn. lia.
  - apply Hstep.
    + discriminate.
    + left. reflexivity.
    + cbn. lia.
    + discriminate.
  - apply Hpad. lia.
  - apply Hup. rewrite size_max_value. lia.
Defined.

(* ------------------------------------------------------------------ *)
(** ** The batch operators one by one *)

(** [seq_pad_back] computes [pad_back_spec]. *)
Lemma seq_pad_back_ok (mem_ok : bool) (src dst : seq_t) (z : Z) :
  seq_wf src -> seq_wf dst -> 0 <= z ->
  calloc_doubles mem_ok (length src + z) <> None ->
  exists out,
    seq_pad_back mem_ok (Some src) z (Some dst) = Some (SEQ_OK, Some out) /\
    seq_wf out /\ seq_samples out = pad_back_spec z (seq_samples src) /\
    length out = length src + z.
Proof.
  intros Hsrc Hdst Hz Halloc.
  pose proof size_max_div8 as Hm8. pose proof size_max_value as Hm.
  pose proof Hsrc as [_ Hb].
  pose proof (seq_samples_length src Hsrc) as Hlen.
  pose proof (calloc_doubles_bound _ _ Halloc) as Hbound.
  unfold seq_pad_back.
  replace (Size.add (length src) z) with (length src + z)
    by (size_arith; reflexivity).
  apply with_output_ok; try assumption; try lia.
  intros p Hp. unfold for_lt, pad_back_spec. rewrite Z.sub_0_r.
  replace (length src + z - length src) with z by lia.
  destruct p as [l|]; cbn in Hp.
  - rewrite (for_range_fill (Z.to_nat (length src)) 0 _
               (sample (seq_samples src)) l); try lia.
    2:{ intros i a Hi Ha. rewrite seq_data_get by (auto; lia). reflexivity. }
    cbn [bind Z.to_nat firstn app Nat.add].
    replace (map (sample (seq_samples src)) (zrange 0 (Z.to_nat (length src))))
      with (seq_samples src)
      by (rewrite <- Hlen; symmetry; apply map_sample_indices).
    set (l2 := seq_samples src ++ skipn (Z.to_nat (length src)) l).
    assert (Hl2 : List.length l2 = List.length l).
    { unfold l2. rewrite length_app, length_skipn. lia. }
    rewrite (for_range_fill (Z.to_nat z) (length src) _ (fun _ => 0%float) l2);
      try lia.
    2:{ intros i a Hi Ha. reflexivity. }
    eexists. split; [reflexivity|].
    rewrite map_const_zrange, skipn_all2 by lia. rewrite app_nil_r.
    assert (Hf : firstn (Z.to_nat (length src)) l2 = seq_samples src).
    { unfold l2. rewrite firstn_app.
      replace (Z.to_nat (length src) - List.length (seq_samples src))%nat
        with 0%nat by lia.
      cbn [firstn]. rewrite app_nil_r. apply firstn_all2. lia. }
    rewrite Hf. cbn [ptr_wf ptr_contents]. split; [|reflexivity].
    rewrite length_app, repeat_length. lia.
  - assert (z = 0) by lia. assert (Hn : length src = 0) by lia. subst z.
    rewrite Hn. cbn [Z.to_nat for_range bind ret].
    exists None. split; [reflexivity|]. split; [cbn; lia|].
    destruct (seq_samples src); [reflexivity|cbn in Hlen; lia].
Qed.

(** [seq_advance] computes [advance_spec] as long as [i + advance] does
    not wrap. *)
Lemma seq_advance_ok (mem_ok : bool) (src dst : seq_t) (a : Z) (fillv : float) :
  seq_wf src -> seq_wf dst -> 0 <= a -> length src + a <= Size.max ->
  calloc_doubles mem_ok (length src) <> None ->
  exists out,
    seq_advance mem_ok (Some src) a fillv (Some dst) = Some (SEQ_OK, Some out) /\
    seq_wf out /\ seq_samples out = advance_spec a fillv (seq_samples src) /\
    length out = length src.
Proof.
  intros Hsrc Hdst Ha Hwrap Halloc.
  pose proof size_max_div8 as Hm8. pose proof size_max_value as Hm.
  pose proof Hsrc as [_ Hb].
  unfold seq_advance. apply with_output_ok; try assumption; try lia.
  intros p Hp. unfold advance_spec. rewrite (seq_samples_length src Hsrc).
  apply for_lt_fill_ptr; [assumption|lia|].
  intros i l Hi Hl. cbv zeta.
  replace (Size.add i a) with (i + a) by (size_arith; reflexivity).
  destruct (Z.ltb_spec (i + a) (length src)) as [Hlt|Hge]; [|reflexivity].
  rewrite seq_data_get by (auto; lia). reflexivity.
Qed.

(** The loop of [seq_reverse]: the read cursor [j] runs down from
    [len - 1] while the write index runs up. *)
Lemma reverse_loop (xs : list float) (k : nat) :
  forall (lo j0 : Z) (body : Z -> Z * option array -> C (Z * option array))
         (l : array),
    let n := Z.of_nat (List.length xs) in
    0 <= lo -> lo + Z.of_nat k <= n -> n <= Size.max ->
    Z.of_nat (List.length l) = n ->
    (k = 0%nat \/ j0 = n - 1 - lo) ->
    (forall i j a, lo <= i < lo + Z.of_nat k -> List.length a = List.length l ->
                   body i (j, Some a)
                   = (v <- ptr_get (Some xs) j ;;
                      p' <- ptr_set (Some a) i v ;;
                      ret (if j =? 0 then j else Size.decr j, p'))) ->
    exists j',
      for_range k lo body (j0, Some l)
      = Some (j', Some (firstn (Z.to_nat lo) l
                          ++ map (fun i => sample xs (n - 1 - i)) (zrange lo k)
                          ++ skipn (Z.to_nat lo + k) l)).
Proof.
  induction k as [|k IH]; intros lo j0 body l n Hlo Hhi Hmax Hl Hj Hbody.
  - exists j0. cbn. now rewrite Nat.add_0_r, firstn_skipn.
  - destruct Hj as [Hj|Hj]; [discriminate|].
    cbn [for_range zrange map]. rewrite Hbody by (auto; lia).
    rewrite ptr_get_sample by (fold n; lia). cbn [bind ptr_set].
    rewrite arr_set_in_range by lia. cbn [bind ret].
    set (l1 := firstn (Z.to_nat lo) l
                 ++ sample xs j0 :: skipn (Datatypes.S (Z.to_nat lo)) l).
    assert (Hlen1 : List.length l1 = List.length l) by (apply set_length; lia).
    destruct (IH (lo + 1) (if j0 =? 0 then j0 else Size.decr j0) body l1)
      as (j' & Hrun); try (fold n; lia).
    { destruct k as [|k]; [now left|right]. fold n.
      destruct (Z.eqb_spec j0 0) as [E|E]; [lia|].
      size_arith. lia. }
    { intros i j a Hi Ha. apply Hbody; [lia|congruence]. }
    exists j'. rewrite Hrun. do 3 f_equal.
    replace (Z.to_nat (lo + 1)) with (Datatypes.S (Z.to_nat lo)) by lia.
    unfold l1. rewrite set_firstn_succ, set_skipn_succ by lia.
    rewrite <- app_assoc. cbn [app]. subst j0. reflexivity.
Qed.

Lemma map_sample_rev (xs : list float) :
  map (fun i => sample xs (Z.of_nat (List.length xs) - 1 - i))
    (indices (Z.of_nat (List.length xs)))
  = rev xs.
Proof.
  apply (nth_ext _ _ 0%float 0%float).
  - rewrite length_map, indices_length, length_rev. lia.
  - intros i Hi. rewrite length_map, indices_length in Hi.
    match goal with
    | |- nth i ?m _ = _ =>
        replace (nth i m 0%float) with (sample m (Z.of_nat i))
          by (unfold sample; now rewrite Nat2Z.id)
    end.
    rewrite sample_map_indices by lia.
    rewrite rev_nth by lia. unfold sample. f_equal. lia.
Qed.

(** [seq_reverse] computes the reversed list. *)
Lemma seq_reverse_ok (mem_ok : bool) (src dst : seq_t) :
  seq_wf src -> seq_wf dst ->
  calloc_doubles mem_ok (length src) <> None ->
  exists out,
    seq_reverse mem_ok (Some src) (Some dst) = Some (SEQ_OK, Some out) /\
    seq_wf out /\ seq_samples out = rev (seq_samples src) /\
    length out = length src.
Proof.
  intros Hsrc Hdst Halloc.
  pose proof size_max_div8 as Hm8. pose proof size_max_value as Hm.
  pose proof Hsrc as [Hd Hb].
  pose proof (seq_samples_length src Hsrc) as Hlen.
  unfold seq_reverse. apply with_output_ok; try assumption; try lia.
  intros p Hp.
  destruct (Z.eqb_spec (length src) 0) as [E|E].
  - exists p. split; [reflexivity|]. split; [assumption|].
    rewrite E in Hp. destruct p as [l|]; cbn in Hp.
    + destruct l; [|cbn in Hp; lia].
      destruct (seq_samples src); [reflexivity|cbn in Hlen; lia].
    + destruct (seq_samples src); [reflexivity|cbn in Hlen; lia].
  - destruct p as [l|]; cbn in Hp; [|lia].
    unfold for_lt. rewrite Z.sub_0_r.
    assert (Hdata : data src = Some (seq_samples src)).
    { unfold seq_samples. destruct (data src); [reflexivity|lia]. }
    destruct (reverse_loop (seq_samples src) (Z.to_nat (length src)) 0
                (Size.sub (length src) 1)
                (fun i '(j, p) =>
                   v <- ptr_get (data src) j ;;
                   p' <- ptr_set p i v ;;
                   ret (if j =? 0 then j else Size.decr j, p'))
                l) as (j' & Hrun); try lia.
    { right. size_arith. lia. }
    { intros i j a Hi Ha. rewrite Hdata. reflexivity. }
    rewrite Hrun. cbn [bind ret Z.to_nat firstn app Nat.add].
    eexists. split; [reflexivity|].
    rewrite skipn_all2 by lia. rewrite app_nil_r.
    fold (indices (length src)). rewrite <- Hlen, map_sample_rev.
    cbn [ptr_wf ptr_contents]. split; [|reflexivity].
    rewrite length_rev. lia.
Qed.

(** [seq_copy] makes [dst] a copy of a well-formed source. *)
Lemma seq_copy_ok (mem_ok : bool) (src dst : seq_t) :
  seq_wf src -> seq_wf dst ->
  calloc_doubles mem_ok (length src) <> None ->
  exists out,
    seq_copy mem_ok (Some src) (Some dst) = Some (SEQ_OK, Some out) /\
    seq_wf out /\ seq_samples out = seq_samples src /\
    length out = length src.
Proof.
  intros Hsrc Hdst Halloc.
  pose proof size_max_div8 as Hm8. pose proof size_max_value as Hm.
  pose proof Hsrc as [Hd Hb].
  pose proof (seq_samples_length src Hsrc) as Hlen.
  unfold seq_copy.
  destruct (Z.eqb_spec (length src) 0) as [E|E].
  - exists (mk_seq None 0). split; [reflexivity|].
    split; [unfold seq_wf; cbn; lia|]. split; [|cbn; lia].
    destruct (seq_samples src); [reflexivity|cbn in Hlen; lia].
  - destruct (seq_prepare_output_ok mem_ok dst (length src) Hdst
                ltac:(lia) Halloc) as (d & Hprep & Hdl & Hdp).
    unfold seq_prepare_output in Hprep. cbv zeta. rewrite Hprep.
    assert (Hdata : data src = Some (seq_samples src)).
    { unfold seq_samples. destruct (data src); [reflexivity|lia]. }
    rewrite Hdata.
    destruct (data d) as [l|] eqn:El; cbn in Hdp; [|lia].
    unfold memcpy_doubles.
    replace (Size.mul (length src) 8 / 8) with (length src).
    2:{ size_arith. symmetry. apply Z.div_mul. lia. }
    rewrite Hlen, Hdp, Z.leb_refl. cbn [andb bind ret].
    eexists. split; [reflexivity|].
    rewrite firstn_all2, skipn_all2 by lia. rewrite app_nil_r.
    unfold seq_wf. cbn [data length seq_samples].
    repeat split; try lia.
Qed.

(** Reading the specifications of the batch operators index by index. *)

Lemma sample_app_l (a b : list float) (i : Z) :
  0 <= i < Z.of_nat (List.length a) -> sample (a ++ b) i = sample a i.
Proof. intros Hi. unfold sample. apply app_nth1. lia. Qed.

Lemma sample_repeat (v : float) (n : nat) (i : Z) :
  0 <= i < Z.of_nat n -> sample (repeat v n) i = v.
Proof.
  intros Hi. unfold sample.
  rewrite (nth_indep _ 0%float v) by (rewrite repeat_length; lia).
  apply nth_repeat.
Qed.

Lemma upsample_spec_zero (f : Z) (xs : list float) :
  0 < f ->
  forall j, 0 <= j < Z.of_nat (List.length xs) * f -> j mod f <> 0 ->
            sample (upsample_spec f xs) j = 0%float.
Proof.
  intros Hf. induction xs as [|x t IH]; intros j Hj Hmod;
    cbn [List.length] in Hj; [lia|].
  unfold upsample_spec. cbn [flat_map]. fold (upsample_spec f t).
  change (x :: repeat 0%float (Z.to_nat (f - 1)) ++ upsample_spec f t)
    with ((x :: repeat 0%float (Z.to_nat (f - 1))) ++ upsample_spec f t).
  assert (Hblock : Z.of_nat (List.length (x :: repeat 0%float (Z.to_nat (f - 1)))) = f)
    by (cbn [List.length]; rewrite repeat_length; lia).
  destruct (Z.lt_ge_cases j f) as [Hlt|Hge].
  - rewrite sample_app_l by lia.
    assert (Hj0 : j <> 0) by (intros ->; apply Hmod; apply Z.mod_0_l; lia).
    replace j with (j - 1 + 1) by lia. rewrite sample_cons by lia.
    apply sample_repeat. lia.
  - replace j with (Z.of_nat (List.length (x :: repeat 0%float (Z.to_nat (f - 1))))
                    + (j - f)) by lia.
    rewrite sample_app_shift by lia. apply IH; [nia|].
    replace (j - f) with (j + (-1) * f) by lia.
    rewrite Z.mod_add by lia. exact Hmod.
Qed.

Lemma cumsum_from_sample (xs : list float) :
  forall a i, 0 <= i < Z.of_nat (List.length xs) ->
    sample (cumsum_from a xs) i
    = fold_left PrimFloat.add (firstn (Z.to_nat (i + 1)) xs) a.
Proof.
  induction xs as [|x t IH]; intros a i Hi; cbn in Hi; [lia|].
  replace (Z.to_nat (i + 1)) with (Datatypes.S (Z.to_nat i)) by lia.
  cbn [cumsum_from firstn fold_left].
  destruct (Z.eq_dec i 0) as [->|Hnz]; [reflexivity|].
  replace i with (i - 1 + 1) at 1 by lia. rewrite sample_cons by lia.
  rewrite IH by lia. do 2 f_equal. lia.
Qed.

(** X1.  On well-formed arguments, when the output block can be allocated,
    [seq_pad_front] succeeds; the output has [len + z] samples: [z] zeros
    followed by the source. *)
Theorem seq_pad_front_correct :
  forall (mem_ok : bool) (src dst : seq_t) (z : Z),
    seq_wf src -> seq_wf dst -> 0 <= z ->
    calloc_doubles mem_ok (length src + z) <> None ->
    exists out,
      seq_pad_front mem_ok (Some src) z (Some dst) = Some (SEQ_OK, Some out) /\
      length out = length src + z /\
      seq_samples out = repeat 0%float (Z.to_nat z) ++ seq_samples src /\
      (forall i, 0 <= i < z -> sample (seq_samples out) i = 0%float) /\
      (forall i, 0 <= i < length src ->
                 sample (seq_samples out) (z + i) = sample (seq_samples src) i).
Proof.
  intros mem_ok src dst z Hsrc Hdst Hz Halloc.
  destruct (seq_pad_front_ok mem_ok src dst z Hsrc Hdst Hz Halloc)
    as (out & Hrun & _ & Hs & Hl).
  exists out. unfold pad_front_spec in Hs. rewrite Hs.
  repeat split; try assumption.
  - intros i Hi. rewrite sample_app_l by (rewrite repeat_length; lia).
    apply sample_repeat. lia.
  - intros i Hi.
    replace z with (Z.of_nat (List.length (repeat 0%float (Z.to_nat z))))
      at 2 by (rewrite repeat_length; lia).
    apply sample_app_shift. lia.
Qed.

Lemma seq_pad_front_correct_witness :
  exists out,
    seq_pad_front true (Some (mk_seq (Some [1; 2]%float) 2)) 2
      (Some (mk_seq None 0)) = Some (SEQ_OK, Some out) /\
    seq_samples out = [0; 0; 1; 2]%float.
Proof.
  destruct (seq_pad_front_correct true (mk_seq (Some [1; 2]%float) 2)
              (mk_seq None 0) 2)
    as (out & Hrun & _ & Hs & _).
  - unfold seq_wf; cbn; lia.
  - unfold seq_wf; cbn; lia.
  - lia.
  - discriminate.
  - exists out. split; [exact Hrun | exact Hs].
Defined.

(** X2.  On well-formed arguments, when the output block can be allocated,
    [seq_pad_back] succeeds; the output has [len + z] samples: the source
    followed by [z] zeros. *)
Theorem seq_pad_back_correct :
  forall (mem_ok : bool) (src dst : seq_t) (z : Z),
    seq_wf src -> seq_wf dst -> 0 <= z ->
    calloc_doubles mem_ok (length src + z) <> None ->
    exists out,
      seq_pad_back mem_ok (Some src) z (Some dst) = Some (SEQ_OK, Some out) /\
      length out = length src + z /\
      seq_samples out = seq_samples src ++ repeat 0%float (Z.to_nat z) /\
      (forall i, 0 <= i < length src ->
                 sample (seq_samples out) i = sample (seq_samples src) i) /\
      (forall i, length src <= i < length src + z ->
                 sample (seq_samples out) i = 0%float).
Proof.
  intros mem_ok src dst z Hsrc Hdst Hz Halloc.
  destruct (seq_pad_back_ok mem_ok src dst z Hsrc Hdst Hz Halloc)
    as (out & Hrun & _ & Hs & Hl).
  pose proof (seq_samples_length src Hsrc) as Hlen.
  exists out. unfold pad_back_spec in Hs. rewrite Hs.
  repeat split; try assumption.
  - intros i Hi. apply sample_app_l. lia.
  - intros i Hi.
    replace i with (Z.of_nat (List.length (seq_samples src)) + (i - length src))
      by lia.
    rewrite sample_app_shift by lia. apply sample_repeat. lia.
Qed.

Lemma seq_pad_back_correct_witness :
  exists out,
    seq_pad_back true (Some (mk_seq (Some [1; 2]%float) 2)) 2
      (Some (mk_seq None 0)) = Some (SEQ_OK, Some out) /\
    seq_samples out = [1; 2; 0; 0]%float.
Proof.
  destruct (seq_pad_back_correct true (mk_seq (Some [1; 2]%float) 2)
              (mk_seq None 0) 2)
    as (out & Hrun & _ & Hs & _).
  - unfold seq_wf; cbn; lia.
  - unfold seq_wf; cbn; lia.
  - lia.
  - discriminate.
  - exists out. split; [exact Hrun | exact Hs].
Defined.

(** X3.  On well-formed arguments, when the output block can be allocated,
    [seq_delay] succeeds; the output has the length of the source,
    [y[i] = fill] for [i < d] and [y[i] = x[i - d]] from there on. *)
Theorem seq_delay_correct :
  forall (mem_ok : bool) (src dst : seq_t) (d : Z) (fillv : float),
    seq_wf src -> seq_wf dst -> 0 <= d <= Size.max ->
    calloc_doubles mem_ok (length src) <> None ->
    exists out,
      seq_delay mem_ok (Some src) d fillv (Some dst) = Some (SEQ_OK, Some out) /\
      length out = length src /\
      Z.of_nat (List.length (seq_samples out)) = length src /\
      forall i, 0 <= i < length src ->
                sample (seq_samples out) i
                = if i <? d then fillv else sample (seq_samples src) (i - d).
Proof.
  intros mem_ok src dst d fillv Hsrc Hdst Hd Halloc.
  destruct (seq_delay_ok mem_ok src dst d fillv Hsrc Hdst Hd Halloc)
    as (out & Hrun & Hwf & Hs & Hl).
  pose proof (seq_samples_length src Hsrc) as Hlen.
  exists out. repeat split; try assumption.
  - rewrite (seq_samples_length out Hwf). exact Hl.
  - intros i Hi. rewrite Hs. unfold delay_spec.
    rewrite sample_map_indices by lia. reflexivity.
Qed.

Lemma seq_delay_correct_witness :
  exists out,
    seq_delay true (Some (mk_seq (Some [1; 2; 3]%float) 3)) 2 9%float
      (Some (mk_seq None 0)) = Some (SEQ_OK, Some out) /\
    sample (seq_samples out) 1 = 9%float /\
    sample (seq_samples out) 2 = 1%float.
Proof.
  destruct (seq_delay_correct true (mk_seq (Some [1; 2; 3]%float) 3)
              (mk_seq None 0) 2 9%float)
    as (out & Hrun & _ & _ & Hs).
  - unfold seq_wf; cbn; lia.
  - unfold seq_wf; cbn; lia.
  - rewrite size_max_value. lia.
  - discriminate.
  - exists out. split; [exact Hrun|].
    split; [apply (Hs 1) | apply (Hs 2)]; cbn; lia.
Defined.

(** X4.  On well-formed arguments, when the output block can be allocated
    and [len + a] fits [size_t], [seq_advance] succeeds; the output has the
    length of the source, [y[i] = x[i + a]] while [i + a < len] and
    [y[i] = fill] from there on. *)
Theorem seq_advance_correct :
  forall (mem_ok : bool) (src dst : seq_t) (a : Z) (fillv : float),
    seq_wf src -> seq_wf dst -> 0 <= a -> length src + a <= Size.max ->
    calloc_doubles mem_ok (length src) <> None ->
    exists out,
      seq_advance mem_ok (Some src) a fillv (Some dst) = Some (SEQ_OK, Some out) /\
      length out = length src /\
      Z.of_nat (List.length (seq_samples out)) = length src /\
      forall i, 0 <= i < length src ->
                sample (seq_samples out) i
                = if i + a <? length src
                  then sample (seq_samples src) (i + a) else fillv.
Proof.
  intros mem_ok src dst a fillv Hsrc Hdst Ha Hwrap Halloc.
  destruct (seq_advance_ok mem_ok src dst a fillv Hsrc Hdst Ha Hwrap Halloc)
    as (out & Hrun & Hwf & Hs & Hl).
  pose proof (seq_samples_length src Hsrc) as Hlen.
  exists out. repeat split; try assumption.
  - rewrite (seq_samples_length out Hwf). exact Hl.
  - intros i Hi. rewrite Hs. unfold advance_spec.
    rewrite sample_map_indices by lia. rewrite Hlen. reflexivity.
Qed.

Lemma seq_advance_correct_witness :
  exists out,
    seq_advance true (Some (mk_seq (Some [1; 2; 3]%float) 3)) 2 9%float
      (Some (mk_seq None 0)) = Some (SEQ_OK, Some out) /\
    sample (seq_samples out) 0 = 3%float /\
    sample (seq_samples out) 1 = 9%float.
Proof.
  destruct (seq_advance_correct true (mk_seq (Some [1; 2; 3]%float) 3)
              (mk_seq None 0) 2 9%float)
    as (out & Hrun & _ & _ & Hs).
  - unfold seq_wf; cbn; lia.
  - unfold seq_wf; cbn; lia.
  - lia.
  - rewrite size_max_value. cbn. lia.
  - discriminate.
  - exists out. split; [exact Hrun|].
    split; [apply (Hs 0) | apply (Hs 1)]; cbn; lia.
Defined.

(** X5.  On well-formed arguments, when the output block can be allocated,
    [seq_reverse] succeeds; the output is the source in reverse order:
    [y[i] = x[len - 1 - i]]. *)
Theorem seq_reverse_correct :
  forall (mem_ok : bool) (src dst : seq_t),
    seq_wf src -> seq_wf dst ->
    calloc_doubles mem_ok (length src) <> None ->
    exists out,
      seq_reverse mem_ok (Some src) (Some dst) = Some (SEQ_OK, Some out) /\
      length out = length src /\
      seq_samples out = rev (seq_samples src) /\
      forall i, 0 <= i < length src ->
                sample (seq_samples out) i
                = sample (seq_samples src) (length src - 1 - i).
Proof.
  intros mem_ok src dst Hsrc Hdst Halloc.
  destruct (seq_reverse_ok mem_ok src dst Hsrc Hdst Halloc)
    as (out & Hrun & Hwf & Hs & Hl).
  pose proof (seq_samples_length src Hsrc) as Hlen.
  exists out. repeat split; try assumption.
  intros i Hi. rewrite Hs, <- map_sample_rev, Hlen.
  rewrite sample_map_indices by lia. reflexivity.
Qed.

Lemma seq_reverse_correct_witness :
  exists out,
    seq_reverse true (Some (mk_seq (Some [1; 2; 3]%float) 3))
      (Some (mk_seq None 0)) = Some (SEQ_OK, Some out) /\
    seq_samples out = [3; 2; 1]%float.
Proof.
  destruct (seq_reverse_correct true (mk_seq (Some [1; 2; 3]%float) 3)
              (mk_seq None 0))
    as (out & Hrun & _ & Hs & _).
  - unfold seq_wf; cbn; lia.
  - unfold seq_wf; cbn; lia.
  - discriminate.
  - exists out. split; [exact Hrun | exact Hs].
Defined.

(** X6.  Reversing twice gives the source back: [seq_reverse] applied to
    the result of [seq_reverse] succeeds and returns a sequence with the
    length and the samples of the source. *)
Theorem seq_reverse_involutive :
  forall (mem_ok : bool) (x mid dst : seq_t),
    seq_wf x -> seq_wf mid -> seq_wf dst ->
    calloc_doubles mem_ok (length x) <> None ->
    exists r y,
      seq_reverse mem_ok (Some x) (Some mid) = Some (SEQ_OK, Some r) /\
      seq_reverse mem_ok (Some r) (Some dst) = Some (SEQ_OK, Some y) /\
      length y = length x /\
      seq_samples y = seq_samples x.
Proof.
  intros mem_ok x mid dst Hx Hmid Hdst Halloc.
  destruct (seq_reverse_ok mem_ok x mid Hx Hmid Halloc)
    as (r & Hr & Hrwf & Hrs & Hrl).
  rewrite <- Hrl in Halloc.
  destruct (seq_reverse_ok mem_ok r dst Hrwf Hdst Halloc)
    as (y & Hy & Hywf & Hys & Hyl).
  exists r, y. repeat split; try assumption; try congruence.
  rewrite Hys, Hrs. apply rev_involutive.
Qed.

Lemma seq_reverse_involutive_witness :
  let x := mk_seq (Some [1; 2; 4]%float) 3 in
  let e := mk_seq None 0 in
  exists r y,
    seq_reverse true (Some x) (Some e) = Some (SEQ_OK, Some r) /\
    seq_reverse true (Some r) (Some e) = Some (SEQ_OK, Some y) /\
    length y = length x /\
    seq_samples y = seq_samples x.
Proof.
  intros x e.
  assert (Hx : seq_wf x) by (unfold seq_wf; cbn; lia).
  assert (He : seq_wf e) by (unfold seq_wf; cbn; lia).
  refine (seq_reverse_involutive true x e e Hx He He _).
  discriminate.
Defined.

(** X7.  On well-formed arguments, for a factor [f > 0] and when the
    output block can be allocated, [seq_upsample] succeeds; the output has
    [len * f] samples: every sample of the source followed by [f - 1]
    zeros, that is, [y[i * f] = x[i]] and zero at every index that is not a
    multiple of [f]. *)
Theorem seq_upsample_correct :
  forall (mem_ok : bool) (src dst : seq_t) (f : Z),
    seq_wf src -> seq_wf dst -> 0 < f ->
    calloc_doubles mem_ok (length src * f) <> None ->
    exists out,
      seq_upsample mem_ok (Some src) f (Some dst) = Some (SEQ_OK, Some out) /\
      length out = length src * f /\
      Z.of_nat (List.length (seq_samples out)) = length src * f /\
      (forall i, 0 <= i < length src ->
                 sample (seq_samples out) (i * f) = sample (seq_samples src) i) /\
      (forall j, 0 <= j < length src * f -> j mod f <> 0 ->
                 sample (seq_samples out) j = 0%float).
Proof.
  intros mem_ok src dst f Hsrc Hdst Hf Halloc.
  destruct (seq_upsample_ok mem_ok src dst f Hsrc Hdst Hf Halloc)
    as (out & Hrun & Hwf & Hs & Hl).
  pose proof (seq_samples_length src Hsrc) as Hlen.
  exists out. repeat split; try assumption.
  - rewrite (seq_samples_length out Hwf). exact Hl.
  - intros i Hi. rewrite Hs. apply upsample_spec_sample; lia.
  - intros j Hj Hmod. rewrite Hs. apply upsample_spec_zero; [lia| |exact Hmod].
    rewrite Hlen. lia.
Qed.

Lemma seq_upsample_correct_witness :
  exists out,
    seq_upsample true (Some (mk_seq (Some [1; 2]%float) 2)) 3
      (Some (mk_seq None 0)) = Some (SEQ_OK, Some out) /\
    sample (seq_samples out) 3 = 2%float /\
    sample (seq_samples out) 4 = 0%float.
Proof.
  destruct (seq_upsample_correct true (mk_seq (Some [1; 2]%float) 2)
              (mk_seq None 0) 3)
    as (out & Hrun & _ & _ & Hs & Hz).
  - unfold seq_wf; cbn; lia.
  - unfold seq_wf; cbn; lia.
  - lia.
  - discriminate.
  - exists out. split; [exact Hrun|]. split.
    + apply (Hs 1). cbn. lia.
    + apply (Hz 4); cbn; [lia|discriminate].
Defined.

(** X8.  On well-formed arguments, for a factor [f > 0] and when the
    output block can be allocated, [seq_downsample] succeeds; the output
    has [len / f] samples (the quotient rounded down) and
    [y[i] = x[i * f]]. *)
Theorem seq_downsample_correct :
  forall (mem_ok : bool) (src dst : seq_t) (f : Z),
    seq_wf src -> seq_wf dst -> 0 < f <= Size.max ->
    calloc_doubles mem_ok (length src / f) <> None ->
    exists out,
      seq_downsample mem_ok (Some src) f (Some dst) = Some (SEQ_OK, Some out) /\
      length out = length src / f /\
      Z.of_nat (List.length (seq_samples out)) = length src / f /\
      forall i, 0 <= i < length src / f ->
                sample (seq_samples out) i = sample (seq_samples src) (i * f).
Proof.
  intros mem_ok src dst f Hsrc Hdst Hf Halloc.
  destruct (seq_downsample_ok mem_ok src dst f Hsrc Hdst Hf Halloc)
    as (out & Hrun & Hwf & Hs & Hl).
  pose proof (seq_samples_length src Hsrc) as Hlen.
  exists out. repeat split; try assumption.
  - rewrite (seq_samples_length out Hwf). exact Hl.
  - intros i Hi. rewrite Hs. unfold downsample_spec.
    rewrite sample_map_indices by (rewrite Hlen; lia). reflexivity.
Qed.

Lemma seq_downsample_correct_witness :
  exists out,
    seq_downsample true (Some (mk_seq (Some [1; 2; 3; 4; 5]%float) 5)) 2
      (Some (mk_seq None 0)) = Some (SEQ_OK, Some out) /\
    length out = 2 /\
    sample (seq_samples out) 1 = 3%float.
Proof.
  destruct (seq_downsample_correct true
              (mk_seq (Some [1; 2; 3; 4; 5]%float) 5) (mk_seq None 0) 2)
    as (out & Hrun & Hl & _ & Hs).
  - unfold seq_wf; cbn; lia.
  - unfold seq_wf; cbn; lia.
  - rewrite size_max_value. lia.
  - discriminate.
  - exists out. split; [exact Hrun|]. split; [exact Hl|].
    apply (Hs 1). cbn. lia.
Defined.

(** X9.  On well-formed arguments, when the output block can be allocated,
    [seq_diff] succeeds; the output has the length of the source,
    [y[0] = x[0]] and [y[i] = x[i] - x[i-1]] for [i > 0]. *)
Theorem seq_diff_correct :
  forall (mem_ok : bool) (src dst : seq_t),
    seq_wf src -> seq_wf dst ->
    calloc_doubles mem_ok (length src) <> None ->
    exists out,
      seq_diff mem_ok (Some src) (Some dst) = Some (SEQ_OK, Some out) /\
      length out = length src /\
      Z.of_nat (List.length (seq_samples out)) = length src /\
      forall i, 0 <= i < length src ->
                sample (seq_samples out) i
                = if i =? 0 then sample (seq_samples src) 0
                  else (sample (seq_samples src) i
                        - sample (seq_samples src) (i - 1))%float.
Proof.
  intros mem_ok src dst Hsrc Hdst Halloc.
  destruct (seq_diff_ok mem_ok src dst Hsrc Hdst Halloc)
    as (out & Hrun & Hwf & Hs & Hl).
  pose proof (seq_samples_length src Hsrc) as Hlen.
  exists out. repeat split; try assumption.
  - rewrite (seq_samples_length out Hwf). exact Hl.
  - intros i Hi. rewrite Hs. unfold diff_spec.
    rewrite sample_map_indices by lia. reflexivity.
Qed.

Lemma seq_diff_correct_witness :
  exists out,
    seq_diff true (Some (mk_seq (Some [1; 4; 9]%float) 3))
      (Some (mk_seq None 0)) = Some (SEQ_OK, Some out) /\
    sample (seq_samples out) 0 = 1%float /\
    sample (seq_samples out) 2 = (9 - 4)%float.
Proof.
  destruct (seq_diff_correct true (mk_seq (Some [1; 4; 9]%float) 3)
              (mk_seq None 0))
    as (out & Hrun & _ & _ & Hs).
  - unfold seq_wf; cbn; lia.
  - unfold seq_wf; cbn; lia.
  - discriminate.
  - exists out. split; [exact Hrun|].
    split; [apply (Hs 0) | apply (Hs 2)]; cbn; lia.
Defined.

(** X10.  On well-formed arguments, when the output block can be
    allocated, [seq_cumsum] succeeds; the output has the length of the
    source and [y[i]] is the sum [x[0] + ... + x[i]], accumulated from 0.0
    from left to right. *)
Theorem seq_cumsum_correct :
  forall (mem_ok : bool) (src dst : seq_t),
    seq_wf src -> seq_wf dst ->
    calloc_doubles mem_ok (length src) <> None ->
    exists out,
      seq_cumsum mem_ok (Some src) (Some dst) = Some (SEQ_OK, Some out) /\
      length out = length src /\
      Z.of_nat (List.length (seq_samples out)) = length src /\
      forall i, 0 <= i < length src ->
                sample (seq_samples out) i
                = fsum (firstn (Z.to_nat (i + 1)) (seq_samples src)).
Proof.
  intros mem_ok src dst Hsrc Hdst Halloc.
  destruct (seq_cumsum_ok mem_ok src dst Hsrc Hdst Halloc)
    as (out & Hrun & Hwf & Hs & Hl).
  pose proof (seq_samples_length src Hsrc) as Hlen.
  exists out. repeat split; try assumption.
  - rewrite (seq_samples_length out Hwf). exact Hl.
  - intros i Hi. rewrite Hs. unfold cumsum_spec, fsum.
    apply cumsum_from_sample. lia.
Qed.

Lemma seq_cumsum_correct_witness :
  exists out,
    seq_cumsum true (Some (mk_seq (Some [1; 2; 4]%float) 3))
      (Some (mk_seq None 0)) = Some (SEQ_OK, Some out) /\
    sample (seq_samples out) 2 = fsum [1; 2; 4]%float.
Proof.
  destruct (seq_cumsum_correct true (mk_seq (Some [1; 2; 4]%float) 3)
              (mk_seq None 0))
    as (out & Hrun & _ & _ & Hs).
  - unfold seq_wf; cbn; lia.
  - unfold seq_wf; cbn; lia.
  - discriminate.
  - exists out. split; [exact Hrun|]. apply (Hs 2). cbn. lia.
Defined.

(** X11.  On well-formed arguments, when a block for the copy can be
    allocated, [seq_copy] succeeds and leaves in [dst] a sequence with the
    length and the samples of the source; an empty source leaves [dst]
    empty, with a null data pointer. *)
Theorem seq_copy_correct :
  forall (mem_ok : bool) (src dst : seq_t),
    seq_wf src -> seq_wf dst ->
    calloc_doubles mem_ok (length src) <> None ->
    exists out,
      seq_copy mem_ok (Some src) (Some dst) = Some (SEQ_OK, Some out) /\
      length out = length src /\
      seq_samples out = seq_samples src /\
      (length src = 0 -> out = mk_seq None 0).
Proof.
  intros mem_ok src dst Hsrc Hdst Halloc.
  destruct (seq_copy_ok mem_ok src dst Hsrc Hdst Halloc)
    as (out & Hrun & Hwf & Hs & Hl).
  exists out. repeat split; try assumption.
  intros E. unfold seq_copy in Hrun. rewrite E in Hrun.
  cbn [Z.eqb seq_free ret] in Hrun. injection Hrun as <-. reflexivity.
Qed.

Lemma seq_copy_correct_witness :
  exists out,
    seq_copy true (Some (mk_seq (Some [1; 2; 4]%float) 3))
      (Some (mk_seq (Some [7]%float) 1)) = Some (SEQ_OK, Some out) /\
    seq_samples out = [1; 2; 4]%float.
Proof.
  destruct (seq_copy_correct true (mk_seq (Some [1; 2; 4]%float) 3)
              (mk_seq (Some [7]%float) 1))
    as (out & Hrun & _ & Hs & _).
  - unfold seq_wf; cbn; lia.
  - unfold seq_wf; cbn; lia.
  - discriminate.
  - exists out. split; [exact Hrun | exact Hs].
Defined.

(* ------------------------------------------------------------------ *)
(** ** Errors of the batch operators, and how they compose *)

Lemma with_output_nomem (mem_ok : bool) (dst : seq_t) (n : Z)
    (fill_data : option array -> C (option array)) :
  n <> 0 -> calloc_doubles mem_ok n = None ->
  data dst = None \/ length dst <> n ->
  with_output mem_ok (Some dst) n fill_data
  = Some (SEQ_ERR_NOMEM, Some (mk_seq None 0)).
Proof.
  intros Hn Hc Hd. unfold with_output, seq_prepare_output, seq_free, seq_alloc.
  destruct (Z.eqb_spec n 0) as [|_]; [contradiction|]. rewrite Hc.
  destruct (data dst); [|reflexivity].
  destruct Hd as [Hd|Hd]; [discriminate|].
  destruct (Z.eqb_spec (length dst) n); [contradiction|]. reflexivity.
Qed.

(** X12.  Every batch operator returns [SEQ_ERR_ARG] and leaves [dst] as
    it was when [src] or [dst] is a null pointer; [seq_upsample] and
    [seq_downsample] do the same for a factor of 0.  When the output needs
    a fresh block ([dst] has no data or another length, and the output is
    not empty) and the allocation fails, every batch operator returns
    [SEQ_ERR_NOMEM] and leaves [dst] empty: null data pointer, length 0. *)
Theorem batch_error_paths :
  (forall (mem_ok : bool) (o : seq_op_type) (pm : Z) (fillv : float)
          (src dst : option seq_t),
     src = None \/ dst = None \/
     ((o = SEQ_OP_UPSAMPLE \/ o = SEQ_OP_DOWNSAMPLE) /\ pm = 0) ->
     cli_apply_finite mem_ok o pm fillv src dst = Some (SEQ_ERR_ARG, dst)) /\
  (forall (mem_ok : bool) (o : seq_op_type) (pm : Z) (fillv : float)
          (src dst : seq_t),
     (o = SEQ_OP_UPSAMPLE \/ o = SEQ_OP_DOWNSAMPLE -> pm <> 0) ->
     batch_out_len o pm (length src) <> 0 ->
     calloc_doubles mem_ok (batch_out_len o pm (length src)) = None ->
     data dst = None \/ length dst <> batch_out_len o pm (length src) ->
     cli_apply_finite mem_ok o pm fillv (Some src) (Some dst)
     = Some (SEQ_ERR_NOMEM, Some (mk_seq None 0))).
Proof.
  split.
  - intros mem_ok o pm fillv src dst [->|[->|[Ho ->]]].
    + destruct o; reflexivity.
    + destruct o, src; reflexivity.
    + destruct Ho as [->| ->], src, dst; reflexivity.
  - intros mem_ok o pm fillv src dst Hpm Hn Hc Hd.
    destruct o; cbn [cli_apply_finite batch_out_len] in *;
      unfold seq_pad_front, seq_pad_back, seq_delay, seq_advance, seq_reverse,
        seq_upsample, seq_downsample, seq_diff, seq_cumsum;
      try match goal with
          | |- context [pm =? 0] =>
              destruct (Z.eqb_spec pm 0) as [E|_];
              [exfalso; apply Hpm; [auto|exact E]|]
          end;
      apply with_output_nomem; assumption.
Qed.

Lemma batch_error_paths_witness :
  seq_downsample true (Some (mk_seq (Some [1; 2]%float) 2)) 0
    (Some (mk_seq (Some [7]%float) 1))
  = Some (SEQ_ERR_ARG, Some (mk_seq (Some [7]%float) 1)) /\
  seq_cumsum false (Some (mk_seq (Some [1; 2]%float) 2))
    (Some (mk_seq (Some [7]%float) 1))
  = Some (SEQ_ERR_NOMEM, Some (mk_seq None 0)).
Proof.
  split.
  - refine (proj1 batch_error_paths true SEQ_OP_DOWNSAMPLE 0 0%float
              (Some (mk_seq (Some [1; 2]%float) 2))
              (Some (mk_seq (Some [7]%float) 1)) _).
    right. right. split; [right|]; reflexivity.
  - refine (proj2 batch_error_paths false SEQ_OP_CUMSUM 0 0%float
              (mk_seq (Some [1; 2]%float) 2) (mk_seq (Some [7]%float) 1)
              _ _ _ _).
    + intros [H|H]; discriminate H.
    + discriminate.
    + reflexivity.
    + right. discriminate.
Defined.

Lemma upsample_spec_one (xs : list float) : upsample_spec 1 xs = xs.
Proof.
  unfold upsample_spec. induction xs as [|x t IH]; cbn; [reflexivity|].
  now f_equal.
Qed.

Lemma map_indices_id (g : Z -> float) (xs : list float) :
  (forall i, 0 <= i < Z.of_nat (List.length xs) -> g i = sample xs i) ->
  map g (indices (Z.of_nat (List.length xs))) = xs.
Proof.
  intros Hg. rewrite <- (map_sample_indices xs) at 2.
  apply map_ext_in. intros i Hi. apply zrange_In in Hi. apply Hg. lia.
Qed.

(** X13.  With the parameter that asks for no change (no padding, a shift
    of 0, a resampling factor of 1), pad-front, pad-back, delay, advance,
    upsample and downsample return a sequence with the length and the
    samples of the source. *)
Theorem batch_neutral_parameter :
  forall (mem_ok : bool) (o : seq_op_type) (pm : Z) (fillv : float)
         (src dst : seq_t),
    seq_wf src -> seq_wf dst -> neutral_param o pm ->
    calloc_doubles mem_ok (length src) <> None ->
    exists out,
      cli_apply_finite mem_ok o pm fillv (Some src) (Some dst)
      = Some (SEQ_OK, Some out) /\
      length out = length src /\
      seq_samples out = seq_samples src.
Proof.
  intros mem_ok o pm fillv src dst Hsrc Hdst Hpm Halloc.
  pose proof size_max_value as Hm.
  pose proof Hsrc as [_ Hb]. pose proof size_max_div8 as Hm8.
  destruct o; cbn [neutral_param] in Hpm; try contradiction; subst pm;
    cbn [cli_apply_finite].
  - destruct (seq_pad_front_ok mem_ok src dst 0 Hsrc Hdst) as
      (out & Hrun & _ & Hs & Hl); [lia|now rewrite Z.add_0_r|].
    exists out. repeat split; [assumption|lia|exact Hs].
  - destruct (seq_pad_back_ok mem_ok src dst 0 Hsrc Hdst) as
      (out & Hrun & _ & Hs & Hl); [lia|now rewrite Z.add_0_r|].
    exists out. repeat split; [assumption|lia|].
    rewrite Hs. unfold pad_back_spec. apply app_nil_r.
  - destruct (seq_delay_ok mem_ok src dst 0 fillv Hsrc Hdst) as
      (out & Hrun & _ & Hs & Hl); [lia|assumption|].
    exists out. repeat split; [assumption|lia|].
    rewrite Hs. unfold delay_spec. apply map_indices_id.
    intros i Hi. destruct (Z.ltb_spec i 0); [lia|]. now rewrite Z.sub_0_r.
  - destruct (seq_advance_ok mem_ok src dst 0 fillv Hsrc Hdst) as
      (out & Hrun & _ & Hs & Hl); [lia|lia|assumption|].
    exists out. repeat split; [assumption|lia|].
    rewrite Hs. unfold advance_spec. apply map_indices_id.
    intros i Hi. rewrite Z.add_0_r.
    destruct (Z.ltb_spec i (Z.of_nat (List.length (seq_samples src))));
      [reflexivity|lia].
  - destruct (seq_upsample_ok mem_ok src dst 1 Hsrc Hdst) as
      (out & Hrun & _ & Hs & Hl); [lia|now rewrite Z.mul_1_r|].
    exists out. repeat split; [assumption|lia|].
    rewrite Hs. apply upsample_spec_one.
  - destruct (seq_downsample_ok mem_ok src dst 1 Hsrc Hdst) as
      (out & Hrun & _ & Hs & Hl); [lia|now rewrite Z.div_1_r|].
    exists out. repeat split; [assumption|rewrite Hl; apply Z.div_1_r|].
    rewrite Hs. unfold downsample_spec. rewrite Z.div_1_r.
    apply map_indices_id. intros i Hi. now rewrite Z.mul_1_r.
Qed.

Lemma batch_neutral_parameter_witness :
  exists out,
    seq_downsample true (Some (mk_seq (Some [1; 2; 4]%float) 3)) 1
      (Some (mk_seq None 0)) = Some (SEQ_OK, Some out) /\
    seq_samples out = [1; 2; 4]%float.
Proof.
  destruct (batch_neutral_parameter true SEQ_OP_DOWNSAMPLE 1 0%float
              (mk_seq (Some [1; 2; 4]%float) 3) (mk_seq None 0))
    as (out & Hrun & _ & Hs).
  - unfold seq_wf; cbn; lia.
  - unfold seq_wf; cbn; lia.
  - reflexivity.
  - discriminate.
  - exists out. split; [exact Hrun | exact Hs].
Defined.

(** X14.  Advancing a delayed sequence by the same amount, with the same
    fill value, gives the source back at every index [i] with
    [i + d < len]; the last [d] samples of the source are lost and the fill
    value stands in their place. *)
Theorem advance_after_delay :
  forall (mem_ok : bool) (x mid dst : seq_t) (d : Z) (fillv : float),
    seq_wf x -> seq_wf mid -> seq_wf dst ->
    0 <= d -> length x + d <= Size.max ->
    calloc_doubles mem_ok (length x) <> None ->
    exists u y,
      seq_delay mem_ok (Some x) d fillv (Some mid) = Some (SEQ_OK, Some u) /\
      seq_advance mem_ok (Some u) d fillv (Some dst) = Some (SEQ_OK, Some y) /\
      length y = length x /\
      forall i, 0 <= i < length x ->
                sample (seq_samples y) i
                = if i + d <? length x then sample (seq_samples x) i else fillv.
Proof.
  intros mem_ok x mid dst d fillv Hx Hmid Hdst Hd Hwrap Halloc.
  pose proof Hx as [_ Hb].
  pose proof (seq_samples_length x Hx) as Hlen.
  destruct (seq_delay_ok mem_ok x mid d fillv Hx Hmid) as
    (u & Hu & Huwf & Hus & Hul); [lia|assumption|].
  rewrite <- Hul in Halloc, Hwrap.
  destruct (seq_advance_ok mem_ok u dst d fillv Huwf Hdst Hd Hwrap Halloc)
    as (y & Hy & Hywf & Hys & Hyl).
  pose proof (seq_samples_length u Huwf) as Hulen.
  exists u, y. repeat split; try assumption; try congruence.
  intros i Hi. rewrite Hys. unfold advance_spec.
  rewrite sample_map_indices by lia. rewrite Hulen, Hul.
  destruct (Z.ltb_spec (i + d) (length x)) as [Hlt|Hge]; [|reflexivity].
  rewrite Hus. unfold delay_spec. rewrite sample_map_indices by lia.
  destruct (Z.ltb_spec (i + d) d); [lia|]. f_equal. lia.
Qed.

Lemma advance_after_delay_witness :
  let x := mk_seq (Some [1; 2; 4]%float) 3 in
  let e := mk_seq None 0 in
  exists u y,
    seq_delay true (Some x) 1 9%float (Some e) = Some (SEQ_OK, Some u) /\
    seq_advance true (Some u) 1 9%float (Some e) = Some (SEQ_OK, Some y) /\
    sample (seq_samples y) 1 = 2%float /\
    sample (seq_samples y) 2 = 9%float.
Proof.
  intros x e.
  destruct (advance_after_delay true x e e 1 9%float)
    as (u & y & Hu & Hy & _ & Hs).
  - unfold seq_wf; cbn; lia.
  - unfold seq_wf; cbn; lia.
  - unfold seq_wf; cbn; lia.
  - lia.
  - rewrite size_max_value. cbn. lia.
  - discriminate.
  - exists u, y. split; [exact Hu|]. split; [exact Hy|].
    split; [apply (Hs 1) | apply (Hs 2)]; cbn; lia.
Defined.

(* ------------------------------------------------------------------ *)
(** ** The life of a stream: construction, steps, disposal *)

(** [seq_stream_init] never reads the state object it is given. *)
Lemma seq_stream_init_ignores_state (mem_ok : bool) (s1 s2 : seq_stream_t)
    (o : seq_op_type) (pm pa : Z) (fillv : float) :
  seq_stream_init mem_ok (Some s1) o pm pa fillv
  = seq_stream_init mem_ok (Some s2) o pm pa fillv.
Proof. reflexivity. Qed.

(** X15.  On a non-null state object, for a delay no larger than an
    allocation can serve, [seq_stream_init] returns: [SEQ_ERR_UNSUPPORTED]
    for pad-back, advance and reverse, [SEQ_ERR_ARG] for a resampling
    factor of 0, [SEQ_ERR_NOMEM] when the delay buffer cannot be allocated,
    and [SEQ_OK] otherwise.  After [SEQ_OK] the state is live and
    well-formed; after an error it is inactive and owns no buffer.  After
    [SEQ_OK] the state holds the parameter of its operator and the
    operator's starting values: [remaining = param_main] zeros for
    pad-front, none for upsample, a counter of 0 for downsample, no last
    sample for diff, a sum of 0.0 for cumsum; a delay of 0 owns no buffer,
    and a non-zero delay owns a ring buffer of [param_main] doubles, each
    of them the fill value, with the cursor on cell 0. *)
Theorem seq_stream_init_outcome :
  forall (mem_ok : bool) (s : seq_stream_t) (o : seq_op_type) (pm pa : Z)
         (fillv : float),
    0 <= pm -> (o = SEQ_OP_DELAY -> pm <= Size.max / 8) ->
    exists st',
      seq_stream_init mem_ok (Some s) o pm pa fillv
      = Some (init_code mem_ok o pm, Some st') /\
      op st' = o /\ fill st' = fillv /\
      (init_code mem_ok o pm = SEQ_OK -> stream_wf st') /\
      (init_code mem_ok o pm <> SEQ_OK -> active st' = 0 /\ buf st' = None) /\
      (init_code mem_ok o pm = SEQ_OK ->
       match o with
       | SEQ_OP_PAD_FRONT => param_main st' = pm /\ remaining st' = pm
       | SEQ_OP_DELAY =>
           param_main st' = pm /\
           (pm = 0 -> buf st' = None) /\
           (pm <> 0 ->
            buf st' = Some (repeat fillv (Z.to_nat pm)) /\
            buf_size st' = pm /\ buf_head st' = 0)
       | SEQ_OP_UPSAMPLE => param_main st' = pm /\ remaining st' = 0
       | SEQ_OP_DOWNSAMPLE => param_main st' = pm /\ counter st' = 0
       | SEQ_OP_DIFF => has_last st' = 0
       | SEQ_OP_CUMSUM => acc st' = 0%float
       | SEQ_OP_PAD_BACK | SEQ_OP_ADVANCE | SEQ_OP_REVERSE => True
       end).
Proof.
  intros mem_ok s o pm pa fillv Hpm Hdelay.
  pose proof size_max_value as Hm. pose proof size_max_div8 as Hm8.
  unfold seq_stream_init, init_code. cbn [seq_stream_reset].
  destruct o;
    try (eexists; split; [reflexivity|]; step_simpl;
         repeat split; try discriminate; congruence).
  - (* delay *)
    specialize (Hdelay eq_refl).
    destruct (Z.eqb_spec pm 0) as [->|Hnz]; cbn [orb].
    + eexists. split; [reflexivity|]. step_simpl.
      split; [reflexivity|]. split; [reflexivity|].
      split; [intros _; split; [reflexivity|now left]|].
      split; [congruence|].
      intros _. split; [reflexivity|]. split; [reflexivity|].
      intros Hne. now contradiction Hne.
    + unfold malloc_doubles. destruct mem_ok.
      * replace (Size.mul pm 8 / 8) with pm
          by (size_arith; symmetry; apply Z.div_mul; lia).
        step_simpl.
        rewrite (for_lt_fill _ (fun _ => fillv) (zeros pm) pm).
        -- cbn [bind ret]. eexists. split; [reflexivity|]. step_simpl.
           split; [reflexivity|]. split; [reflexivity|].
           split.
           { intros _. split; [reflexivity|].
             right. eexists. split; [reflexivity|]. step_simpl.
             rewrite length_map, indices_length. lia. }
           split; [congruence|].
           intros _. split; [reflexivity|]. split; [intros E; lia|].
           intros _. unfold indices. rewrite map_const_zrange.
           repeat split.
        -- rewrite zeros_length; lia.
        -- intros i a Hi Ha. reflexivity.
      * eexists. split; [reflexivity|]. step_simpl.
        repeat split; congruence.
  - (* upsample *)
    destruct (Z.eqb_spec pm 0) as [->|Hnz];
      eexists; (split; [reflexivity|]); unfold stream_wf; step_simpl;
      repeat split; try discriminate; congruence.
  - (* downsample *)
    destruct (Z.eqb_spec pm 0) as [->|Hnz];
      eexists; (split; [reflexivity|]); unfold stream_wf; step_simpl;
      repeat split; try discriminate; congruence.
Qed.

Lemma seq_stream_init_outcome_witness :
  (exists st',
     seq_stream_init true (Some reset_state) SEQ_OP_DELAY 3 0 7%float
     = Some (SEQ_OK, Some st') /\
     stream_wf st' /\ param_main st' = 3 /\
     buf st' = Some [7; 7; 7]%float /\ buf_size st' = 3 /\ buf_head st' = 0) /\
  (exists st',
     seq_stream_init false (Some reset_state) SEQ_OP_DELAY 3 0 7%float
     = Some (SEQ_ERR_NOMEM, Some st') /\
     active st' = 0 /\ buf st' = None).
Proof.
  split.
  - destruct (seq_stream_init_outcome true reset_state SEQ_OP_DELAY 3 0 7%float)
      as (st' & Hrun & _ & _ & Hwf & _ & Hok).
    + lia.
    + intros _. rewrite size_max_div8. lia.
    + exists st'. split; [exact Hrun|].
      split; [exact (Hwf eq_refl)|].
      destruct (Hok eq_refl) as (Hpm & _ & Hbuf).
      split; [exact Hpm|]. apply Hbuf. discriminate.
  - destruct (seq_stream_init_outcome false reset_state SEQ_OP_DELAY 3 0 7%float)
      as (st' & Hrun & _ & _ & _ & Herr & _).
    + lia.
    + intros _. rewrite size_max_div8. lia.
    + exists st'. split; [exact Hrun|]. apply Herr. discriminate.
Defined.

(** A filling loop that runs past the end of its block. *)
Lemma for_range_fill_overflow (n : nat) :
  forall (lo : Z) (l : array) (v : float),
    0 <= lo <= Z.of_nat (List.length l) ->
    Z.of_nat (List.length l) < lo + Z.of_nat n ->
    for_range n lo (fun i b => ptr_set b i v) (Some l) = None.
Proof.
  induction n as [|n IH]; intros lo l v Hlo Hn; [lia|].
  cbn [for_range ptr_set].
  destruct (Z.eq_dec lo (Z.of_nat (List.length l))) as [E|E].
  - unfold arr_set, in_bounds. rewrite E, Z.ltb_irrefl, andb_false_r.
    reflexivity.
  - rewrite arr_set_in_range by lia. cbn [bind ret].
    apply IH; rewrite set_length by lia; lia.
Qed.

(** X16.  For a delay larger than [SIZE_MAX / 8] the byte count
    [param_main * sizeof(double)] handed to [malloc] wraps around; when
    [malloc] returns a block for the wrapped size, the loop that fills
    [buf_size = param_main] cells writes past the end of that block. *)
Theorem seq_stream_init_delay_overflow :
  forall (s : seq_stream_t) (pm pa : Z) (fillv : float),
    Size.max / 8 < pm <= Size.max ->
    seq_stream_init true (Some s) SEQ_OP_DELAY pm pa fillv = None.
Proof.
  intros s pm pa fillv Hpm.
  pose proof size_max_value as Hm. pose proof size_max_div8 as Hm8.
  unfold seq_stream_init. cbn [seq_stream_reset].
  destruct (Z.eqb_spec pm 0) as [E|_]; [lia|].
  unfold malloc_doubles. step_simpl. unfold for_lt.
  assert (Hblk : 0 <= Size.mul pm 8 / 8 <= Size.max / 8).
  { unfold Size.mul, Size.wrap.
    pose proof (Z.mod_pos_bound (pm * 8) Size.modulus ltac:(reflexivity)) as Hb.
    split; [apply Z.div_pos; lia|].
    apply Z.div_le_mono; [lia|]. unfold Size.max. lia. }
  rewrite for_range_fill_overflow; [reflexivity| |];
    rewrite zeros_length by lia; lia.
Qed.

Lemma seq_stream_init_delay_overflow_witness :
  seq_stream_init true (Some reset_state) SEQ_OP_DELAY (2 ^ 61) 0 0%float = None.
Proof.
  apply (seq_stream_init_delay_overflow reset_state (2 ^ 61) 0 0%float).
  rewrite size_max_div8, size_max_value. lia.
Defined.

(** A step on a live stream keeps it live and well-formed. *)
Lemma stream_step_wf :
  forall (s : seq_stream_t) (has_input : Z) (x y : float) (ho : Z),
    stream_wf s ->
    exists r s',
      seq_stream_step (Some s) has_input x (Some y) (Some ho) = Some r /\
      st_out r = Some s' /\ stream_wf s' /\ op s' = op s /\
      (has_output_out r = Some 0 \/ has_output_out r = Some 1) /\
      (rc r = SEQ_OK \/
       (rc r = SEQ_ERR_STATE /\ has_input <> 0 /\ 0 < remaining s /\
        (op s = SEQ_OP_PAD_FRONT \/ op s = SEQ_OP_UPSAMPLE))).
Proof.
  intros s has_input x y ho Hwf.
  pose proof size_max_value as Hm.
  pose proof Hwf as [Hact Hop].
  unfold seq_stream_step. rewrite Hact, truthy_1. cbn [negb].
  unfold truthy.
  destruct (op s) eqn:Eop; try contradiction.
  - (* pad-front *)
    destruct (Z.ltb_spec 0 (remaining s)) as [Hr|Hr];
      destruct (Z.eqb_spec has_input 0) as [Hi|Hi]; cbn [negb];
      eexists; eexists; (split; [reflexivity|]); step_simpl;
      (split; [reflexivity|]); unfold stream_wf; step_simpl;
      rewrite ?Eop; intuition congruence.
  - (* delay *)
    destruct (Z.eqb_spec has_input 0) as [Hi|Hi]; cbn [negb].
    { eexists; eexists; (split; [reflexivity|]); step_simpl.
      split; [reflexivity|]. intuition congruence. }
    destruct (Z.eqb_spec (param_main s) 0) as [Hz|Hnz].
    { eexists; eexists; (split; [reflexivity|]); step_simpl.
      split; [reflexivity|]. intuition congruence. }
    destruct Hop as [Hz | (b & Hbuf & Hlen & Hh & Hmax)]; [contradiction|].
    rewrite Hbuf. cbn [ptr_get ptr_set].
    rewrite arr_get_in_range, arr_set_in_range by lia. cbn [bind ret].
    eexists; eexists; (split; [reflexivity|]); step_simpl.
    split; [reflexivity|]. unfold stream_wf; step_simpl. rewrite Eop.
    repeat split; auto.
    right. eexists. split; [reflexivity|].
    rewrite set_length by lia.
    replace (Size.incr (buf_head s)) with (buf_head s + 1)
      by (size_arith; reflexivity).
    destruct (Z.leb_spec (buf_size s) (buf_head s + 1)); lia.
  - (* upsample *)
    destruct (Z.ltb_spec 0 (remaining s)) as [Hr|Hr];
      destruct (Z.eqb_spec has_input 0) as [Hi|Hi]; cbn [negb];
      try destruct (Z.ltb_spec 1 (param_main s));
      eexists; eexists; (split; [reflexivity|]); step_simpl;
      (split; [reflexivity|]); unfold stream_wf; step_simpl;
      rewrite ?Eop; intuition congruence.
  - (* downsample *)
    destruct (Z.eqb_spec has_input 0) as [Hi|Hi]; cbn [negb].
    { eexists; eexists; (split; [reflexivity|]); step_simpl.
      split; [reflexivity|]. intuition congruence. }
    destruct (Z.eqb_spec (param_main s) 0) as [Hz|Hnz]; [contradiction|].
    destruct (counter s mod param_main s =? 0);
      eexists; eexists; (split; [reflexivity|]); step_simpl;
      (split; [reflexivity|]); unfold stream_wf; step_simpl;
      rewrite ?Eop; intuition congruence.
  - (* diff *)
    destruct (Z.eqb_spec has_input 0) as [Hi|Hi]; cbn [negb];
      try destruct (has_last s =? 0); cbn [negb];
      eexists; eexists; (split; [reflexivity|]); step_simpl;
      (split; [reflexivity|]); unfold stream_wf; step_simpl;
      rewrite ?Eop; intuition congruence.
  - (* cumsum *)
    destruct (Z.eqb_spec has_input 0) as [Hi|Hi]; cbn [negb];
      eexists; eexists; (split; [reflexivity|]); step_simpl;
      (split; [reflexivity|]); unfold stream_wf; step_simpl;
      rewrite ?Eop; intuition congruence.
Qed.

(** A step without input on a stream that holds nothing back. *)
Lemma flush_step_noop :
  forall (s : seq_stream_t) (x : float) (y : option float) (ho : Z),
    active s <> 0 -> flush_free (op s) = true ->
    seq_stream_step (Some s) 0 x y (Some ho)
    = Some (mk_step SEQ_OK (Some s) y (Some 0)).
Proof.
  intros s x y ho Hact Hop. unfold seq_stream_step, truthy.
  destruct (Z.eqb_spec (active s) 0) as [E|_]; [contradiction|]. cbn [negb].
  destruct (op s); try discriminate Hop; reflexivity.
Qed.

(** X17.  A step on a live, well-formed stream, with non-null [y] and
    [has_output], never reads or writes outside the delay buffer and leaves
    the stream live and well-formed, with the same operator.  It fails in
    one case only: [SEQ_ERR_STATE] when a sample is offered to a pad-front
    or upsample stream that still has zeros to deliver; every other step
    returns [SEQ_OK], and [*has_output] is left at 0 or 1.  A step without
    input on a delay, downsample, diff or cumsum stream changes nothing and
    has no output: the samples still held in the ring buffer of a delay
    stream are never delivered.  Every sample offered to a pad-front or
    upsample stream that still has zeros to deliver is refused: the step
    returns [SEQ_ERR_STATE], sets [*has_output] to 0 and leaves the state
    and [*y] as they were. *)
Theorem stream_step_safe :
  forall (s : seq_stream_t) (has_input : Z) (x y : float) (ho : Z),
    stream_wf s ->
    exists r s',
      seq_stream_step (Some s) has_input x (Some y) (Some ho) = Some r /\
      st_out r = Some s' /\ stream_wf s' /\ op s' = op s /\
      (has_output_out r = Some 0 \/ has_output_out r = Some 1) /\
      (rc r = SEQ_OK \/
       (rc r = SEQ_ERR_STATE /\ has_input <> 0 /\ 0 < remaining s /\
        (op s = SEQ_OP_PAD_FRONT \/ op s = SEQ_OP_UPSAMPLE))) /\
      (has_input = 0 -> flush_free (op s) = true ->
       r = mk_step SEQ_OK (Some s) (Some y) (Some 0)) /\
      (has_input <> 0 -> 0 < remaining s ->
       op s = SEQ_OP_PAD_FRONT \/ op s = SEQ_OP_UPSAMPLE ->
       r = mk_step SEQ_ERR_STATE (Some s) (Some y) (Some 0)).
Proof.
  intros s has_input x y ho Hwf.
  destruct (stream_step_wf s has_input x y ho Hwf)
    as (r & s' & Hrun & Hst & Hwf' & Hop & Hho & Hrc).
  assert (Hact : active s <> 0)
    by (destruct Hwf as [Hact _]; rewrite Hact; discriminate).
  exists r, s'. repeat (split; [assumption|]).
  split.
  - intros -> Hfree.
    rewrite flush_step_noop in Hrun; [congruence|exact Hact|exact Hfree].
  - intros Hin Hrem Hpend.
    rewrite (step_rejects_input_while_zeros_pending s has_input x (Some y) ho
               Hact Hpend Hrem Hin) in Hrun.
    congruence.
Qed.

Lemma stream_step_safe_witness :
  let s := set_active 1
             (set_buf_size 2
                (set_buf (Some [7; 8]%float)
                   (set_param_main 2 (set_op SEQ_OP_DELAY reset_state)))) in
  let p := set_active 1
             (set_remaining 3
                (set_param_main 3 (set_op SEQ_OP_PAD_FRONT reset_state))) in
  (exists r s',
     seq_stream_step (Some s) 1 5%float (Some 0%float) (Some 0) = Some r /\
     st_out r = Some s' /\ stream_wf s' /\ rc r = SEQ_OK) /\
  seq_stream_step (Some p) 1 5%float (Some 9%float) (Some 1)
  = Some (mk_step SEQ_ERR_STATE (Some p) (Some 9%float) (Some 0)).
Proof.
  intros s p. split.
  - destruct (stream_step_safe s 1 5%float 0%float 0)
      as (r & s' & Hrun & Hst & Hwf & _ & _ & Hrc & _).
    + split; [reflexivity|]. right. exists [7; 8]%float.
      unfold s. step_simpl. rewrite size_max_value.
      repeat split; cbn; try lia; discriminate.
    + exists r, s'. split; [exact Hrun|]. split; [exact Hst|].
      split; [exact Hwf|].
      destruct Hrc as [Hrc | (_ & _ & Hrem & _)]; [exact Hrc|].
      cbn in Hrem. lia.
  - destruct (stream_step_safe p 1 5%float 9%float 1)
      as (r & s' & Hrun & _ & _ & _ & _ & _ & _ & Hrej).
    + split; [reflexivity|]. exact I.
    + rewrite Hrun. f_equal. apply Hrej.
      * discriminate.
      * cbn. lia.
      * left. reflexivity.
Defined.

(** X18.  After [seq_stream_dispose] the state is inactive and owns no
    buffer; every later step is refused with [SEQ_ERR_STATE] and changes
    nothing, and disposing again changes nothing. *)
Theorem dispose_ends_stream :
  forall (s : seq_stream_t) (has_input : Z) (x : float) (y : option float)
         (ho : Z),
    exists d,
      seq_stream_dispose (Some s) = Some d /\
      active d = 0 /\ buf d = None /\
      seq_stream_step (Some d) has_input x y (Some ho)
      = Some (mk_step SEQ_ERR_STATE (Some d) y (Some ho)) /\
      seq_stream_dispose (Some d) = Some d.
Proof.
  intros s has_input x y ho. eexists. split; [reflexivity|].
  repeat split.
Qed.

(** X19.  [cli_run_stream] ends with exit status 1 and prints no sample
    when the operator cannot stream (pad-back, advance, reverse), when the
    factor of a resampler is 0, and when the buffer of a non-zero delay
    cannot be allocated. *)
Theorem cli_run_stream_refusals :
  forall (mem_ok : bool) (fuel : nat) (o : seq_op_type) (pm : Z)
         (fillv : float) (tokens : list float),
    streaming_op o = false \/
    ((o = SEQ_OP_UPSAMPLE \/ o = SEQ_OP_DOWNSAMPLE) /\ pm = 0) \/
    (o = SEQ_OP_DELAY /\ pm <> 0 /\ mem_ok = false) ->
    cli_run_stream mem_ok fuel o pm fillv tokens = Some (Some (1, [])).
Proof.
  intros mem_ok fuel o pm fillv tokens [H|[[Ho ->]|(-> & Hpm & ->)]].
  - destruct o; try discriminate H; reflexivity.
  - destruct Ho as [-> | ->]; reflexivity.
  - unfold cli_run_stream, seq_stream_init. cbn [seq_online_capable truthy
      Z.eqb negb seq_stream_reset].
    destruct (Z.eqb_spec pm 0) as [E|_]; [contradiction|]. reflexivity.
Qed.

Lemma cli_run_stream_refusals_witness :
  cli_run_stream true 5 SEQ_OP_REVERSE 0 0%float [1; 2]%float
  = Some (Some (1, [])).
Proof.
  apply (cli_run_stream_refusals true 5 SEQ_OP_REVERSE 0 0%float [1; 2]%float).
  left. reflexivity.
Defined.

(* ------------------------------------------------------------------ *)
(** ** Downsampling a stream of any length *)

Lemma downsample_from_app (f : Z) (a b : list float) :
  forall c,
    downsample_from c f (a ++ b)
    = downsample_from c f a ++ downsample_from (c + Z.of_nat (List.length a)) f b.
Proof.
  induction a as [|x a IH]; intros c.
  - cbn. now rewrite Z.add_0_r.
  - cbn [app downsample_from List.length]. rewrite IH.
    replace (c + 1 + Z.of_nat (List.length a))
      with (c + Z.of_nat (Datatypes.S (List.length a))) by lia.
    destruct (c mod f =? 0); reflexivity.
Qed.

(** Fewer than [f] samples met at a multiple of [f]: only the first one
    goes through. *)
Lemma downsample_from_tail (f : Z) (t : list float) (c : Z) :
  0 < f -> c mod f = 0 -> Z.of_nat (List.length t) < f ->
  downsample_from c f t
  = match t with [] => [] | x :: _ => [x] end.
Proof.
  intros Hf Hc Hlen. destruct t as [|x t]; [reflexivity|].
  cbn [downsample_from]. rewrite Hc. cbn [Z.eqb]. f_equal.
  rewrite <- (app_nil_r t). rewrite downsample_skip; [reflexivity|].
  intros j Hj. cbn [List.length] in Hlen.
  replace (c + 1 + j) with (j + 1 + c) by lia.
  rewrite <- Z.add_mod_idemp_r, Hc, Z.add_0_r by lia.
  rewrite Z.mod_small by lia. lia.
Qed.

Lemma downsample_from_general (f : Z) (xs : list float) :
  0 < f ->
  let n := Z.of_nat (List.length xs) in
  downsample_from 0 f xs
  = downsample_spec f xs
    ++ (if n mod f =? 0 then [] else [sample xs (n / f * f)]).
Proof.
  intros Hf n.
  pose proof (Z.div_mod n f ltac:(lia)) as Hdm.
  pose proof (Z.mod_pos_bound n f Hf) as Hr.
  assert (Hq : 0 <= n / f) by (apply Z.div_pos; lia).
  set (k := Z.to_nat (n / f * f)).
  assert (Hk : Z.of_nat k = n / f * f) by (unfold k; nia).
  assert (Hsplit : xs = firstn k xs ++ skipn k xs)
    by (symmetry; apply firstn_skipn).
  assert (Hla : Z.of_nat (List.length (firstn k xs)) = n / f * f)
    by (rewrite length_firstn; fold n; lia).
  assert (Hlt : Z.of_nat (List.length (skipn k xs)) = n mod f)
    by (rewrite length_skipn; fold n; lia).
  rewrite Hsplit at 1. rewrite downsample_from_app.
  rewrite (downsample_from_spec f (Z.to_nat (n / f))); [|lia| |reflexivity].
  2:{ rewrite Hla. lia. }
  rewrite Z.add_0_l, downsample_from_tail; [|lia| |lia].
  2:{ rewrite Hla. apply Z.mod_mul. lia. }
  f_equal.
  - unfold downsample_spec. fold n. rewrite Hla, Z.div_mul by lia.
    apply map_ext_in. intros i Hi. apply zrange_In in Hi.
    rewrite Hsplit at 2. symmetry. apply sample_app_l. nia.
  - destruct (Z.eqb_spec (n mod f) 0) as [E|E].
    + destruct (skipn k xs); [reflexivity|cbn [List.length] in Hlt; lia].
    + destruct (skipn k xs) as [|x t] eqn:Es; [cbn [List.length] in Hlt; lia|].
      f_equal. rewrite Hsplit.
      replace (n / f * f) with (Z.of_nat (List.length (firstn k xs)) + 0) by lia.
      rewrite sample_app_shift by lia. reflexivity.
Qed.

(** X20.  For any number of samples, the downsampling stream driven by
    [cli_run_stream] prints the samples [x[0], x[f], x[2f], ...]: the
    result of the batch [seq_downsample] (the first [len / f] of them) and,
    when [len] is not a multiple of [f], one more sample,
    [x[f * (len / f)]], which the batch operator leaves out. *)
Theorem stream_downsample_any_length :
  forall (fuel : nat) (f : Z) (fillv : float) (xs : list float),
    (0 < fuel)%nat -> 0 < f <= Size.max ->
    Z.of_nat (List.length xs) <= Size.max ->
    let n := Z.of_nat (List.length xs) in
    cli_run_stream true fuel SEQ_OP_DOWNSAMPLE f fillv xs
    = Some (Some (0, downsample_spec f xs
                       ++ (if n mod f =? 0 then []
                           else [sample xs (n / f * f)]))).
Proof.
  intros fuel f fillv xs Hfuel Hf Hlen n.
  assert (Hidle : forall a s, downsample_state f a s -> idle s).
  { intros a s (Hact & Hop & _). split; [exact Hact|]. now rewrite Hop. }
  assert (Hinit : exists s0,
             seq_stream_init true (Some reset_state) SEQ_OP_DOWNSAMPLE f 0 fillv
             = Some (SEQ_OK, Some s0) /\ downsample_state f 0 s0).
  { unfold seq_stream_init. cbn [seq_stream_reset].
    destruct (Z.eqb_spec f 0) as [E|_]; [lia|].
    eexists. split; [reflexivity|]. repeat split. }
  destruct Hinit as (s0 & Hinit & HR0).
  unfold n. rewrite <- (downsample_from_general f xs) by lia.
  rewrite <- (downsample_run f xs 0) by lia.
  apply (cli_run_stream_sim (downsample_machine f) (downsample_state f)
           fuel SEQ_OP_DOWNSAMPLE f fillv xs [] s0 0 eq_refl Hinit).
  - apply flush_start_idle; eauto.
  - apply step_then_idle_flush; auto using downsample_step.
    apply downsample_step. lia.
Qed.

Lemma stream_downsample_any_length_witness :
  cli_run_stream true 1 SEQ_OP_DOWNSAMPLE 2 0%float [1; 2; 3]%float
  = Some (Some (0, [1; 3]%float)).
Proof.
  refine (stream_downsample_any_length 1 2 0%float [1; 2; 3]%float _ _ _).
  - lia.
  - rewrite size_max_value. lia.
  - rewrite size_max_value. cbn. lia.
Defined.

(* ------------------------------------------------------------------ *)
(** ** Point-wise sum and product ([src/3/src/ops.c]) *)

Lemma pointwise_indices (f : float -> float -> float) (xs : list float) :
  forall ys,
    map (fun i => f (sample xs i) (sample ys i))
      (indices (Z.min (Z.of_nat (List.length xs)) (Z.of_nat (List.length ys))))
    = pointwise f xs ys.
Proof.
  induction xs as [|x xs IH]; intros ys.
  - rewrite Z.min_l by (cbn [List.length]; lia). reflexivity.
  - destruct ys as [|y ys].
    + rewrite Z.min_r by (cbn [List.length]; lia). reflexivity.
    + replace (Z.min (Z.of_nat (List.length (x :: xs)))
                 (Z.of_nat (List.length (y :: ys))))
        with (Z.of_nat (Datatypes.S
                (Z.to_nat (Z.min (Z.of_nat (List.length xs))
                                 (Z.of_nat (List.length ys))))))
        by (cbn [List.length]; lia).
      unfold indices. rewrite Nat2Z.id. cbn [zrange map].
      unfold pointwise. cbn [combine map fst snd].
      fold (pointwise f xs ys). f_equal.
      rewrite map_zrange_succ. rewrite <- (IH ys). unfold indices.
      apply map_ext_in. intros i Hi. apply zrange_In in Hi.
      rewrite !sample_cons by lia. reflexivity.
Qed.

Lemma pointwise_length (f : float -> float -> float) (xs ys : list float) :
  Z.of_nat (List.length (pointwise f xs ys))
  = Z.min (Z.of_nat (List.length xs)) (Z.of_nat (List.length ys)).
Proof. unfold pointwise. rewrite length_map, length_combine. lia. Qed.

(** The common course of [seq_add] and [seq_mul]. *)
Lemma pointwise_run (f : float -> float -> float) (mem_ok : bool)
    (a b out : SeqOps.seq_t) :
  seq3_wf a -> seq3_wf b ->
  let n := Z.min (SeqOps.length a) (SeqOps.length b) in
  n = 0 \/ calloc_doubles mem_ok n <> None ->
  (if n =? 0
   then SeqOps.with_init (SeqOps.seq_init mem_ok (Some out) 0) (fun p => ret p)
   else SeqOps.with_init (SeqOps.seq_init mem_ok (Some out) n) (fun p =>
          for_lt 0 n
            (fun i p =>
               ai <- ptr_get (SeqOps.data a) i ;;
               bi <- ptr_get (SeqOps.data b) i ;;
               ptr_set p i (f ai bi))
            p))
  = Some (0, Some (SeqOps.mk_seq
                     (if n =? 0 then None
                      else Some (pointwise f (seq3_samples a) (seq3_samples b)))
                     n)).
Proof.
  intros Ha Hb n Halloc.
  destruct (Z.eqb_spec n 0) as [E|E]; [rewrite E; reflexivity|].
  destruct Halloc as [Halloc|Halloc]; [contradiction|].
  assert (Hla : 0 < SeqOps.length a)
    by (destruct Ha, Hb; unfold n in E; lia).
  assert (Hlb : 0 < SeqOps.length b)
    by (destruct Ha, Hb; unfold n in E; lia).
  destruct (seq3_data_nonempty a Ha Hla) as [Ea Elena].
  destruct (seq3_data_nonempty b Hb Hlb) as [Eb Elenb].
  unfold SeqOps.seq_init.
  destruct (Z.eqb_spec n 0) as [E0|_]; [contradiction|].
  rewrite (calloc_doubles_some _ _ Halloc).
  cbn [SeqOps.with_init SeqOps.data SeqOps.length].
  rewrite (for_lt_fill _
             (fun i => f (sample (seq3_samples a) i) (sample (seq3_samples b) i))
             (zeros n)).
  - cbn [bind ret]. rewrite <- pointwise_indices, Elena, Elenb.
    reflexivity.
  - rewrite zeros_length; lia.
  - intros i p Hi Hp. rewrite Ea, Eb.
    rewrite !ptr_get_sample by lia. reflexivity.
Qed.

Lemma min_as_code (x y : Z) : (if x <? y then x else y) = Z.min x y.
Proof. destruct (Z.ltb_spec x y); lia. Qed.

(** X21.  On well-formed sequences, when the output block can be
    allocated, [seq_add] returns 0; the output has [min(len a, len b)]
    samples, [y[i] = a[i] + b[i]].  When one of the two is empty the
    output is empty and nothing is allocated. *)
Theorem seq_add_correct :
  forall (mem_ok : bool) (a b out : SeqOps.seq_t),
    seq3_wf a -> seq3_wf b ->
    let n := Z.min (SeqOps.length a) (SeqOps.length b) in
    n = 0 \/ calloc_doubles mem_ok n <> None ->
    exists y,
      SeqOps.seq_add mem_ok (Some a) (Some b) (Some out) = Some (0, Some y) /\
      SeqOps.length y = n /\
      seq3_samples y = pointwise PrimFloat.add (seq3_samples a) (seq3_samples b) /\
      Z.of_nat (List.length (seq3_samples y)) = n /\
      (forall i, 0 <= i < n ->
                 sample (seq3_samples y) i
                 = (sample (seq3_samples a) i + sample (seq3_samples b) i)%float) /\
      (n = 0 -> y = SeqOps.mk_seq None 0).
Proof.
  intros mem_ok a b out Ha Hb n Halloc.
  pose proof (pointwise_run PrimFloat.add mem_ok a b out Ha Hb Halloc) as Hrun.
  fold n in Hrun.
  assert (Hlen : Z.of_nat (List.length (pointwise PrimFloat.add
                                          (seq3_samples a) (seq3_samples b))) = n).
  { rewrite pointwise_length. unfold n.
    destruct Ha as [Hda _], Hb as [Hdb _]. unfold seq3_samples.
    destruct (SeqOps.data a), (SeqOps.data b); cbn [List.length]; lia. }
  set (pw := pointwise PrimFloat.add (seq3_samples a) (seq3_samples b)) in *.
  exists (SeqOps.mk_seq (if n =? 0 then None else Some pw) n).
  assert (Hys : seq3_samples
                  (SeqOps.mk_seq (if n =? 0 then None else Some pw) n) = pw).
  { unfold seq3_samples. cbn [SeqOps.data].
    destruct (Z.eqb_spec n 0) as [E|E]; [|reflexivity].
    destruct pw; [reflexivity|cbn [List.length] in Hlen; lia]. }
  split.
  { unfold SeqOps.seq_add. cbv zeta. rewrite min_as_code. fold n. exact Hrun. }
  split; [reflexivity|]. split; [exact Hys|]. rewrite Hys.
  split; [exact Hlen|]. split.
  - intros i Hi. unfold pw. rewrite <- pointwise_indices.
    rewrite sample_map_indices; [reflexivity|].
    rewrite <- (pointwise_length PrimFloat.add). fold pw. lia.
  - intros E. destruct (Z.eqb_spec n 0) as [E0|E0]; [|contradiction].
    f_equal. exact E.
Qed.

Lemma seq_add_correct_witness :
  exists y,
    SeqOps.seq_add true
      (Some (SeqOps.mk_seq (Some [1; 2; 3]%float) 3))
      (Some (SeqOps.mk_seq (Some [10; 20]%float) 2))
      (Some (SeqOps.mk_seq None 0)) = Some (0, Some y) /\
    seq3_samples y = [1 + 10; 2 + 20]%float.
Proof.
  destruct (seq_add_correct true
              (SeqOps.mk_seq (Some [1; 2; 3]%float) 3)
              (SeqOps.mk_seq (Some [10; 20]%float) 2)
              (SeqOps.mk_seq None 0))
    as (y & Hrun & _ & Hs & _).
  - unfold seq3_wf; cbn; lia.
  - unfold seq3_wf; cbn; lia.
  - right. discriminate.
  - exists y. split; [exact Hrun | exact Hs].
Defined.

(** X22.  On well-formed sequences, when the output block can be
    allocated, [seq_mul] returns 0; the output has [min(len a, len b)]
    samples, [y[i] = a[i] * b[i]].  When one of the two is empty the
    output is empty and nothing is allocated. *)
Theorem seq_mul_correct :
  forall (mem_ok : bool) (a b out : SeqOps.seq_t),
    seq3_wf a -> seq3_wf b ->
    let n := Z.min (SeqOps.length a) (SeqOps.length b) in
    n = 0 \/ calloc_doubles mem_ok n <> None ->
    exists y,
      SeqOps.seq_mul mem_ok (Some a) (Some b) (Some out) = Some (0, Some y) /\
      SeqOps.length y = n /\
      seq3_samples y = pointwise PrimFloat.mul (seq3_samples a) (seq3_samples b) /\
      Z.of_nat (List.length (seq3_samples y)) = n /\
      (forall i, 0 <= i < n ->
                 sample (seq3_samples y) i
                 = (sample (seq3_samples a) i * sample (seq3_samples b) i)%float) /\
      (n = 0 -> y = SeqOps.mk_seq None 0).
Proof.
  intros mem_ok a b out Ha Hb n Halloc.
  pose proof (pointwise_run PrimFloat.mul mem_ok a b out Ha Hb Halloc) as Hrun.
  fold n in Hrun.
  assert (Hlen : Z.of_nat (List.length (pointwise PrimFloat.mul
                                          (seq3_samples a) (seq3_samples b))) = n).
  { rewrite pointwise_length. unfold n.
    destruct Ha as [Hda _], Hb as [Hdb _]. unfold seq3_samples.
    destruct (SeqOps.data a), (SeqOps.data b); cbn [List.length]; lia. }
  set (pw := pointwise PrimFloat.mul (seq3_samples a) (seq3_samples b)) in *.
  exists (SeqOps.mk_seq (if n =? 0 then None else Some pw) n).
  assert (Hys : seq3_samples
                  (SeqOps.mk_seq (if n =? 0 then None else Some pw) n) = pw).
  { unfold seq3_samples. cbn [SeqOps.data].
    destruct (Z.eqb_spec n 0) as [E|E]; [|reflexivity].
    destruct pw; [reflexivity|cbn [List.length] in Hlen; lia]. }
  split.
  { unfold SeqOps.seq_mul. cbv zeta. rewrite min_as_code. fold n. exact Hrun. }
  split; [reflexivity|]. split; [exact Hys|]. rewrite Hys.
  split; [exact Hlen|]. split.
  - intros i Hi. unfold pw. rewrite <- pointwise_indices.
    rewrite sample_map_indices; [reflexivity|].
    rewrite <- (pointwise_length PrimFloat.mul). fold pw. lia.
  - intros E. destruct (Z.eqb_spec n 0) as [E0|E0]; [|contradiction].
    f_equal. exact E.
Qed.

Lemma seq_mul_correct_witness :
  exists y,
    SeqOps.seq_mul true
      (Some (SeqOps.mk_seq (Some [1; 2; 3]%float) 3))
      (Some (SeqOps.mk_seq (Some [10; 20]%float) 2))
      (Some (SeqOps.mk_seq None 0)) = Some (0, Some y) /\
    seq3_samples y = [1 * 10; 2 * 20]%float.
Proof.
  destruct (seq_mul_correct true
              (SeqOps.mk_seq (Some [1; 2; 3]%float) 3)
              (SeqOps.mk_seq (Some [10; 20]%float) 2)
              (SeqOps.mk_seq None 0))
    as (y & Hrun & _ & Hs & _).
  - unfold seq3_wf; cbn; lia.
  - unfold seq3_wf; cbn; lia.
  - right. discriminate.
  - exists y. split; [exact Hrun | exact Hs].
Defined.

(* ------------------------------------------------------------------ *)
(** ** The sliding window as a queue *)

Lemma sample_set (l : list float) (i : nat) (v : float) (j : Z) :
  (i < List.length l)%nat -> 0 <= j ->
  sample (firstn i l ++ v :: skipn (Datatypes.S i) l) j
  = if j =? Z.of_nat i then v else sample l j.
Proof.
  intros Hi Hj. unfold sample.
  destruct (Z.eqb_spec j (Z.of_nat i)) as [E|E].
  - subst j. rewrite Nat2Z.id.
    rewrite app_nth2 by (rewrite length_firstn; lia).
    rewrite length_firstn.
    replace (i - Nat.min i (List.length l))%nat with 0%nat by lia.
    reflexivity.
  - destruct (Z.lt_ge_cases j (Z.of_nat i)).
    + rewrite app_nth1 by (rewrite length_firstn; lia). rewrite nth_firstn.
      destruct (Nat.ltb_spec (Z.to_nat j) i); [reflexivity|lia].
    + rewrite app_nth2 by (rewrite length_firstn; lia). rewrite length_firstn.
      replace (Z.to_nat j - Nat.min i (List.length l))%nat
        with (Datatypes.S (Z.to_nat j - i - 1)) by lia.
      cbn [nth]. rewrite nth_skipn. f_equal. lia.
Qed.

Lemma mod_distinct (a b N : Z) :
  0 < N -> 0 <= a < b -> b - a < N -> a mod N <> b mod N.
Proof.
  intros HN Hab Hd Heq.
  assert (H : (b - a) mod N = 0).
  { rewrite Zminus_mod, Heq, Z.sub_diag. apply Z.mod_0_l. lia. }
  rewrite Z.mod_small in H by lia. lia.
Qed.

(** One push, seen on the logical content of the window. *)
Lemma window_push_logical (w : SeqOps.seq_window_t) (x : float) :
  window_wf w -> SeqOps.buf w <> None ->
  exists w',
    SeqOps.seq_window_push (Some w) x = Some (Some w') /\
    window_wf w' /\ SeqOps.buf w' <> None /\
    SeqOps.capacity w' = SeqOps.capacity w /\
    SeqOps.count w' = Z.min (SeqOps.count w + 1) (SeqOps.capacity w) /\
    window_logical w'
    = (if SeqOps.count w <? SeqOps.capacity w then window_logical w
       else tl (window_logical w)) ++ [x].
Proof.
  intros Hwf Hbuf.
  pose proof size_max_value as Hm. pose proof size_max_div8 as Hm8.
  destruct w as [b N s c]. unfold window_wf in Hwf.
  cbn [SeqOps.buf SeqOps.capacity SeqOps.start SeqOps.count] in *.
  destruct b as [l|]; [|contradiction].
  destruct Hwf as [(Hlen & HN & Hs) Hc].
  unfold SeqOps.seq_window_push, window_logical.
  cbn [SeqOps.buf SeqOps.capacity SeqOps.start SeqOps.count].
  destruct (Z.eqb_spec N 0) as [E|_]; [lia|].
  destruct (Z.ltb_spec c N) as [Hlt|Hge].
  - (* room left *)
    cbn [SeqOps.buf SeqOps.capacity SeqOps.start SeqOps.count ptr_set].
    replace (Size.add s c) with (s + c) by (size_arith; reflexivity).
    replace (Size.incr c) with (c + 1) by (size_arith; reflexivity).
    pose proof (Z.mod_pos_bound (s + c) N ltac:(lia)) as Hidx.
    rewrite arr_set_in_range by lia. cbn [bind ret].
    eexists. split; [reflexivity|].
    unfold window_wf.
    cbn [SeqOps.buf SeqOps.capacity SeqOps.start SeqOps.count].
    rewrite set_length by lia.
    split; [repeat split; lia|]. split; [discriminate|].
    split; [reflexivity|]. split; [lia|].
    unfold indices.
    replace (Z.to_nat (c + 1)) with (Z.to_nat c + 1)%nat by lia.
    rewrite zrange_app, map_app. cbn [zrange map]. f_equal.
    + apply map_ext_in. intros i Hi. apply zrange_In in Hi.
      pose proof (Z.mod_pos_bound (s + i) N ltac:(lia)) as Hj.
      rewrite sample_set by lia. rewrite Z2Nat.id by lia.
      destruct (Z.eqb_spec ((s + i) mod N) ((s + c) mod N)) as [E|_];
        [|reflexivity].
      exfalso. revert E. apply mod_distinct; lia.
    + replace (s + (0 + Z.of_nat (Z.to_nat c))) with (s + c) by lia.
      rewrite sample_set by lia.
      rewrite Z2Nat.id by lia. rewrite Z.eqb_refl. reflexivity.
  - (* full: the oldest sample goes *)
    assert (c = N) by lia. subst c.
    cbn [SeqOps.buf SeqOps.capacity SeqOps.start SeqOps.count ptr_set].
    replace (Size.add s 1) with (s + 1) by (size_arith; reflexivity).
    rewrite arr_set_in_range by lia. cbn [bind ret].
    pose proof (Z.mod_pos_bound (s + 1) N ltac:(lia)) as Hst.
    eexists. split; [reflexivity|].
    unfold window_wf.
    cbn [SeqOps.buf SeqOps.capacity SeqOps.start SeqOps.count].
    rewrite set_length by lia.
    split; [repeat split; lia|]. split; [discriminate|].
    split; [reflexivity|]. split; [lia|].
    unfold indices.
    destruct (Z.to_nat N) as [|m] eqn:Em; [lia|].
    match goal with
    | |- _ = tl (map ?g (zrange 0 (Datatypes.S m))) ++ [x] =>
        change (tl (map g (zrange 0 (Datatypes.S m))))
          with (map g (zrange (0 + 1) m));
        rewrite (map_zrange_succ g 0 m)
    end.
    replace (Datatypes.S m) with (m + 1)%nat by lia.
    rewrite zrange_app, map_app. cbn [zrange map]. f_equal.
    + apply map_ext_in. intros i Hi. apply zrange_In in Hi.
      rewrite Z.add_mod_idemp_l by lia.
      pose proof (Z.mod_pos_bound (s + 1 + i) N ltac:(lia)) as Hj.
      rewrite sample_set by lia. rewrite Z2Nat.id by lia.
      destruct (Z.eqb_spec ((s + 1 + i) mod N) s) as [E|_].
      * exfalso. rewrite <- (Z.mod_small s N) in E at 2 by lia.
        symmetry in E. revert E. apply mod_distinct; lia.
      * f_equal. f_equal. lia.
    + rewrite Z.add_mod_idemp_l by lia.
      replace (s + 1 + (0 + Z.of_nat m)) with (s + 1 * N) by lia.
      rewrite Z.mod_add, Z.mod_small by lia.
      rewrite sample_set by lia.
      rewrite Z2Nat.id by lia. rewrite Z.eqb_refl. reflexivity.
Qed.

Lemma most_recent_app (N : Z) (a b : list float) :
  most_recent N (most_recent N a ++ b) = most_recent N (a ++ b).
Proof.
  unfold most_recent.
  rewrite !skipn_app, !length_app, !length_skipn, skipn_skipn.
  f_equal; f_equal; lia.
Qed.

Lemma most_recent_all (N : Z) (l : list float) :
  Z.of_nat (List.length l) <= N -> most_recent N l = l.
Proof.
  intros H. unfold most_recent.
  replace (List.length l - Z.to_nat N)%nat with 0%nat by lia. reflexivity.
Qed.

(** Appending to a queue of at most [N] entries and dropping the oldest
    one when it was full keeps the [N] most recent entries. *)
Lemma fifo_most_recent (N : Z) (l : list float) (x : float) :
  0 < N -> Z.of_nat (List.length l) <= N ->
  (if Z.of_nat (List.length l) <? N then l else tl l) ++ [x]
  = most_recent N (l ++ [x]).
Proof.
  intros HN Hl. unfold most_recent. rewrite length_app. cbn [List.length].
  destruct (Z.ltb_spec (Z.of_nat (List.length l)) N) as [Hlt|Hge].
  - replace (List.length l + 1 - Z.to_nat N)%nat with 0%nat by lia. reflexivity.
  - replace (List.length l + 1 - Z.to_nat N)%nat with 1%nat by lia.
    destruct l as [|h t]; [cbn [List.length] in Hge; lia|]. reflexivity.
Qed.

Lemma push_all_logical (xs : list float) :
  forall w : SeqOps.seq_window_t,
    window_wf w -> SeqOps.buf w <> None ->
    exists w',
      push_all (Some w) xs = Some (Some w') /\
      window_wf w' /\ SeqOps.buf w' <> None /\
      SeqOps.capacity w' = SeqOps.capacity w /\
      SeqOps.count w'
      = Z.min (SeqOps.count w + Z.of_nat (List.length xs)) (SeqOps.capacity w) /\
      window_logical w'
      = most_recent (SeqOps.capacity w) (window_logical w ++ xs).
Proof.
  induction xs as [|x t IH]; intros w Hwf Hbuf.
  - exists w. pose proof (window_logical_length w Hwf) as Hlen.
    pose proof Hwf as [_ Hc].
    split; [reflexivity|]. split; [exact Hwf|]. split; [exact Hbuf|].
    split; [reflexivity|]. split.
    + cbn [List.length]. lia.
    + rewrite app_nil_r. symmetry. apply most_recent_all. lia.
  - destruct (window_push_logical w x Hwf Hbuf)
      as (w1 & Hpush & Hwf1 & Hbuf1 & Hcap1 & Hcount1 & Hlog1).
    destruct (IH w1 Hwf1 Hbuf1)
      as (w' & Hrun & Hwf' & Hbuf' & Hcap' & Hcount' & Hlog').
    pose proof (window_logical_length w Hwf) as Hlen.
    pose proof Hwf as [Hb Hc].
    assert (HN : 0 < SeqOps.capacity w).
    { destruct (SeqOps.buf w); [lia|contradiction]. }
    exists w'. cbn [push_all]. rewrite Hpush. cbn [bind].
    split; [exact Hrun|]. split; [exact Hwf'|]. split; [exact Hbuf'|].
    split; [congruence|]. split.
    + rewrite Hcount', Hcount1, Hcap1. cbn [List.length]. lia.
    + rewrite Hlog', Hlog1, Hcap1. rewrite <- Hlen.
      rewrite fifo_most_recent by lia.
      rewrite most_recent_app, <- app_assoc. reflexivity.
Qed.

(** X23.  A push into an initialised window stores the sample as the
    newest entry: while the window is not full the entries so far stay and
    the count grows by one; once it is full the oldest entry is dropped and
    the count stays at the capacity.  The window invariant is kept. *)
Theorem seq_window_push_fifo :
  forall (w : SeqOps.seq_window_t) (x : float),
    window_wf w -> SeqOps.buf w <> None ->
    exists w',
      SeqOps.seq_window_push (Some w) x = Some (Some w') /\
      window_wf w' /\
      SeqOps.capacity w' = SeqOps.capacity w /\
      SeqOps.count w' = Z.min (SeqOps.count w + 1) (SeqOps.capacity w) /\
      window_logical w'
      = (if SeqOps.count w <? SeqOps.capacity w then window_logical w
         else tl (window_logical w)) ++ [x] /\
      SeqOps.seq_window_get (Some w') (SeqOps.count w' - 1) = Some x.
Proof.
  intros w x Hwf Hbuf.
  destruct (window_push_logical w x Hwf Hbuf)
    as (w' & Hpush & Hwf' & Hbuf' & Hcap' & Hcount' & Hlog').
  pose proof (window_logical_length w Hwf) as Hlen.
  pose proof (window_logical_length w' Hwf') as Hlen'.
  pose proof Hwf as [Hb Hc].
  assert (HN : 0 < SeqOps.capacity w).
  { destruct (SeqOps.buf w); [lia|contradiction]. }
  exists w'. split; [exact Hpush|]. split; [exact Hwf'|].
  split; [exact Hcap'|]. split; [exact Hcount'|]. split; [exact Hlog'|].
  rewrite window_get_logical by (auto; lia).
  f_equal. rewrite Hlog'.
  set (q := if SeqOps.count w <? SeqOps.capacity w then window_logical w
            else tl (window_logical w)) in *.
  assert (Hq : Z.of_nat (List.length q) = SeqOps.count w' - 1).
  { rewrite <- Hlen', Hlog', length_app. cbn [List.length]. lia. }
  replace (SeqOps.count w' - 1) with (Z.of_nat (List.length q) + 0) by lia.
  rewrite sample_app_shift by lia. reflexivity.
Qed.

Lemma seq_window_push_fifo_witness :
  let w := SeqOps.mk_window (Some [4; 2; 3]%float) 3 1 3 in
  exists w',
    SeqOps.seq_window_push (Some w) 9%float = Some (Some w') /\
    window_logical w' = [3; 4; 9]%float.
Proof.
  intro w.
  destruct (seq_window_push_fifo w 9%float) as (w' & Hpush & _ & _ & _ & Hlog & _).
  - unfold window_wf, w.
    cbn [SeqOps.buf SeqOps.capacity SeqOps.start SeqOps.count List.length].
    rewrite size_max_div8. lia.
  - discriminate.
  - exists w'. split; [exact Hpush | exact Hlog].
Defined.

(** X24.  After [seq_window_init] with capacity [N] and the pushes of the
    samples [xs], the window holds the [min(len xs, N)] most recent samples
    of [xs], oldest first, and [seq_window_get] returns them by index. *)
Theorem seq_window_keeps_most_recent :
  forall (mem_ok : bool) (w0 w : SeqOps.seq_window_t) (N : Z) (xs : list float),
    0 < N ->
    SeqOps.seq_window_init mem_ok (Some w0) N = (0, Some w) ->
    exists w',
      push_all (Some w) xs = Some (Some w') /\
      window_wf w' /\
      SeqOps.count w' = Z.min (Z.of_nat (List.length xs)) N /\
      window_logical w' = most_recent N xs /\
      forall i, 0 <= i < SeqOps.count w' ->
                SeqOps.seq_window_get (Some w') i
                = Some (sample (most_recent N xs) i).
Proof.
  intros mem_ok w0 w N xs HN Hinit.
  destruct (window_init_wf mem_ok w0 N w ltac:(lia) Hinit) as (Hwf & Hc & Hcap).
  assert (Hbuf : SeqOps.buf w <> None).
  { unfold SeqOps.seq_window_init in Hinit.
    destruct (Z.eqb_spec N 0); [lia|].
    destruct (calloc_doubles mem_ok N); [|discriminate].
    injection Hinit as <-. discriminate. }
  destruct (push_all_logical xs w Hwf Hbuf)
    as (w' & Hrun & Hwf' & _ & _ & Hcount' & Hlog').
  assert (Hnil : window_logical w = []).
  { pose proof (window_logical_length w Hwf) as Hl. rewrite Hc in Hl.
    destruct (window_logical w); [reflexivity|cbn [List.length] in Hl; lia]. }
  rewrite Hnil, Hcap in Hlog'. cbn [app] in Hlog'.
  exists w'. split; [exact Hrun|]. split; [exact Hwf'|]. split; [|split].
  - rewrite Hcount', Hc, Hcap. lia.
  - exact Hlog'.
  - intros i Hi. rewrite window_get_logical by assumption.
    now rewrite Hlog'.
Qed.

Lemma seq_window_keeps_most_recent_witness :
  exists w',
    push_all (Some (SeqOps.mk_window (Some (zeros 2)) 2 0 0)) [1; 2; 3]%float
    = Some (Some w') /\
    window_logical w' = [2; 3]%float.
Proof.
  destruct (seq_window_keeps_most_recent true (SeqOps.mk_window None 0 0 0)
              (SeqOps.mk_window (Some (zeros 2)) 2 0 0) 2 [1; 2; 3]%float)
    as (w' & Hrun & _ & _ & Hlog & _).
  - lia.
  - reflexivity.
  - exists w'. split; [exact Hrun | exact Hlog].
Defined.

(* ------------------------------------------------------------------ *)
(** ** The streaming correlation mode of the command line *)

(** What [seq_corr_window_norm] returns on two well-formed windows, in the
    form the loop of [cli_mode_corr_window] uses it. *)
Lemma corr_window_norm_value :
  forall (wa wb : SeqOps.seq_window_t) (out0 : float),
    window_wf wa -> window_wf wb ->
    let L := Z.min (SeqOps.count wa) (SeqOps.count wb) in
    let xs := most_recent L (window_logical wa) in
    let ys := most_recent L (window_logical wb) in
    SeqOps.seq_corr_window_norm (Some wa) (Some wb) (Some out0)
    = Some (if (SeqOps.count wa =? 0) || (SeqOps.count wb =? 0)
               || corr_undefined xs ys
            then (-1, Some out0)
            else (0, Some (pearson xs ys))).
Proof.
  intros wa wb out0 Hwa Hwb L xs ys.
  pose proof size_max_div8 as Hm8. pose proof size_max_value as Hm.
  pose proof (window_logical_length wa Hwa) as Hlena.
  pose proof (window_logical_length wb Hwb) as Hlenb.
  pose proof Hwa as [Hbufa Hcounta].
  pose proof Hwb as [Hbufb Hcountb].
  unfold SeqOps.seq_corr_window_norm.
  destruct (SeqOps.buf wa) as [la_|] eqn:Eba.
  2:{ replace (SeqOps.count wa =? 0) with true
        by (symmetry; apply Z.eqb_eq; lia). reflexivity. }
  destruct (SeqOps.buf wb) as [lb_|] eqn:Ebb.
  2:{ replace (SeqOps.count wb =? 0) with true
        by (symmetry; apply Z.eqb_eq; lia).
      rewrite orb_true_r. reflexivity. }
  destruct Hbufa as (Hla_ & Hcapa & Hsta), Hbufb as (Hlb_ & Hcapb & Hstb).
  destruct (Z.eqb_spec (SeqOps.capacity wa) 0) as [E|_]; [lia|].
  destruct (Z.eqb_spec (SeqOps.capacity wb) 0) as [E|_]; [lia|].
  cbn [orb].
  destruct (Z.eqb_spec (SeqOps.count wa) 0) as [Eca|Eca]; [reflexivity|].
  destruct (Z.eqb_spec (SeqOps.count wb) 0) as [Ecb|Ecb]; [reflexivity|].
  cbn [orb].
  replace (if SeqOps.count wa <? SeqOps.count wb
           then SeqOps.count wa else SeqOps.count wb) with L
    by (unfold L; destruct (Z.ltb_spec (SeqOps.count wa) (SeqOps.count wb)); lia).
  assert (HL : 0 < L /\ L <= SeqOps.count wa /\ L <= SeqOps.count wb)
    by (unfold L; lia).
  destruct (Z.eqb_spec L 0) as [E|_]; [lia|].
  assert (Hxs : Z.of_nat (List.length xs) = L)
    by (apply most_recent_length; lia).
  assert (Hys : Z.of_nat (List.length ys) = L)
    by (apply most_recent_length; lia).
  set (offset_a := if L <? SeqOps.count wa then Size.sub (SeqOps.count wa) L else 0).
  set (offset_b := if L <? SeqOps.count wb then Size.sub (SeqOps.count wb) L else 0).
  assert (Hoa : offset_a = SeqOps.count wa - L).
  { unfold offset_a. destruct (Z.ltb_spec L (SeqOps.count wa)); [size_arith|]; lia. }
  assert (Hob : offset_b = SeqOps.count wb - L).
  { unfold offset_b. destruct (Z.ltb_spec L (SeqOps.count wb)); [size_arith|]; lia. }
  clearbody offset_a offset_b.
  assert (Ha : forall i, 0 <= i < L ->
             SeqOps.seq_window_get (Some wa) (Size.add offset_a i)
             = Some (sample xs i)).
  { intros i Hi. subst offset_a.
    replace (Size.add (SeqOps.count wa - L) i) with (SeqOps.count wa - L + i)
      by (size_arith; reflexivity).
    rewrite window_get_logical by (auto; lia).
    unfold xs. rewrite most_recent_sample by lia. now rewrite Hlena. }
  assert (Hb : forall i, 0 <= i < L ->
             SeqOps.seq_window_get (Some wb) (Size.add offset_b i)
             = Some (sample ys i)).
  { intros i Hi. subst offset_b.
    replace (Size.add (SeqOps.count wb - L) i) with (SeqOps.count wb - L + i)
      by (size_arith; reflexivity).
    rewrite window_get_logical by (auto; lia).
    unfold ys. rewrite most_recent_sample by lia. now rewrite Hlenb. }
  destruct (corr_window_loops (Some wa) (Some wb) offset_a offset_b L xs ys
              Hxs Hys Ha Hb) as [Hsum Hdev].
  rewrite Hsum. cbn [bind].
  rewrite Hdev. cbn [bind].
  assert (Emx : (fsum xs / Size.to_double L)%float = mean xs)
    by (unfold mean; now rewrite Hxs).
  assert (Emy : (fsum ys / Size.to_double L)%float = mean ys)
    by (unfold mean; now rewrite Hys).
  rewrite Emx, Emy.
  fold (deviations xs) (deviations ys).
  fold (sq_dev xs) (sq_dev ys) (cross_dev xs ys).
  unfold corr_undefined, pearson.
  destruct ((sq_dev xs <=? 0)%float || (sq_dev ys <=? 0)%float);
    [reflexivity|].
  cbn [orb].
  destruct (PrimFloat.sqrt (sq_dev xs * sq_dev ys) =? 0)%float; reflexivity.
Qed.

Lemma corr_window_loop_lines (n : Z) (pairs : list (float * float)) :
  0 < n ->
  forall (wa wb : SeqOps.seq_window_t) (pa pb : list float)
         (pr : list SeqOps.corr_line),
    window_wf wa -> window_wf wb ->
    SeqOps.buf wa <> None -> SeqOps.buf wb <> None ->
    SeqOps.capacity wa = n -> SeqOps.capacity wb = n ->
    window_logical wa = most_recent n pa ->
    window_logical wb = most_recent n pb ->
    List.length pa = List.length pb ->
    SeqOps.corr_window_loop pairs (Some wa) (Some wb) pr
    = Some (pr ++ map (fun k =>
                         corr_line_spec n
                           (pa ++ firstn (Datatypes.S k) (map fst pairs))
                           (pb ++ firstn (Datatypes.S k) (map snd pairs)))
                    (seq 0 (List.length pairs))).
Proof.
  intros Hn. induction pairs as [|[ax bx] rest IH];
    intros wa wb pa pb pr Hwa Hwb Hba Hbb Hca Hcb Hla Hlb Hlen.
  - cbn. now rewrite app_nil_r.
  - cbn [SeqOps.corr_window_loop].
    destruct (window_push_logical wa ax Hwa Hba)
      as (wa1 & Hpa & Hwa1 & Hba1 & Hca1 & Hna1 & Hla1).
    destruct (window_push_logical wb bx Hwb Hbb)
      as (wb1 & Hpb & Hwb1 & Hbb1 & Hcb1 & Hnb1 & Hlb1).
    rewrite Hpa. cbn [bind]. rewrite Hpb. cbn [bind].
    pose proof (window_logical_length wa Hwa) as Hka.
    pose proof (window_logical_length wb Hwb) as Hkb.
    pose proof Hwa as [_ Hcnta]. pose proof Hwb as [_ Hcntb].
    rewrite Hca in *. rewrite Hcb in *.
    rewrite <- Hka in Hla1. rewrite <- Hkb in Hlb1.
    rewrite fifo_most_recent in Hla1 by lia.
    rewrite fifo_most_recent in Hlb1 by lia.
    rewrite Hla, most_recent_app in Hla1.
    rewrite Hlb, most_recent_app in Hlb1.
    assert (Hcount : SeqOps.count wa = SeqOps.count wb).
    { rewrite <- Hka, <- Hkb, Hla, Hlb. unfold most_recent.
      rewrite !length_skipn. lia. }
    pose proof (window_logical_length wa1 Hwa1) as Hka1.
    pose proof (window_logical_length wb1 Hwb1) as Hkb1.
    rewrite (corr_window_norm_value wa1 wb1 0%float Hwa1 Hwb1). cbv zeta.
    replace (Z.min (SeqOps.count wa1) (SeqOps.count wb1))
      with (SeqOps.count wa1) by lia.
    rewrite (most_recent_all (SeqOps.count wa1) (window_logical wa1)) by lia.
    rewrite (most_recent_all (SeqOps.count wa1) (window_logical wb1)) by lia.
    rewrite Hla1, Hlb1.
    destruct (Z.eqb_spec (SeqOps.count wa1) 0) as [E|_]; [lia|].
    destruct (Z.eqb_spec (SeqOps.count wb1) 0) as [E|_]; [lia|].
    cbn [orb bind].
    set (line := corr_line_spec n (pa ++ [ax]) (pb ++ [bx])).
    assert (Hline :
              (let '(rc, rho) :=
                 if corr_undefined (most_recent n (pa ++ [ax]))
                                   (most_recent n (pb ++ [bx]))
                 then (-1, Some 0%float)
                 else (0, Some (pearson (most_recent n (pa ++ [ax]))
                                        (most_recent n (pb ++ [bx])))) in
               SeqOps.corr_window_loop rest (Some wa1) (Some wb1)
                 (pr ++ [if rc =? 0
                         then SeqOps.Rho match rho with
                                         | Some r => r
                                         | None => 0%float
                                         end
                         else SeqOps.Nan]))
              = SeqOps.corr_window_loop rest (Some wa1) (Some wb1) (pr ++ [line])).
    { unfold line, corr_line_spec.
      destruct (corr_undefined (most_recent n (pa ++ [ax]))
                               (most_recent n (pb ++ [bx]))); reflexivity. }
    rewrite Hline.
    rewrite (IH wa1 wb1 (pa ++ [ax]) (pb ++ [bx]) (pr ++ [line]));
      try assumption; try congruence.
    2:{ rewrite !length_app. cbn [List.length]. lia. }
    rewrite <- app_assoc. do 2 f_equal.
    cbn [List.length seq map fst snd firstn app]. f_equal.
    rewrite <- seq_shift, map_map. apply map_ext. intros k.
    cbn [firstn]. rewrite <- !app_assoc. reflexivity.
Qed.

(** X25.  [cli_mode_corr_window] with a window size [n > 0] whose two
    buffers can be allocated ends with status 0 and prints one line per
    pair read: after the [k]-th pair, the Pearson coefficient of the
    [min(k, n)] most recent samples of the two streams, or [nan] where
    that coefficient is undefined.  Without a window size, with a window
    size of 0 or when a buffer cannot be allocated it ends with status 1
    and prints nothing. *)
Theorem cli_mode_corr_window_lines :
  forall (n : Z) (pairs : list (float * float)),
    0 < n <= Size.max / 8 ->
    SeqOps.cli_mode_corr_window true true (Some n) pairs
    = Some (0, map (fun k =>
                      corr_line_spec n
                        (firstn (Datatypes.S k) (map fst pairs))
                        (firstn (Datatypes.S k) (map snd pairs)))
                 (seq 0 (List.length pairs))) /\
    SeqOps.cli_mode_corr_window true true None pairs = Some (1, []) /\
    SeqOps.cli_mode_corr_window true true (Some 0) pairs = Some (1, []) /\
    SeqOps.cli_mode_corr_window false true (Some n) pairs = Some (1, []) /\
    SeqOps.cli_mode_corr_window true false (Some n) pairs = Some (1, []).
Proof.
  intros n pairs Hn.
  pose proof size_max_div8 as Hm8.
  assert (Hcalloc : calloc_doubles true n = Some (zeros n)).
  { apply calloc_doubles_some. apply calloc_doubles_true. lia. }
  unfold SeqOps.cli_mode_corr_window, SeqOps.seq_window_init.
  destruct (Z.eqb_spec n 0) as [E|_]; [lia|].
  rewrite Hcalloc.
  assert (Hfalse : calloc_doubles false n = None) by reflexivity.
  rewrite Hfalse.
  split; [|repeat split; reflexivity].
  cbn [Z.eqb negb].
  set (w := SeqOps.mk_window (Some (zeros n)) n 0 0).
  assert (Hw : window_wf w).
  { unfold window_wf, w.
    cbn [SeqOps.buf SeqOps.capacity SeqOps.start SeqOps.count].
    rewrite zeros_length by lia. lia. }
  rewrite (corr_window_loop_lines n pairs ltac:(lia) w w [] [] []);
    try assumption; try reflexivity; try discriminate.
Qed.

Lemma cli_mode_corr_window_lines_witness :
  SeqOps.cli_mode_corr_window true true (Some 2)
    [(1, 2); (2, 4); (3, 7)]%float
  = Some (0, [corr_line_spec 2 [1]%float [2]%float;
              corr_line_spec 2 [1; 2]%float [2; 4]%float;
              corr_line_spec 2 [1; 2; 3]%float [2; 4; 7]%float]).
Proof.
  refine (proj1 (cli_mode_corr_window_lines 2 [(1, 2); (2, 4); (3, 7)]%float _)).
  rewrite size_max_div8. lia.
Defined.

(* ------------------------------------------------------------------ *)
(** ** Cross-correlation with a longer first operand *)

(** A loop one of whose iterations cannot be carried out. *)
Lemma for_range_stuck {S} (n : nat) :
  forall (lo : Z) (body : Z -> S -> C S) (s : S) (k : Z),
    lo <= k < lo + Z.of_nat n ->
    (forall s', body k s' = None) ->
    for_range n lo body s = None.
Proof.
  induction n as [|n IH]; intros lo body s k Hk Hbody; [lia|].
  cbn [for_range]. destruct (Z.eq_dec lo k) as [->|Hne].
  - rewrite Hbody. reflexivity.
  - destruct (body lo s) as [s1|]; [|reflexivity]. cbn [bind].
    apply (IH (lo + 1) body s1 k); [lia|assumption].
Qed.

(** X26.  When the first operand is longer than the second one (and the
    second is not empty), [seq_corr_cross] reads [b] out of bounds: at the
    output index [2 * len(b) - 1] the lag is [len(b)], the clamp of the
    upper summation bound goes through a negative value to 0, and the one
    iteration left reads [b[len(b)]]. *)
Theorem seq_corr_cross_longer_first_operand :
  forall (mem_ok : bool) (a b out : SeqOps.seq_t),
    seq3_wf a -> seq3_wf b ->
    0 < SeqOps.length b < SeqOps.length a ->
    calloc_doubles mem_ok (SeqOps.length a + SeqOps.length b - 1) <> None ->
    SeqOps.seq_corr_cross mem_ok (Some a) (Some b) (Some out) = None.
Proof.
  intros mem_ok a b out Ha Hb Hlen Halloc.
  pose proof size_max_div8 as Hm8. pose proof size_max_value as Hm.
  pose proof long_half_value as Hh.
  destruct (seq3_data_nonempty a Ha ltac:(lia)) as [Ea Elena].
  destruct (seq3_data_nonempty b Hb ltac:(lia)) as [Eb Elenb].
  destruct Ha as [_ Hba], Hb as [_ Hbb].
  set (la := SeqOps.length a) in *. set (lb := SeqOps.length b) in *.
  unfold SeqOps.seq_corr_cross. fold la lb.
  replace ((la =? 0) || (lb =? 0)) with false
    by (symmetry; apply orb_false_iff; rewrite !Z.eqb_neq; lia).
  cbv zeta.
  replace (Size.sub (Size.add la lb) 1) with (la + lb - 1)
    by (size_arith; reflexivity).
  unfold SeqOps.seq_init.
  destruct (Z.eqb_spec (la + lb - 1) 0) as [E0|_]; [lia|].
  rewrite (calloc_doubles_some _ _ Halloc).
  cbn [SeqOps.with_init SeqOps.data SeqOps.length].
  unfold for_lt at 1.
  rewrite (for_range_stuck _ 0 _ _ (2 * lb - 1)); [reflexivity|lia|].
  intros p.
  replace (Size.sub lb 1) with (lb - 1) by (size_arith; reflexivity).
  replace (Size.sub la 1) with (la - 1) by (size_arith; reflexivity).
  replace (Long.of_size (2 * lb - 1)) with (2 * lb - 1)
    by (long_arith; reflexivity).
  replace (Long.of_size (lb - 1)) with (lb - 1) by (long_arith; reflexivity).
  replace (Long.of_size (la - 1)) with (la - 1) by (long_arith; reflexivity).
  replace (Long.sub (2 * lb - 1) (lb - 1)) with lb by (long_arith; lia).
  destruct (Z.ltb_spec lb 0) as [Hneg|_]; [lia|].
  replace (Long.add (la - 1) lb) with (la - 1 + lb) by (long_arith; reflexivity).
  destruct (Z.ltb_spec (lb - 1) (la - 1 + lb)) as [_|Hge]; [|lia].
  replace (Long.sub (lb - 1) lb) with (-1) by (long_arith; lia).
  change (Long.of_size (Long.to_size (-1)) <? 0) with true. cbv iota.
  cbn [Z.leb Z.compare]. unfold for_le.
  change (Z.to_nat (0 + 1 - 0)) with 1%nat. cbn [for_range].
  replace (Long.to_size (Long.add (Long.of_size 0) lb)) with lb
    by (long_arith; reflexivity).
  rewrite Ea, Eb. rewrite ptr_get_sample by lia. cbn [bind].
  cbn [ptr_get]. unfold arr_get, in_bounds.
  rewrite Elenb. fold lb. rewrite Z.ltb_irrefl, andb_false_r. reflexivity.
Qed.

Lemma seq_corr_cross_longer_first_operand_witness :
  SeqOps.seq_corr_cross true
    (Some (SeqOps.mk_seq (Some [1; 2; 3]%float) 3))
    (Some (SeqOps.mk_seq (Some [5; 6]%float) 2))
    (Some (SeqOps.mk_seq None 0))
  = None.
Proof.
  apply (seq_corr_cross_longer_first_operand true
           (SeqOps.mk_seq (Some [1; 2; 3]%float) 3)
           (SeqOps.mk_seq (Some [5; 6]%float) 2)
           (SeqOps.mk_seq None 0)).
  - unfold seq3_wf; cbn; lia.
  - unfold seq3_wf; cbn; lia.
  - cbn. lia.
  - discriminate.
Defined.

(* ------------------------------------------------------------------ *)
(** ** Errors of the combination operators *)

Lemma with_init_nomem (out : SeqOps.seq_t) (n : Z)
    (fill_data : option array -> C (option array)) :
  n <> 0 ->
  SeqOps.with_init (SeqOps.seq_init false (Some out) n) fill_data
  = Some (-1, Some (SeqOps.mk_seq None 0)).
Proof.
  intros Hn. unfold SeqOps.seq_init.
  destruct (Z.eqb_spec n 0) as [E|_]; [contradiction|]. reflexivity.
Qed.

(** X27.  [seq_add], [seq_mul], [seq_conv_linear], [seq_conv_circular] and
    [seq_corr_cross] return -1 and leave [out] as it was when one of their
    three arguments is a null pointer.  On non-empty inputs, when the
    output cannot be allocated, they return -1 and leave [out] empty (null
    data pointer, length 0); [seq_conv_circular] checks the lengths first
    and, when they differ, returns -1 without touching [out]. *)
Theorem ops_error_paths :
  forall (a b out : SeqOps.seq_t),
    seq3_wf a -> seq3_wf b ->
    0 < SeqOps.length a -> 0 < SeqOps.length b ->
    (forall mem_ok oa ob oo,
       oa = None \/ ob = None \/ oo = None ->
       SeqOps.seq_add mem_ok oa ob oo = Some (-1, oo) /\
       SeqOps.seq_mul mem_ok oa ob oo = Some (-1, oo) /\
       SeqOps.seq_conv_linear mem_ok oa ob oo = Some (-1, oo) /\
       SeqOps.seq_conv_circular mem_ok oa ob oo = Some (-1, oo) /\
       SeqOps.seq_corr_cross mem_ok oa ob oo = Some (-1, oo)) /\
    SeqOps.seq_add false (Some a) (Some b) (Some out)
    = Some (-1, Some (SeqOps.mk_seq None 0)) /\
    SeqOps.seq_mul false (Some a) (Some b) (Some out)
    = Some (-1, Some (SeqOps.mk_seq None 0)) /\
    SeqOps.seq_conv_linear false (Some a) (Some b) (Some out)
    = Some (-1, Some (SeqOps.mk_seq None 0)) /\
    SeqOps.seq_corr_cross false (Some a) (Some b) (Some out)
    = Some (-1, Some (SeqOps.mk_seq None 0)) /\
    SeqOps.seq_conv_circular false (Some a) (Some b) (Some out)
    = Some (-1, Some (if SeqOps.length a =? SeqOps.length b
                      then SeqOps.mk_seq None 0 else out)).
Proof.
  intros a b out [_ Hba] [_ Hbb] Hla Hlb.
  pose proof size_max_div8 as Hm8. pose proof size_max_value as Hm.
  set (la := SeqOps.length a) in *. set (lb := SeqOps.length b) in *.
  assert (Hnz : (la =? 0) || (lb =? 0) = false)
    by (apply orb_false_iff; rewrite !Z.eqb_neq; lia).
  split; [|repeat split].
  - intros mem_ok oa ob oo [E | [E | E]]; subst;
      repeat split;
      try reflexivity;
      try (destruct oa; reflexivity);
      try (destruct oa, ob; reflexivity).
  - unfold SeqOps.seq_add. fold la lb. cbv zeta. rewrite min_as_code.
    destruct (Z.eqb_spec (Z.min la lb) 0) as [E|E]; [lia|].
    apply with_init_nomem. exact E.
  - unfold SeqOps.seq_mul. fold la lb. cbv zeta. rewrite min_as_code.
    destruct (Z.eqb_spec (Z.min la lb) 0) as [E|E]; [lia|].
    apply with_init_nomem. exact E.
  - unfold SeqOps.seq_conv_linear. fold la lb. rewrite Hnz. cbv zeta.
    apply with_init_nomem. size_arith. lia.
  - unfold SeqOps.seq_corr_cross. fold la lb. rewrite Hnz. cbv zeta.
    apply with_init_nomem. size_arith. lia.
  - unfold SeqOps.seq_conv_circular. fold la lb. rewrite Hnz.
    destruct (Z.eqb_spec la lb) as [E|E]; cbn [negb]; [|reflexivity].
    cbv zeta. apply with_init_nomem. lia.
Qed.

Lemma ops_error_paths_witness :
  SeqOps.seq_conv_linear false
    (Some (SeqOps.mk_seq (Some [1; 2]%float) 2))
    (Some (SeqOps.mk_seq (Some [3]%float) 1))
    (Some (SeqOps.mk_seq (Some [7]%float) 1))
  = Some (-1, Some (SeqOps.mk_seq None 0)).
Proof.
  refine (proj1 (proj2 (proj2 (proj2
            (ops_error_paths (SeqOps.mk_seq (Some [1; 2]%float) 2)
               (SeqOps.mk_seq (Some [3]%float) 1)
               (SeqOps.mk_seq (Some [7]%float) 1) _ _ _ _))))).
  - unfold seq3_wf; cbn; lia.
  - unfold seq3_wf; cbn; lia.
  - cbn. lia.
  - cbn. lia.
Defined.

(* ------------------------------------------------------------------ *)
(** ** The sequence with a logical start index ([src/1/main.c]) *)

Lemma int_max_value : IntC.max = 2147483647.
Proof. reflexivity. Qed.

Lemma int_min_value : IntC.min = -2147483648.
Proof. reflexivity. Qed.

Lemma checked_in_range (z : Z) :
  IntC.min <= z <= IntC.max -> IntC.checked z = Some z.
Proof.
  intros [H0 H1]. unfold IntC.checked.
  destruct (Z.leb_spec IntC.min z); [|lia].
  destruct (Z.leb_spec z IntC.max); [reflexivity|lia].
Qed.

(** The index translation inside the sequence. *)
Lemma l2p_in_range (s : Signal.SignalSeq) (i p0 : Z) :
  0 <= Signal.length s <= IntC.max ->
  Signal.start s <= i < Signal.start s + Signal.length s ->
  Signal.signal_seq_logical_to_physical (Some s) i (Some p0)
  = Some (0, Some (i - Signal.start s)).
Proof.
  intros Hl Hi. pose proof int_min_value as Hmin.
  unfold Signal.signal_seq_logical_to_physical.
  rewrite checked_in_range by lia. cbn [bind].
  destruct (Z.ltb_spec (i - Signal.start s) 0); [lia|].
  destruct (Z.leb_spec (Signal.length s) (i - Signal.start s)); [lia|].
  reflexivity.
Qed.

(** Outside the sequence. *)
Lemma l2p_out_of_range (s : Signal.SignalSeq) (i p0 : Z) :
  signal_wf s ->
  IntC.min <= i - Signal.start s <= IntC.max ->
  i < Signal.start s \/ Signal.start s + Signal.length s <= i ->
  Signal.signal_seq_logical_to_physical (Some s) i (Some p0)
  = Some (-1, Some p0).
Proof.
  intros (Hl & Hc & Hp & Hs & Hlo & Hhi) Hoff Hi.
  unfold Signal.signal_seq_logical_to_physical.
  rewrite checked_in_range by lia. cbn [bind].
  replace ((i - Signal.start s <? 0) || (Signal.length s <=? i - Signal.start s))
    with true.
  2:{ symmetry. apply orb_true_iff. rewrite Z.ltb_lt, Z.leb_le. lia. }
  rewrite checked_in_range by lia. cbn [bind].
  rewrite checked_in_range by lia. reflexivity.
Qed.

Lemma signal_get_at (s : Signal.SignalSeq) (l : array) (j : Z) (o : float) :
  Signal.data s = Some l ->
  0 <= Signal.length s <= Z.of_nat (List.length l) ->
  Signal.length s <= IntC.max ->
  Signal.start s <= j < Signal.start s + Signal.length s ->
  Signal.signal_seq_get (Some s) j (Some o)
  = Some (0, Some (sample l (j - Signal.start s))).
Proof.
  intros Hd Hl Hmax Hj. unfold Signal.signal_seq_get.
  rewrite l2p_in_range by lia. cbn [bind Z.eqb negb].
  rewrite Hd, ptr_get_sample by lia. reflexivity.
Qed.

(** X28.  [signal_seq_init] refuses a negative length without touching
    the object.  For a length [n >= 0], when the block can be allocated, it
    returns 0 and leaves a sequence with the start index and the length
    asked for, whose capacity is [n], or 8 when the sequence may grow and
    [n < 8]; the data block holds [capacity] doubles and
    [length <= capacity].  When the block cannot be allocated it returns
    -1 and the object is untouched. *)
Theorem signal_seq_init_result :
  forall (mem_ok : bool) (junk : nat -> float) (s0 : Signal.SignalSeq)
         (st n allow : Z),
    (n < 0 ->
     Signal.signal_seq_init mem_ok junk (Some s0) st n allow = (-1, Some s0)) /\
    (0 <= n ->
     let cap := if truthy allow && (n <? 8) then 8 else n in
     (mem_ok = true \/ cap = 0 ->
      exists s,
        Signal.signal_seq_init mem_ok junk (Some s0) st n allow = (0, Some s) /\
        Signal.start s = st /\ Signal.length s = n /\
        Signal.capacity s = cap /\
        Signal.allow_expand s = (if truthy allow then 1 else 0) /\
        Signal.length s <= Signal.capacity s /\
        ptr_wf (Signal.data s) (Signal.capacity s)) /\
     (mem_ok = false -> 0 < cap ->
      Signal.signal_seq_init mem_ok junk (Some s0) st n allow = (-1, Some s0))).
Proof.
  intros mem_ok junk s0 st n allow. unfold Signal.signal_seq_init.
  split.
  - intros Hn. destruct (Z.ltb_spec n 0); [reflexivity|lia].
  - intros Hn. destruct (Z.ltb_spec n 0) as [|_]; [lia|].
    change Signal.INITIAL_CAPACITY with 8.
    set (cap := if truthy allow && (n <? 8) then 8 else n).
    assert (Hcap : n <= cap).
    { unfold cap. destruct (truthy allow && (n <? 8)) eqn:E; [|lia].
      apply andb_true_iff in E. destruct E as [_ E].
      apply Z.ltb_lt in E. lia. }
    split.
    + intros Hok. destruct (Z.ltb_spec 0 cap) as [Hpos|Hzero].
      * destruct Hok as [-> | Hc0]; [|lia].
        unfold Signal.malloc_block. eexists. split; [reflexivity|].
        cbn [Signal.start Signal.length Signal.capacity Signal.allow_expand
             Signal.data ptr_wf].
        repeat split; try lia.
        rewrite length_map, length_seq. lia.
      * eexists. split; [reflexivity|].
        cbn [Signal.start Signal.length Signal.capacity Signal.allow_expand
             Signal.data ptr_wf].
        repeat split; lia.
    + intros -> Hpos. destruct (Z.ltb_spec 0 cap); [reflexivity|lia].
Qed.

Lemma signal_seq_init_result_witness :
  exists s,
    Signal.signal_seq_init true (fun _ => 0%float)
      (Some (Signal.mk_signal 0 0 0 0 None)) (-2) 3 1 = (0, Some s) /\
    Signal.start s = -2 /\ Signal.length s = 3 /\ Signal.capacity s = 8.
Proof.
  destruct (proj1 (proj2 (signal_seq_init_result true (fun _ => 0%float)
                            (Signal.mk_signal 0 0 0 0 None) (-2) 3 1)
                     ltac:(lia)) (or_introl eq_refl))
    as (s & Hrun & Hst & Hlen & Hcap & _).
  exists s. repeat split; assumption.
Defined.

(** X29.  On a well-formed sequence, [signal_seq_set] at a logical index
    inside [start, start + length) returns 0 and keeps start, length and
    capacity; [signal_seq_get] then reads the stored value at that index
    and what it read before at every other index.  At an index outside
    that range (with [index - start] a value of [int]) both return -1, and
    neither the sequence nor [*out_value] is touched. *)
Theorem signal_seq_set_get :
  forall (s : Signal.SignalSeq) (i : Z) (v o : float),
    signal_wf s ->
    (Signal.start s <= i < Signal.start s + Signal.length s ->
     exists s',
       Signal.signal_seq_set (Some s) i v = Some (0, Some s') /\
       signal_wf s' /\
       Signal.start s' = Signal.start s /\
       Signal.length s' = Signal.length s /\
       Signal.capacity s' = Signal.capacity s /\
       Signal.signal_seq_get (Some s') i (Some o) = Some (0, Some v) /\
       forall j, j <> i ->
                 Signal.signal_seq_get (Some s') j (Some o)
                 = Signal.signal_seq_get (Some s) j (Some o)) /\
    (IntC.min <= i - Signal.start s <= IntC.max ->
     i < Signal.start s \/ Signal.start s + Signal.length s <= i ->
     Signal.signal_seq_set (Some s) i v = Some (-1, Some s) /\
     Signal.signal_seq_get (Some s) i (Some o) = Some (-1, Some o)).
Proof.
  intros s i v o Hwf.
  pose proof Hwf as (Hl & Hc & Hp & Hs & Hlo & Hhi).
  split.
  - intros Hi.
    destruct (Signal.data s) as [l|] eqn:Ed; cbn [ptr_wf] in Hp; [|lia].
    unfold Signal.signal_seq_set.
    rewrite l2p_in_range by lia. cbn [bind Z.eqb negb].
    rewrite Ed. cbn [ptr_set].
    rewrite arr_set_in_range by lia. cbn [bind ret].
    set (l' := firstn (Z.to_nat (i - Signal.start s)) l
                 ++ v :: skipn (Datatypes.S (Z.to_nat (i - Signal.start s))) l).
    assert (Hlen' : List.length l' = List.length l)
      by (apply set_length; lia).
    eexists. split; [reflexivity|].
    cbn [Signal.start Signal.length Signal.capacity Signal.data].
    split.
    { unfold signal_wf.
      cbn [Signal.start Signal.length Signal.capacity Signal.data ptr_wf].
      repeat split; lia. }
    split; [reflexivity|]. split; [reflexivity|]. split; [reflexivity|].
    split.
    + rewrite (signal_get_at _ l') by
        (cbn [Signal.start Signal.length Signal.data]; try reflexivity; lia).
      cbn [Signal.start]. unfold l'.
      rewrite sample_set by lia. rewrite Z2Nat.id by lia.
      rewrite Z.eqb_refl. reflexivity.
    + intros j Hj. unfold Signal.signal_seq_get.
      unfold Signal.signal_seq_logical_to_physical.
      cbn [Signal.start Signal.length].
      destruct (IntC.checked (j - Signal.start s)) as [off|] eqn:Eoff;
        [|reflexivity].
      cbn [bind].
      destruct ((off <? 0) || (Signal.length s <=? off)) eqn:Eout.
      { destruct (IntC.checked (Signal.start s + Signal.length s)) as [e|];
          [|reflexivity].
        cbn [bind]. destruct (IntC.checked (e - 1)); reflexivity. }
      cbn [bind ret Z.eqb negb Signal.data]. rewrite Ed.
      apply orb_false_iff in Eout. destruct Eout as [E1 E2].
      apply Z.ltb_ge in E1. apply Z.leb_gt in E2.
      assert (Hoff : off = j - Signal.start s).
      { unfold IntC.checked, ret, undefined in Eoff.
        destruct ((IntC.min <=? j - Signal.start s)
                  && (j - Signal.start s <=? IntC.max)); congruence. }
      rewrite !ptr_get_sample by lia. unfold l'.
      rewrite sample_set by lia. rewrite Z2Nat.id by lia.
      destruct (Z.eqb_spec off (i - Signal.start s)); [lia|reflexivity].
  - intros Hoff Hi.
    unfold Signal.signal_seq_set, Signal.signal_seq_get.
    rewrite (l2p_out_of_range s i 0 Hwf Hoff Hi). split; reflexivity.
Qed.

Lemma signal_seq_set_get_witness :
  let s := Signal.mk_signal (-1) 3 3 0 (Some [1; 2; 3]%float) in
  exists s',
    Signal.signal_seq_set (Some s) 0 9%float = Some (0, Some s') /\
    Signal.signal_seq_get (Some s') 0 (Some 0%float) = Some (0, Some 9%float) /\
    Signal.signal_seq_get (Some s) 2 (Some 0%float) = Some (-1, Some 0%float).
Proof.
  intro s.
  assert (Hwf : signal_wf s).
  { unfold signal_wf, s.
    cbn [Signal.start Signal.length Signal.capacity Signal.data ptr_wf
         List.length].
    rewrite int_max_value, int_min_value. lia. }
  destruct (signal_seq_set_get s 0 9%float 0%float Hwf) as [Hin _].
  destruct (signal_seq_set_get s 2 9%float 0%float Hwf) as [_ Hout].
  destruct Hin as (s' & Hset & _ & _ & _ & _ & Hget & _); [cbn; lia|].
  destruct Hout as [_ Hget2].
  - rewrite int_max_value, int_min_value. cbn. lia.
  - right. cbn. lia.
  - exists s'. split; [exact Hset|]. split; [exact Hget | exact Hget2].
Defined.

(** The block [realloc] hands back: the old content, then unspecified
    cells. *)
Lemma realloc_block_grows (junk : nat -> float) (p : option array) (n : Z) :
  Z.of_nat (List.length (ptr_contents p)) <= n ->
  exists tail,
    Signal.realloc_block true junk p n = Some (ptr_contents p ++ tail) /\
    Z.of_nat (List.length (ptr_contents p ++ tail)) = n.
Proof.
  intros Hn. unfold Signal.realloc_block.
  fold (ptr_contents p). set (old := ptr_contents p) in *.
  exists (map junk (seq (List.length old) (Z.to_nat n - List.length old))).
  assert (Hlen : Z.of_nat (List.length
                   (old ++ map junk (seq (List.length old)
                                       (Z.to_nat n - List.length old)))) = n).
  { rewrite length_app, length_map, length_seq. lia. }
  split; [|exact Hlen].
  change (match p with Some l => l | None => [] end) with old.
  rewrite firstn_all2 by lia. reflexivity.
Qed.

(** X30.  On a well-formed sequence that may grow, or that has room left,
    [signal_seq_append] returns 0: the value becomes the entry at the
    logical index [start + length], the length grows by one and the earlier
    entries are kept.  The capacity is unchanged while there is room; a
    full sequence doubles it (8 for a capacity of 0).  A full fixed-length
    sequence refuses the value with -1, and a full growable one does so
    when the larger block cannot be allocated; in both cases the sequence
    is left as it was. *)
Theorem signal_seq_append_result :
  forall (mem_ok : bool) (junk : nat -> float) (s : Signal.SignalSeq)
         (v o : float),
    signal_wf s ->
    (Signal.allow_expand s <> 0 \/ Signal.length s < Signal.capacity s ->
     mem_ok = true \/ Signal.length s < Signal.capacity s ->
     (Signal.capacity s <= Signal.length s -> 2 * Signal.capacity s <= IntC.max) ->
     Signal.start s + Signal.length s + 1 <= IntC.max ->
     exists s',
       Signal.signal_seq_append mem_ok junk (Some s) v = Some (0, Some s') /\
       signal_wf s' /\
       Signal.start s' = Signal.start s /\
       Signal.length s' = Signal.length s + 1 /\
       Signal.capacity s'
       = (if Signal.length s <? Signal.capacity s then Signal.capacity s
          else if 0 <? Signal.capacity s then 2 * Signal.capacity s else 8) /\
       Signal.allow_expand s' = Signal.allow_expand s /\
       Signal.signal_seq_get (Some s') (Signal.start s + Signal.length s) (Some o)
       = Some (0, Some v) /\
       forall j, Signal.start s <= j < Signal.start s + Signal.length s ->
                 Signal.signal_seq_get (Some s') j (Some o)
                 = Signal.signal_seq_get (Some s) j (Some o)) /\
    (Signal.allow_expand s = 0 -> Signal.capacity s <= Signal.length s ->
     Signal.signal_seq_append mem_ok junk (Some s) v = Some (-1, Some s)) /\
    (Signal.capacity s <= Signal.length s -> 2 * Signal.capacity s <= IntC.max ->
     Signal.signal_seq_append false junk (Some s) v = Some (-1, Some s)).
Proof.
  intros mem_ok junk s v o Hwf.
  pose proof Hwf as (Hl & Hc & Hp & Hs & Hlo & Hhi).
  pose proof int_max_value as Hmax. pose proof int_min_value as Hmin.
  split; [|split].
  - intros Hgrow Hmem Hdouble Hnext.
    unfold Signal.signal_seq_append.
    destruct (Z.leb_spec (Signal.capacity s) (Signal.length s)) as [Hfull|Hroom].
    + (* full: the block is enlarged *)
      destruct Hgrow as [Hallow|Hroom]; [|lia].
      destruct Hmem as [->|Hroom]; [|lia].
      unfold truthy. destruct (Z.eqb_spec (Signal.allow_expand s) 0) as [E|_];
        [contradiction|].
      cbn [negb andb].
      set (nc := if 0 <? Signal.capacity s then 2 * Signal.capacity s else 8).
      assert (Hnc : (if 0 <? Signal.capacity s
                     then IntC.checked (Signal.capacity s * 2)
                     else ret Signal.INITIAL_CAPACITY) = Some nc).
      { unfold nc. destruct (Z.ltb_spec 0 (Signal.capacity s)); [|reflexivity].
        rewrite checked_in_range by lia. f_equal. lia. }
      rewrite Hnc. cbn [bind].
      assert (Hncpos : Signal.capacity s < nc /\ nc <= IntC.max).
      { unfold nc. destruct (Z.ltb_spec 0 (Signal.capacity s)); lia. }
      assert (Hold : Z.of_nat (List.length (ptr_contents (Signal.data s)))
                     = Signal.capacity s).
      { destruct (Signal.data s); cbn [ptr_wf ptr_contents List.length] in *; lia. }
      destruct (realloc_block_grows junk (Signal.data s) nc ltac:(lia))
        as (tail & Hre & Hrelen).
      rewrite Hre. cbn [bind ret Signal.data Signal.length ptr_set].
      set (old := ptr_contents (Signal.data s)) in *.
      rewrite arr_set_in_range by lia. cbn [bind ret].
      rewrite checked_in_range by lia. cbn [bind ret].
      cbn [Signal.start Signal.length Signal.capacity Signal.allow_expand].
      set (blk := firstn (Z.to_nat (Signal.length s)) (old ++ tail)
                    ++ v :: skipn (Datatypes.S (Z.to_nat (Signal.length s)))
                                  (old ++ tail)).
      assert (Hblk : List.length blk = List.length (old ++ tail))
        by (apply set_length; lia).
      eexists. split; [reflexivity|].
      cbn [Signal.start Signal.length Signal.capacity Signal.allow_expand].
      split.
      { unfold signal_wf.
        cbn [Signal.start Signal.length Signal.capacity Signal.data ptr_wf].
        repeat split; lia. }
      split; [reflexivity|]. split; [reflexivity|].
      split.
      { destruct (Z.ltb_spec (Signal.length s) (Signal.capacity s)); [lia|].
        reflexivity. }
      split; [reflexivity|]. split.
      * rewrite (signal_get_at _ blk) by
          (cbn [Signal.start Signal.length Signal.data]; try reflexivity; lia).
        cbn [Signal.start]. unfold blk.
        rewrite sample_set by lia. rewrite Z2Nat.id by lia.
        replace (Signal.start s + Signal.length s - Signal.start s)
          with (Signal.length s) by lia.
        rewrite Z.eqb_refl. reflexivity.
      * intros j Hj.
        rewrite (signal_get_at _ blk) by
          (cbn [Signal.start Signal.length Signal.data]; try reflexivity; lia).
        cbn [Signal.start].
        destruct (Signal.data s) as [l|] eqn:Ed;
          [|cbn [ptr_wf] in Hp; lia].
        rewrite (signal_get_at s l) by (cbn [ptr_wf] in Hp; auto; lia).
        unfold blk. rewrite sample_set by lia. rewrite Z2Nat.id by lia.
        destruct (Z.eqb_spec (j - Signal.start s) (Signal.length s)); [lia|].
        unfold old. cbn [ptr_contents].
        rewrite sample_app_l by (cbn [ptr_wf] in Hp; lia). reflexivity.
    + (* room left *)
      destruct (negb (truthy (Signal.allow_expand s))); cbn [andb bind ret].
      all: destruct (Signal.data s) as [l|] eqn:Ed; cbn [ptr_wf] in Hp; [|lia].
      all: cbn [ptr_set]; rewrite arr_set_in_range by lia; cbn [bind ret].
      all: rewrite checked_in_range by lia; cbn [bind ret].
      all: set (blk := firstn (Z.to_nat (Signal.length s)) l
                         ++ v :: skipn (Datatypes.S (Z.to_nat (Signal.length s))) l).
      all: assert (Hblk : List.length blk = List.length l)
             by (apply set_length; lia).
      all: eexists; split; [reflexivity|].
      all: cbn [Signal.start Signal.length Signal.capacity Signal.allow_expand].
      all: split;
        [unfold signal_wf;
         cbn [Signal.start Signal.length Signal.capacity Signal.data ptr_wf];
         repeat split; lia|].
      all: split; [reflexivity|]; split; [reflexivity|].
      all: split;
        [destruct (Z.ltb_spec (Signal.length s) (Signal.capacity s));
         [reflexivity|lia]|].
      all: split; [reflexivity|]; split.
      all: try (intros j Hj).
      all: rewrite (signal_get_at _ blk) by
             (cbn [Signal.start Signal.length Signal.data];
              try reflexivity; lia).
      all: try rewrite (signal_get_at s l) by (auto; lia).
      all: cbn [Signal.start]; unfold blk;
        rewrite sample_set by lia; rewrite Z2Nat.id by lia.
      all: try (replace (Signal.start s + Signal.length s - Signal.start s)
                  with (Signal.length s) by lia;
                rewrite Z.eqb_refl; reflexivity).
      all: destruct (Z.eqb_spec (j - Signal.start s) (Signal.length s));
        [lia|reflexivity].
  - intros Hfixed Hfull. unfold Signal.signal_seq_append.
    rewrite Hfixed. cbn [truthy Z.eqb negb andb].
    destruct (Z.leb_spec (Signal.capacity s) (Signal.length s)); [reflexivity|lia].
  - intros Hfull Hdouble. unfold Signal.signal_seq_append.
    destruct (Z.leb_spec (Signal.capacity s) (Signal.length s)); [|lia].
    destruct (negb (truthy (Signal.allow_expand s))); cbn [andb];
      [reflexivity|].
    destruct (Z.ltb_spec 0 (Signal.capacity s)).
    + rewrite checked_in_range by lia. reflexivity.
    + reflexivity.
Qed.

Lemma signal_seq_append_result_witness :
  let s := Signal.mk_signal 5 2 2 1 (Some [1; 2]%float) in
  exists s',
    Signal.signal_seq_append true (fun _ => 0%float) (Some s) 9%float
    = Some (0, Some s') /\
    Signal.length s' = 3 /\ Signal.capacity s' = 4 /\
    Signal.signal_seq_get (Some s') 7 (Some 0%float) = Some (0, Some 9%float).
Proof.
  intro s.
  assert (Hwf : signal_wf s).
  { unfold signal_wf, s.
    cbn [Signal.start Signal.length Signal.capacity Signal.data ptr_wf
         List.length].
    rewrite int_max_value, int_min_value. lia. }
  destruct (proj1 (signal_seq_append_result true (fun _ => 0%float) s
                     9%float 0%float Hwf))
    as (s' & Hrun & _ & _ & Hlen & Hcap & _ & Hget & _).
  - left. discriminate.
  - left. reflexivity.
  - intros _. rewrite int_max_value. cbn. lia.
  - rewrite int_max_value. cbn. lia.
  - exists s'. split; [exact Hrun|]. split; [exact Hlen|].
    split; [exact Hcap | exact Hget].
Defined.
